(** * dxf-viewer: the DXF parser and the canvas renderer

    A shallow embedding of [src/dxf/types.ts], [src/dxf/parser.ts] and
    [src/dxf/renderer.ts], and of the handlers of [src/dxf-view.ts] and
    [src/settings.ts] that change the state of a view and the settings.

    Modelling conventions, used throughout:
    - a JavaScript [number] that the program computes with is a real
      number ([R]); IEEE-754 rounding, overflow and signed zero are not
      represented.  The result of [Number.parseFloat], which may be [NaN]
      or an infinity, has its own type [JsNumber].  Theorems over this
      reading are identities and inequalities of the exact values: the
      program meets them up to the rounding of binary64;
    - where rounding decides what the program does (a tolerance, a count
      taken with [Math.ceil], a test for zero, a loop counter), the
      functions are embedded a second time in [Binary64], over the
      primitive binary64 numbers ([float]), and the loop counters of
      [drawGrid] are integers rounded to binary64;
    - an integer-valued [number] (a group code, an array index, a segment
      count) is a [Z] or a [nat];
    - a JavaScript string is a [string], one [ascii] per code unit (the
      code units below 256);
    - an array is a [list]; [a[i]] is [nth_error a i], [undefined] is [None];
    - a [while] or [for] loop whose cursor jumps is a [Fixpoint] on a
      variant ([length - cursor]); reaching variant [0] is the loop's own
      exit test;
    - drawing is the list of the calls made on the 2D context, in order;
    - a handler of the view is a function from the fields of the view to
      the fields after it; rendering does not change them. *)

From Stdlib Require Import Reals Lra Lia ZArith List String Ascii Bool Arith.
From Stdlib Require Import Permutation.
From Stdlib Require Floats.
Import ListNotations.

Open Scope R_scope.

Set Warnings "-inexact-float".

(** ** types.ts *)

Module Types.

Record DxfPoint := mkPoint { x : R; y : R }.

(** [end] is a keyword of Rocq: the field is [end_]. *)
Record DxfLineEntity := mkLine { start : DxfPoint; end_ : DxfPoint }.

(** [center] and [radius], which name the fields of [DxfArcEntity] below. *)
Record DxfCircleEntity := mkCircle { circleCenter : DxfPoint; circleRadius : R }.

Record DxfArcEntity := mkArc {
  center : DxfPoint;
  radius : R;
  startAngleDeg : R;
  endAngleDeg : R
}.

Record DxfPolylineEntity := mkPolyline { points : list DxfPoint; closed : bool }.

(** The union [DxfEntity], discriminated by its [type] field. *)
Inductive DxfEntity :=
| LINE (e : DxfLineEntity)
| CIRCLE (e : DxfCircleEntity)
| ARC (e : DxfArcEntity)
| POLYLINE (e : DxfPolylineEntity).

Record DxfDocument := mkDocument {
  entities : list DxfEntity;
  warnings : list string
}.

End Types.

Module DxfBounds.
Record t := mk { minX : R; minY : R; maxX : R; maxY : R }.
End DxfBounds.

Module DxfViewport.
Record t := mk { zoom : R; panX : R; panY : R }.
End DxfViewport.

(** ** The JavaScript built-ins that the program calls *)

Module Js.

(** A [number] as [Number.parseFloat] returns it. *)
Inductive JsNumber :=
| NaN
| Infinity (negative : bool)
| Finite (r : R).

(** [Math.trunc]: the integer part, towards zero. *)
Definition Math_trunc (r : R) : Z := if Rle_dec 0 r then Zfloor r else Zceil r.

(** [Math.round]: the nearest integer, halves towards plus infinity. *)
Definition Math_round (value : R) : R := IZR (Zfloor (value + 0.5)).

(** White space and line terminators among the code units below 256:
    TAB, LF, VT, FF, CR, SP and NBSP. *)
Definition isWhiteSpace (c : ascii) : bool :=
  let n := nat_of_ascii c in
  ((n =? 9) || (n =? 10) || (n =? 11) || (n =? 12) || (n =? 13)
   || (n =? 32) || (n =? 160))%nat.

Fixpoint trimStart (s : string) : string :=
  match s with
  | EmptyString => EmptyString
  | String c s' => if isWhiteSpace c then trimStart s' else s
  end.

Fixpoint trimEnd (s : string) : string :=
  match s with
  | EmptyString => EmptyString
  | String c s' =>
      match trimEnd s' with
      | EmptyString => if isWhiteSpace c then EmptyString else String c EmptyString
      | t => String c t
      end
  end.

(** [String.prototype.trim]. *)
Definition trim (s : string) : string := trimEnd (trimStart s).

(** [s.includes(c)] for a one-character needle. *)
Fixpoint includes (s : string) (c : ascii) : bool :=
  match s with
  | EmptyString => false
  | String c' s' => Ascii.eqb c' c || includes s' c
  end.

Definition CR : ascii := "013"%char.
Definition LF : ascii := "010"%char.
Definition NUL : ascii := "000"%char.

(** [s.replace(/\r\n/g, "\n")]. *)
Fixpoint replaceCRLF (s : string) : string :=
  match s with
  | EmptyString => EmptyString
  | String c s' =>
      match s' with
      | String c' rest =>
          if Ascii.eqb c CR && Ascii.eqb c' LF
          then String LF (replaceCRLF rest)
          else String c (replaceCRLF s')
      | EmptyString => String c EmptyString
      end
  end.

(** [s.replace(/\r/g, "\n")]. *)
Fixpoint replaceCR (s : string) : string :=
  match s with
  | EmptyString => EmptyString
  | String c s' => String (if Ascii.eqb c CR then LF else c) (replaceCR s')
  end.

(** [s.split(sep)] for a one-character separator: never empty. *)
Fixpoint split (s : string) (sep : ascii) : list string :=
  match s with
  | EmptyString => [EmptyString]
  | String c s' =>
      if Ascii.eqb c sep
      then EmptyString :: split s' sep
      else match split s' sep with
           | [] => [String c EmptyString]
           | line :: lines => String c line :: lines
           end
  end.

Definition isDigit (c : ascii) : bool :=
  let n := nat_of_ascii c in ((48 <=? n) && (n <=? 57))%nat.

Definition digitValue (c : ascii) : Z := Z.of_nat (nat_of_ascii c - 48).

(** Reads the decimal digits at the head of [s] into [acc]; returns the
    number read, how many digits it had, and the rest of [s]. *)
Fixpoint takeDigits (s : string) (acc : Z) (count : nat) : Z * nat * string :=
  match s with
  | EmptyString => (acc, count, s)
  | String c s' =>
      if isDigit c
      then takeDigits s' (acc * 10 + digitValue c)%Z (S count)
      else (acc, count, s)
  end.

(** An optional sign: [true] for [-]. *)
Definition takeSign (s : string) : bool * string :=
  match s with
  | String "-"%char s' => (true, s')
  | String "+"%char s' => (false, s')
  | _ => (false, s)
  end.

(** [Number.parseInt(s, 10)]; [None] is [NaN]. *)
Definition Number_parseInt (s : string) : option Z :=
  let '(negative, digits) := takeSign (trimStart s) in
  let '(n, count, _) := takeDigits digits 0%Z 0%nat in
  if (count =? 0)%nat then None
  else Some (if negative then (- n)%Z else n).

(** [m * 10 ^ e]. *)
Definition scale10 (m : R) (e : Z) : R :=
  match e with
  | Z0 => m
  | Zpos p => m * IZR (Z.pow_pos 10 p)
  | Zneg p => m / IZR (Z.pow_pos 10 p)
  end.

(** The exponent part at the head of [s], [0] when there is none. *)
Definition takeExponent (s : string) : Z :=
  match s with
  | String c s' =>
      if Ascii.eqb c "e"%char || Ascii.eqb c "E"%char
      then let '(negative, digits) := takeSign s' in
           let '(n, count, _) := takeDigits digits 0%Z 0%nat in
           if (count =? 0)%nat then 0%Z
           else if negative then (- n)%Z else n
      else 0%Z
  | EmptyString => 0%Z
  end.

(** What [Number.parseFloat] recognises at the head of a string. *)
Inductive DecimalLiteral :=
| NotANumber
| InfinityLiteral (negative : bool)
| Decimal (negative : bool) (mantissa exponent : Z).

(** The longest prefix of the trimmed string that is a decimal literal:
    an optional sign, then [Infinity] or digits with an optional
    fraction and an optional exponent. *)
Definition scanDecimal (s : string) : DecimalLiteral :=
  let '(negative, body) := takeSign (trimStart s) in
  if String.prefix "Infinity" body then InfinityLiteral negative
  else
    let '(intPart, intCount, afterInt) := takeDigits body 0%Z 0%nat in
    let '(mantissa, fracCount, afterFrac) :=
      match afterInt with
      | String "."%char fraction => takeDigits fraction intPart 0%nat
      | _ => (intPart, 0%nat, afterInt)
      end in
    if (intCount + fracCount =? 0)%nat then NotANumber
    else Decimal negative mantissa (takeExponent afterFrac - Z.of_nat fracCount).

(** [Number.parseFloat]: the real number that the literal denotes
    (neither rounded nor overflowing to an infinity). *)
Definition Number_parseFloat (s : string) : JsNumber :=
  match scanDecimal s with
  | NotANumber => NaN
  | InfinityLiteral negative => Infinity negative
  | Decimal negative mantissa exponent =>
      Finite (scale10 (if negative then - IZR mantissa else IZR mantissa) exponent)
  end.

(** The binary64 number nearest to the integer [n], ties to the even
    mantissa: what a [number] holds when an integer is stored in it.
    The integers up to [2^53] in magnitude are held as they are; beyond,
    only every second, every fourth, ... integer is a binary64 number.
    (Overflow to an infinity, from [2^1024] on, is not represented.) *)
Definition nearestBinary64 (n : Z) : Z :=
  let a := Z.abs n in
  if (a <=? 2 ^ 53)%Z then n
  else
    let k := (Z.log2 a - 52)%Z in
    let q := (a / 2 ^ k)%Z in
    let r := (a mod 2 ^ k)%Z in
    let half := (2 ^ (k - 1))%Z in
    let q' := if (half <? r)%Z || ((r =? half)%Z && Z.odd q)
              then (q + 1)%Z else q in
    (Z.sgn n * (q' * 2 ^ k))%Z.

End Js.

(** ** parser.ts *)

Module Parser.
Import Types Js.

Record DxfGroup := mkGroup { code : Z; value : string }.

Record EntityParseResult := mkResult {
  entity : option DxfEntity;
  nextIndex : nat
}.

(** The result of [parseVertex]. *)
Record VertexParseResult := mkVertexResult {
  point : option DxfPoint;
  vertexNextIndex : nat
}.

Definition binaryWarning : string :=
  "This file appears to be binary DXF. Rendering may be incomplete.".

(** The loop of [parseGroups], two lines at a time. *)
Fixpoint parseGroups_loop (lines : list string) : list DxfGroup :=
  match lines with
  | codeLine :: valueLine :: rest =>
      let codeText := trim codeLine in
      let valueText := valueLine in
      match codeText with
      | EmptyString => parseGroups_loop rest
      | _ =>
          match Number_parseInt codeText with
          | None => parseGroups_loop rest
          | Some code => mkGroup code (trim valueText) :: parseGroups_loop rest
          end
      end
  | _ => []
  end.

Definition parseGroups (raw : string) : list DxfGroup :=
  let lines := split (replaceCR (replaceCRLF raw)) LF in
  parseGroups_loop lines.

Definition parseNumber (value : string) : option R :=
  match Number_parseFloat value with
  | Finite parsed => Some parsed
  | _ => None
  end.

Fixpoint readNumber (body : list DxfGroup) (c : Z) : option R :=
  match body with
  | [] => None
  | group :: rest =>
      if (code group =? c)%Z then parseNumber (value group) else readNumber rest c
  end.

Definition readPoint (body : list DxfGroup) (xCode yCode : Z) : option DxfPoint :=
  match readNumber body xCode, readNumber body yCode with
  | Some px, Some py => Some {| x := px; y := py |}
  | _, _ => None
  end.

Definition parseLine (body : list DxfGroup) : option DxfLineEntity :=
  match readPoint body 10 20, readPoint body 11 21 with
  | Some start, Some end_ => Some (mkLine start end_)
  | _, _ => None
  end.

Definition parseCircle (body : list DxfGroup) : option DxfCircleEntity :=
  match readPoint body 10 20, readNumber body 40 with
  | Some center, Some radius =>
      if Rle_dec radius 0 then None else Some (mkCircle center radius)
  | _, _ => None
  end.

Definition parseArc (body : list DxfGroup) : option DxfArcEntity :=
  match readPoint body 10 20, readNumber body 40,
        readNumber body 50, readNumber body 51 with
  | Some center, Some radius, Some startAngle, Some endAngle =>
      if Rle_dec radius 0 then None
      else Some (mkArc center radius startAngle endAngle)
  | _, _, _, _ => None
  end.

(** One iteration of the loop of [parseLwPolyline] over the state
    [(vertices, pendingX)]. *)
Definition lwPolylineStep (state : list DxfPoint * option R) (group : DxfGroup)
    : list DxfPoint * option R :=
  let '(vertices, pendingX) := state in
  if (code group =? 10)%Z then (vertices, parseNumber (value group))
  else
    match pendingX with
    | Some px =>
        if (code group =? 20)%Z
        then match parseNumber (value group) with
             | Some py => (vertices ++ [{| x := px; y := py |}], None)
             | None => (vertices, None)
             end
        else state
    | None => state
    end.

Definition parseLwPolyline (body : list DxfGroup) : option DxfPolylineEntity :=
  let flags := match readNumber body 70 with Some f => f | None => 0 end in
  let closed := (Z.land (Math_trunc flags) 1 =? 1)%Z in
  let vertices := fst (fold_left lwPolylineStep body ([], None)) in
  if (List.length vertices <? 2)%nat then None
  else Some (mkPolyline vertices closed).

(** [a.slice(from, to)] for indices that are natural numbers. *)
Definition slice {A : Type} (a : list A) (from to : nat) : list A :=
  firstn (to - from) (skipn from a).

(** The loop shared by [parseSimpleEntity] and [parseVertex]: moves [i]
    to the next record of code 0, or to the end. *)
Fixpoint skipBody (variant : nat) (groups : list DxfGroup) (i : nat) : nat :=
  match variant with
  | O => i
  | S variant' =>
      match nth_error groups i with
      | None => i
      | Some current =>
          if (code current =? 0)%Z then i else skipBody variant' groups (S i)
      end
  end.

Definition parseSimpleEntity (groups : list DxfGroup) (startIndex : nat)
    : EntityParseResult :=
  match nth_error groups startIndex with
  | None => mkResult None (startIndex + 1)
  | Some startGroup =>
      let i := skipBody (List.length groups - (startIndex + 1)) groups (startIndex + 1) in
      let entityType := value startGroup in
      let body := slice groups (startIndex + 1) i in
      if String.eqb entityType "LINE"
      then mkResult (option_map LINE (parseLine body)) i
      else if String.eqb entityType "LWPOLYLINE"
      then mkResult (option_map POLYLINE (parseLwPolyline body)) i
      else if String.eqb entityType "CIRCLE"
      then mkResult (option_map CIRCLE (parseCircle body)) i
      else if String.eqb entityType "ARC"
      then mkResult (option_map ARC (parseArc body)) i
      else mkResult None i
  end.

Definition parseVertex (groups : list DxfGroup) (startIndex : nat)
    : VertexParseResult :=
  let i := skipBody (List.length groups - (startIndex + 1)) groups (startIndex + 1) in
  let body := slice groups (startIndex + 1) i in
  let point := readPoint body 10 20 in
  mkVertexResult point i.

(** The first loop of [parsePolylineEntity], over [(i, flags)]. *)
Fixpoint polylineHeader (variant : nat) (groups : list DxfGroup) (i : nat) (flags : Z)
    : nat * Z :=
  match variant with
  | O => (i, flags)
  | S variant' =>
      match nth_error groups i with
      | None => (i, flags)
      | Some current =>
          if (code current =? 0)%Z then (i, flags)
          else
            let flags :=
              if (code current =? 70)%Z
              then Math_trunc (match parseNumber (value current) with
                               | Some f => f
                               | None => 0
                               end)
              else flags in
            polylineHeader variant' groups (S i) flags
      end
  end.

(** The second loop of [parsePolylineEntity], over [(i, points)]. *)
Fixpoint polylineVertices (variant : nat) (groups : list DxfGroup) (i : nat)
    (points : list DxfPoint) : nat * list DxfPoint :=
  match variant with
  | O => (i, points)
  | S variant' =>
      match nth_error groups i with
      | None => (i, points)
      | Some group =>
          if negb (code group =? 0)%Z
          then polylineVertices variant' groups (S i) points
          else if String.eqb (value group) "VERTEX"
          then
            let parsedVertex := parseVertex groups i in
            let points := match point parsedVertex with
                          | Some p => points ++ [p]
                          | None => points
                          end in
            polylineVertices variant' groups (vertexNextIndex parsedVertex) points
          else if String.eqb (value group) "SEQEND"
          then (S i, points)
          else (i, points)
      end
  end.

Definition parsePolylineEntity (groups : list DxfGroup) (startIndex : nat)
    : EntityParseResult :=
  let '(i, flags) :=
    polylineHeader (List.length groups - (startIndex + 1)) groups (startIndex + 1) 0%Z in
  let '(i, points) := polylineVertices (List.length groups - i) groups i [] in
  if (List.length points <? 2)%nat then mkResult None i
  else mkResult (Some (POLYLINE (mkPolyline points (Z.land flags 1 =? 1)%Z))) i.

(** The variables of the loop of [parseDxf]: [i], [inEntitiesSection] and
    the array [entities]. *)
Record WalkState := mkState {
  cursor : nat;
  inEntitiesSection : bool;
  found : list DxfEntity
}.

Definition pushEntity (entities : list DxfEntity) (parsed : EntityParseResult)
    : list DxfEntity :=
  match entity parsed with
  | Some e => entities ++ [e]
  | None => entities
  end.

(** One iteration of the loop of [parseDxf]; [None] when the loop ends. *)
Definition walkStep (groups : list DxfGroup) (st : WalkState) : option WalkState :=
  let i := cursor st in
  match nth_error groups i with
  | None => None
  | Some group =>
      if (code group =? 0)%Z && String.eqb (value group) "SECTION"
      then
        let sectionMarker := nth_error groups (i + 1) in
        let inSection :=
          match sectionMarker with
          | Some m => (code m =? 2)%Z && String.eqb (value m) "ENTITIES"
          | None => false
          end in
        Some (mkState (i + 2) inSection (found st))
      else if (code group =? 0)%Z && String.eqb (value group) "ENDSEC"
      then Some (mkState (i + 1) false (found st))
      else if negb (inEntitiesSection st) || negb (code group =? 0)%Z
      then Some (mkState (i + 1) (inEntitiesSection st) (found st))
      else if String.eqb (value group) "POLYLINE"
      then
        let parsed := parsePolylineEntity groups i in
        Some (mkState (nextIndex parsed) (inEntitiesSection st)
                      (pushEntity (found st) parsed))
      else
        let parsed := parseSimpleEntity groups i in
        Some (mkState (nextIndex parsed) (inEntitiesSection st)
                      (pushEntity (found st) parsed))
  end.

Fixpoint walk (variant : nat) (groups : list DxfGroup) (st : WalkState) : WalkState :=
  match variant with
  | O => st
  | S variant' =>
      match walkStep groups st with
      | None => st
      | Some st' => walk variant' groups st'
      end
  end.

Definition parseDxf (raw : string) : DxfDocument :=
  let warnings := if includes raw NUL then [binaryWarning] else [] in
  let groups := parseGroups raw in
  let final := walk (List.length groups) groups (mkState 0 false []) in
  mkDocument (found final) warnings.

End Parser.

(** ** renderer.ts: the view transform *)

Module Renderer.
Import Types Js.

Record RenderTransform := mkTransform {
  baseScale : R;
  offsetX : R;
  offsetY : R;
  minX : R;
  minY : R;
  canvasWidth : R;
  canvasHeight : R;
  centerX : R;
  centerY : R;
  zoom : R;
  panX : R;
  panY : R
}.

Definition DEFAULT_VIEWPORT : DxfViewport.t := DxfViewport.mk 1 0 0.

(** [Number.isFinite]: every real is finite. *)
Definition Number_isFinite (_ : R) : bool := true.

Definition clamp (value min max : R) : R := Rmin max (Rmax min value).

Definition createTransform (bounds : DxfBounds.t) (width height padding : R)
    (viewport : DxfViewport.t) : RenderTransform :=
  let safePadding := Rmin (Rmax padding 0) (Rmin width height / 2) in
  let worldWidth := Rmax (DxfBounds.maxX bounds - DxfBounds.minX bounds) 1e-6 in
  let worldHeight := Rmax (DxfBounds.maxY bounds - DxfBounds.minY bounds) 1e-6 in
  let scaleX := (width - safePadding * 2) / worldWidth in
  let scaleY := (height - safePadding * 2) / worldHeight in
  let baseScale := Rmax 1e-6 (Rmin scaleX scaleY) in
  let drawnWidth := worldWidth * baseScale in
  let drawnHeight := worldHeight * baseScale in
  let zoom := clamp (DxfViewport.zoom viewport) 0.02 200 in
  let panX := if Number_isFinite (DxfViewport.panX viewport)
              then DxfViewport.panX viewport else 0 in
  let panY := if Number_isFinite (DxfViewport.panY viewport)
              then DxfViewport.panY viewport else 0 in
  {| baseScale := baseScale;
     offsetX := (width - drawnWidth) / 2;
     offsetY := (height - drawnHeight) / 2;
     minX := DxfBounds.minX bounds;
     minY := DxfBounds.minY bounds;
     canvasWidth := width;
     canvasHeight := height;
     centerX := width / 2;
     centerY := height / 2;
     zoom := zoom;
     panX := panX;
     panY := panY |}.

Definition worldToBase (point : DxfPoint) (transform : RenderTransform) : DxfPoint :=
  {| x := (x point - minX transform) * baseScale transform + offsetX transform;
     y := canvasHeight transform
          - ((y point - minY transform) * baseScale transform + offsetY transform) |}.

Definition applyViewport (basePoint : DxfPoint) (transform : RenderTransform) : DxfPoint :=
  {| x := centerX transform + (x basePoint - centerX transform) * zoom transform
          + panX transform;
     y := centerY transform + (y basePoint - centerY transform) * zoom transform
          + panY transform |}.

Definition toScreen (point : DxfPoint) (transform : RenderTransform) : DxfPoint :=
  let base := worldToBase point transform in
  applyViewport base transform.

Definition screenToWorld (screenPoint : DxfPoint) (transform : RenderTransform) : DxfPoint :=
  let baseX := ((x screenPoint - panX transform - centerX transform) / zoom transform)
               + centerX transform in
  let baseY := ((y screenPoint - panY transform - centerY transform) / zoom transform)
               + centerY transform in
  {| x := (baseX - offsetX transform) / baseScale transform + minX transform;
     y := ((canvasHeight transform - baseY) - offsetY transform) / baseScale transform
          + minY transform |}.


(** *** Hit testing: [findNearestVertex] and what it needs *)

Record HTMLCanvasElement := mkCanvas { clientWidth : R; clientHeight : R }.

(** The fields [start], [end] and [hover]. *)
Record DxfMeasurement := mkMeasurement {
  measureStart : option DxfPoint;
  measureEnd : option DxfPoint;
  hover : option DxfPoint
}.

Record DxfRenderOptions := mkOptions {
  lineColor : string;
  backgroundColor : string;
  padding : R;
  showGridlines : bool;
  gridSizeMm : R;
  viewport : option DxfViewport.t;
  measurement : option DxfMeasurement
}.

Definition degToRad (value : R) : R := (value * PI) / 180.

Definition getArcPoint (entity : DxfArcEntity) (angleDeg : R) : DxfPoint :=
  let angleRad := degToRad angleDeg in
  {| x := x (center entity) + radius entity * cos angleRad;
     y := y (center entity) + radius entity * sin angleRad |}.

Definition collectVertices (entities : list DxfEntity) : list DxfPoint :=
  fold_left
    (fun vertices entity =>
       match entity with
       | LINE e => vertices ++ [start e; end_ e]
       | POLYLINE e => fold_left (fun vs point => vs ++ [point]) (points e) vertices
       | ARC e => vertices ++ [getArcPoint e (startAngleDeg e);
                               getArcPoint e (endAngleDeg e)]
       | CIRCLE _ => vertices
       end)
    entities [].

(** The closure [includePoint] of [computeBounds], with the captured
    variable [bounds] passed and returned. *)
Definition includePoint (bounds : option DxfBounds.t) (point : DxfPoint)
    : option DxfBounds.t :=
  match bounds with
  | None => Some (DxfBounds.mk (x point) (y point) (x point) (y point))
  | Some b =>
      Some (DxfBounds.mk (Rmin (DxfBounds.minX b) (x point))
                         (Rmin (DxfBounds.minY b) (y point))
                         (Rmax (DxfBounds.maxX b) (x point))
                         (Rmax (DxfBounds.maxY b) (y point)))
  end.

Definition includeCircle (bounds : option DxfBounds.t) (c : DxfPoint) (r : R)
    : option DxfBounds.t :=
  let bounds := includePoint bounds {| x := x c - r; y := y c - r |} in
  includePoint bounds {| x := x c + r; y := y c + r |}.

Definition computeBounds (entities : list DxfEntity) : option DxfBounds.t :=
  fold_left
    (fun bounds entity =>
       match entity with
       | LINE e => includePoint (includePoint bounds (start e)) (end_ e)
       | POLYLINE e => fold_left includePoint (points e) bounds
       | CIRCLE e => includeCircle bounds (circleCenter e) (circleRadius e)
       | ARC e => includeCircle bounds (center e) (radius e)
       end)
    entities None.

Definition createTransformForCanvas (document : DxfDocument) (width height : R)
    (options : DxfRenderOptions) : option RenderTransform :=
  match computeBounds (entities document) with
  | None => None
  | Some bounds =>
      Some (createTransform bounds width height (padding options)
              match viewport options with
              | Some v => v
              | None => DEFAULT_VIEWPORT
              end)
  end.

(** One iteration of the loop of [findNearestVertex] over the state
    [(bestDistanceSquared, bestPoint)]. *)
Definition nearestStep (transform : RenderTransform) (screenX screenY : R)
    (best : R * option DxfPoint) (vertex : DxfPoint) : R * option DxfPoint :=
  let projected := toScreen vertex transform in
  let dx := x projected - screenX in
  let dy := y projected - screenY in
  let distanceSquared := dx * dx + dy * dy in
  if Rle_dec distanceSquared (fst best)
  then (distanceSquared, Some vertex)
  else best.

Definition findNearestVertex (canvas : HTMLCanvasElement) (document : DxfDocument)
    (options : DxfRenderOptions) (screenX screenY maxDistancePx : R)
    : option DxfPoint :=
  let width := Rmax 10 (Math_round (clientWidth canvas)) in
  let height := Rmax 10 (Math_round (clientHeight canvas)) in
  match createTransformForCanvas document width height options with
  | None => None
  | Some transform =>
      let maxDistanceSquared := (Rmax maxDistancePx 0) ^ 2 in
      snd (fold_left (nearestStep transform screenX screenY)
             (collectVertices (entities document))
             (maxDistanceSquared, None))
  end.

(** *** Arcs *)

(** The operator [%] on numbers: the remainder has the sign of the
    dividend, the quotient is truncated towards zero. *)
Definition js_rem (a b : R) : R := a - b * IZR (Math_trunc (a / b)).

(** In exact arithmetic the result lies in [[0,360)]; as binary64
    evaluates it ([Binary64.normalizeDegrees]) the sum can round to 360. *)
Definition normalizeDegrees (value : R) : R :=
  let normalized := js_rem value 360 in
  if Rlt_dec normalized 0 then normalized + 360 else normalized.

(** In exact arithmetic; as binary64 evaluates it
    ([Binary64.computeCounterClockwiseSweep]) a difference that rounds
    to zero counts as zero. *)
Definition computeCounterClockwiseSweep (startDeg endDeg : R) : R :=
  let start := normalizeDegrees startDeg in
  let end_ := normalizeDegrees endDeg in
  let delta := js_rem (end_ - start + 360) 360 in
  degToRad (if Req_dec_T delta 0 then 360 else delta).

(** The calls made on the 2D context that build and stroke paths, in
    order.  Assignments to style properties ([strokeStyle], [lineWidth],
    [setLineDash]) are not recorded. *)
Inductive CanvasOp :=
| Save
| Restore
| BeginPath
| MoveTo (sx sy : R)
| LineTo (sx sy : R)
| Stroke.

(** The body of the loop of [drawArc] at index [i]. *)
Definition arcWorldPoint (entity : DxfArcEntity) (startRad sweepRad : R)
    (segments i : Z) : DxfPoint :=
  let angle := startRad + (sweepRad * IZR i) / IZR segments in
  {| x := x (center entity) + radius entity * cos angle;
     y := y (center entity) + radius entity * sin angle |}.

(** The count in exact arithmetic.  The program takes the ceiling of
    the rounded quotient ([Binary64.arcSegments]), which is one more
    where rounding lifts an integer quotient: the statements below rely
    on the count being at least 12 only. *)
Definition arcSegments (sweepRad : R) : Z :=
  Z.max 12 (Zceil (sweepRad / (PI / 18))).

Definition drawArc (entity : DxfArcEntity) (transform : RenderTransform)
    : list CanvasOp :=
  let startRad := degToRad (startAngleDeg entity) in
  let sweepRad := computeCounterClockwiseSweep (startAngleDeg entity) (endAngleDeg entity) in
  let segments := arcSegments sweepRad in
  [BeginPath]
  ++ map (fun i : nat =>
            let point := arcWorldPoint entity startRad sweepRad segments (Z.of_nat i) in
            let screenPoint := toScreen point transform in
            if Nat.eqb i 0
            then MoveTo (x screenPoint) (y screenPoint)
            else LineTo (x screenPoint) (y screenPoint))
         (seq 0 (S (Z.to_nat segments)))
  ++ [Stroke].

(** *** The grid *)

(** The four corners are folded from [+Infinity] and [-Infinity], the
    units of [Math.min] and [Math.max]: the fold starts at the first
    corner. *)
Definition computeVisibleWorldBounds (transform : RenderTransform) : DxfBounds.t :=
  let c0 := screenToWorld {| x := 0; y := 0 |} transform in
  let corners :=
    [ screenToWorld {| x := canvasWidth transform; y := 0 |} transform;
      screenToWorld {| x := 0; y := canvasHeight transform |} transform;
      screenToWorld {| x := canvasWidth transform; y := canvasHeight transform |}
                    transform ] in
  fold_left
    (fun b point =>
       DxfBounds.mk (Rmin (DxfBounds.minX b) (x point))
                    (Rmin (DxfBounds.minY b) (y point))
                    (Rmax (DxfBounds.maxX b) (x point))
                    (Rmax (DxfBounds.maxY b) (y point)))
    corners
    (DxfBounds.mk (x c0) (y c0) (x c0) (y c0)).

(** The [while] loop of [normalizeGridStep].  Over the reals it need not
    end (take [maxLines <= 0 < span]): [fuel] bounds the iterations and
    [None] means that the bound was reached. *)
Fixpoint normalizeGridStep_loop (fuel : nat) (step span maxLines : R) : option R :=
  match fuel with
  | O => None
  | S fuel' =>
      if Rlt_dec maxLines (span / step)
      then normalizeGridStep_loop fuel' (step * 2) span maxLines
      else Some step
  end.

Definition normalizeGridStep (fuel : nat) (baseStep span maxLines : R) : option R :=
  let step := Rmax baseStep 1e-6 in
  normalizeGridStep_loop fuel step span maxLines.

(** The steps [stepX] and [stepY] that [drawGrid] computes. *)
Definition gridSteps (fuel : nat) (transform : RenderTransform) (baseGridSize : R)
    : option (R * R) :=
  let visible := computeVisibleWorldBounds transform in
  let spanX := Rmax (DxfBounds.maxX visible - DxfBounds.minX visible) 1e-6 in
  let spanY := Rmax (DxfBounds.maxY visible - DxfBounds.minY visible) 1e-6 in
  match normalizeGridStep fuel baseGridSize spanX 500,
        normalizeGridStep fuel baseGridSize spanY 500 with
  | Some stepX, Some stepY => Some (stepX, stepY)
  | _, _ => None
  end.

Definition strokeSegment (p1 p2 : DxfPoint) : list CanvasOp :=
  [BeginPath; MoveTo (x p1) (y p1); LineTo (x p2) (y p2); Stroke].

(** [for (let ix = startIndex; ix <= endIndex && ix - startIndex < 5000; ix += 1)].
    The counter is an integer held in binary64, so [ix - startIndex] and
    [ix += 1] are rounded: beyond [2^53] the increment can leave [ix] as
    it is, and the loop then does not end.  [None] means that the loop
    has not ended within [fuel] iterations. *)
Fixpoint gridLoop (fuel : nat) (startIndex endIndex ix : Z)
    (body : Z -> list CanvasOp) : option (list CanvasOp) :=
  match fuel with
  | O => None
  | S fuel' =>
      if ((ix <=? endIndex) && (nearestBinary64 (ix - startIndex) <? 5000))%Z
      then match gridLoop fuel' startIndex endIndex
                          (nearestBinary64 (ix + 1)) body with
           | Some rest => Some (body ix ++ rest)
           | None => None
           end
      else Some []
  end.

(** [None] when one of the four loops has not ended within [fuel]
    iterations. *)
Definition drawGrid (fuel : nat) (transform : RenderTransform) (baseGridSize : R)
    : option (list CanvasOp) :=
  let visible := computeVisibleWorldBounds transform in
  match gridSteps fuel transform baseGridSize with
  | None => None
  | Some (stepX, stepY) =>
      let startXIndex := nearestBinary64 (Zfloor (DxfBounds.minX visible / stepX)) in
      let endXIndex := nearestBinary64 (Zceil (DxfBounds.maxX visible / stepX)) in
      let xLines :=
        gridLoop fuel startXIndex endXIndex startXIndex
          (fun ix =>
             let gx := IZR ix * stepX in
             strokeSegment
               (toScreen {| x := gx; y := DxfBounds.minY visible |} transform)
               (toScreen {| x := gx; y := DxfBounds.maxY visible |} transform)) in
      let startYIndex := nearestBinary64 (Zfloor (DxfBounds.minY visible / stepY)) in
      let endYIndex := nearestBinary64 (Zceil (DxfBounds.maxY visible / stepY)) in
      let yLines :=
        gridLoop fuel startYIndex endYIndex startYIndex
          (fun iy =>
             let gy := IZR iy * stepY in
             strokeSegment
               (toScreen {| x := DxfBounds.minX visible; y := gy |} transform)
               (toScreen {| x := DxfBounds.maxX visible; y := gy |} transform)) in
      let axisX :=
        if Rle_dec (DxfBounds.minX visible) 0
        then if Rle_dec 0 (DxfBounds.maxX visible)
             then strokeSegment
                    (toScreen {| x := 0; y := DxfBounds.minY visible |} transform)
                    (toScreen {| x := 0; y := DxfBounds.maxY visible |} transform)
             else []
        else [] in
      let axisY :=
        if Rle_dec (DxfBounds.minY visible) 0
        then if Rle_dec 0 (DxfBounds.maxY visible)
             then strokeSegment
                    (toScreen {| x := DxfBounds.minX visible; y := 0 |} transform)
                    (toScreen {| x := DxfBounds.maxX visible; y := 0 |} transform)
             else []
        else [] in
      match xLines, yLines with
      | Some xLines, Some yLines =>
          Some ([Save] ++ xLines ++ yLines ++ axisX ++ axisY ++ [Restore])
      | _, _ => None
      end
  end.

End Renderer.

(** ** renderer.ts over binary64 *)

(** The arithmetic of [createTransform], [toScreen], [screenToWorld],
    [normalizeDegrees], [computeCounterClockwiseSweep] and of the
    segment count of [drawArc], operation by operation, over the
    primitive binary64 numbers: each [+], [-], [*] and [/] rounds to
    nearest, ties to even, as a JavaScript engine does. *)
Module Binary64.
Import Stdlib.Floats.Floats.
Local Open Scope float_scope.

(** An integer below [2^53] as a binary64 number. *)
Definition ofZ (n : Z) : float := PrimFloat.of_uint63 (Uint63.of_Z n).

(** [Math.max] and [Math.min] of two numbers: [NaN] if one of them is,
    and [-0] is less than [+0]. *)
Definition Math_max (a b : float) : float :=
  if PrimFloat.is_nan a || PrimFloat.is_nan b then PrimFloat.nan
  else if a <? b then b
  else if b <? a then a
  else if PrimFloat.get_sign a then b else a.

Definition Math_min (a b : float) : float :=
  if PrimFloat.is_nan a || PrimFloat.is_nan b then PrimFloat.nan
  else if a <? b then a
  else if b <? a then b
  else if PrimFloat.get_sign a then a else b.

(** [Math.ceil]: exact.  A finite number is [m * 2^e]; with [e >= 0] it
    is an integer already. *)
Definition Math_ceil (v : float) : float :=
  match Prim2SF v with
  | S754_finite s m e =>
      if (0 <=? e)%Z then v
      else
        let q := (Z.pos m / 2 ^ (- e))%Z in
        let r := (Z.pos m mod 2 ^ (- e))%Z in
        if s then (if (q =? 0)%Z then PrimFloat.neg_zero else - ofZ q)
        else ofZ (if (r =? 0)%Z then q else q + 1)
  | _ => v
  end.

(** The operator [%]: exact, with the sign of the dividend.  Both
    operands are brought to the smaller exponent and the remainder is
    taken on the integers. *)
Definition js_rem (a b : float) : float :=
  match Prim2SF a, Prim2SF b with
  | S754_nan, _ | _, S754_nan => PrimFloat.nan
  | S754_infinity _, _ => PrimFloat.nan
  | _, S754_zero _ => PrimFloat.nan
  | S754_zero _, _ => a
  | _, S754_infinity _ => a
  | S754_finite sa ma ea, S754_finite _ mb eb =>
      let e := Z.min ea eb in
      let A := (Z.pos ma * 2 ^ (ea - e))%Z in
      let B := (Z.pos mb * 2 ^ (eb - e))%Z in
      match (A mod B)%Z with
      | Z.pos r => SF2Prim (S754_finite sa r e)
      | _ => if sa then PrimFloat.neg_zero else PrimFloat.zero
      end
  end.

(** [Math.PI]. *)
Definition Math_PI : float := 0x1.921fb54442d18p+1.

Definition Number_isFinite (v : float) : bool := PrimFloat.is_finite v.

Record DxfPoint := mkPoint { x : float; y : float }.

Record DxfBounds := mkBounds { bMinX : float; bMinY : float; bMaxX : float; bMaxY : float }.

Record DxfViewport := mkViewport { vZoom : float; vPanX : float; vPanY : float }.

Record RenderTransform := mkTransform {
  baseScale : float;
  offsetX : float;
  offsetY : float;
  minX : float;
  minY : float;
  canvasWidth : float;
  canvasHeight : float;
  centerX : float;
  centerY : float;
  zoom : float;
  panX : float;
  panY : float
}.

Definition clamp (value min max : float) : float := Math_min max (Math_max min value).

Definition createTransform (bounds : DxfBounds) (width height padding : float)
    (viewport : DxfViewport) : RenderTransform :=
  let safePadding := Math_min (Math_max padding 0) (Math_min width height / 2) in
  let worldWidth := Math_max (bMaxX bounds - bMinX bounds) 1e-6 in
  let worldHeight := Math_max (bMaxY bounds - bMinY bounds) 1e-6 in
  let scaleX := (width - safePadding * 2) / worldWidth in
  let scaleY := (height - safePadding * 2) / worldHeight in
  let baseScale := Math_max 1e-6 (Math_min scaleX scaleY) in
  let drawnWidth := worldWidth * baseScale in
  let drawnHeight := worldHeight * baseScale in
  let zoom := clamp (vZoom viewport) 0.02 200 in
  let panX := if Number_isFinite (vPanX viewport) then vPanX viewport else 0 in
  let panY := if Number_isFinite (vPanY viewport) then vPanY viewport else 0 in
  {| baseScale := baseScale;
     offsetX := (width - drawnWidth) / 2;
     offsetY := (height - drawnHeight) / 2;
     minX := bMinX bounds;
     minY := bMinY bounds;
     canvasWidth := width;
     canvasHeight := height;
     centerX := width / 2;
     centerY := height / 2;
     zoom := zoom;
     panX := panX;
     panY := panY |}.

Definition worldToBase (point : DxfPoint) (transform : RenderTransform) : DxfPoint :=
  {| x := (x point - minX transform) * baseScale transform + offsetX transform;
     y := canvasHeight transform
          - ((y point - minY transform) * baseScale transform + offsetY transform) |}.

Definition applyViewport (basePoint : DxfPoint) (transform : RenderTransform) : DxfPoint :=
  {| x := centerX transform + (x basePoint - centerX transform) * zoom transform
          + panX transform;
     y := centerY transform + (y basePoint - centerY transform) * zoom transform
          + panY transform |}.

Definition toScreen (point : DxfPoint) (transform : RenderTransform) : DxfPoint :=
  let base := worldToBase point transform in
  applyViewport base transform.

Definition screenToWorld (screenPoint : DxfPoint) (transform : RenderTransform) : DxfPoint :=
  let baseX := ((x screenPoint - panX transform - centerX transform) / zoom transform)
               + centerX transform in
  let baseY := ((y screenPoint - panY transform - centerY transform) / zoom transform)
               + centerY transform in
  {| x := (baseX - offsetX transform) / baseScale transform + minX transform;
     y := ((canvasHeight transform - baseY) - offsetY transform) / baseScale transform
          + minY transform |}.

Definition normalizeDegrees (value : float) : float :=
  let normalized := js_rem value 360 in
  if normalized <? 0 then normalized + 360 else normalized.

Definition degToRad (value : float) : float := (value * Math_PI) / 180.

Definition computeCounterClockwiseSweep (startDeg endDeg : float) : float :=
  let start := normalizeDegrees startDeg in
  let end_ := normalizeDegrees endDeg in
  let delta := js_rem (end_ - start + 360) 360 in
  degToRad (if delta =? 0 then 360 else delta).

(** [Math.max(12, Math.ceil(sweepRad / (Math.PI / 18)))]. *)
Definition arcSegments (sweepRad : float) : float :=
  Math_max 12 (Math_ceil (sweepRad / (Math_PI / 18))).

End Binary64.

(** * The vocabulary of the statements *)

Module Spec.
Import Types Js Parser Renderer.

(** The mathematical [a mod b], with a floored quotient: the meaning of
    [mod] in "sweep = (end - start + 360) mod 360". *)
Definition Rmod (a b : R) : R := a - b * IZR (Zfloor (a / b)).

(** The sweep in degrees as the specification words it. *)
Definition specSweepDegrees (startDeg endDeg : R) : R :=
  let d := Rmod (Rmod endDeg 360 - Rmod startDeg 360 + 360) 360 in
  if Req_dec_T d 0 then 360 else d.

(** The point of the arc's circle at angle [a], in radians. *)
Definition arcPointAt (entity : DxfArcEntity) (a : R) : DxfPoint :=
  {| x := x (center entity) + radius entity * cos a;
     y := y (center entity) + radius entity * sin a |}.




(** Decides the comparisons of [Rmin] and [Rmax], innermost first. *)
Ltac eval_min_max :=
  unfold Rmin, Rmax;
  repeat match goal with
         | |- context [Rle_dec ?a ?b] =>
             lazymatch a with
             | context [Rle_dec _ _] => fail
             | _ => lazymatch b with
                    | context [Rle_dec _ _] => fail
                    | _ => destruct (Rle_dec a b); try lra
                    end
             end
         end.


Definition screenDistanceSquared (t : RenderTransform) (screenX screenY : R)
    (v : DxfPoint) : R :=
  let projected := toScreen v t in
  (x projected - screenX) * (x projected - screenX)
  + (y projected - screenY) * (y projected - screenY).

(** The Euclidean distance on the screen between the projection of the
    vertex [v] and the point [(screenX, screenY)]. *)
Definition screenDistance (t : RenderTransform) (screenX screenY : R)
    (v : DxfPoint) : R :=
  sqrt (screenDistanceSquared t screenX screenY v).


Definition entityVertices (entity : DxfEntity) : list DxfPoint :=
  match entity with
  | LINE e => [start e; end_ e]
  | POLYLINE e => points e
  | ARC e => [getArcPoint e (startAngleDeg e); getArcPoint e (endAngleDeg e)]
  | CIRCLE _ => []
  end.

Definition boundsStep (bounds : option DxfBounds.t) (entity : DxfEntity) :=
  match entity with
  | LINE e => includePoint (includePoint bounds (start e)) (end_ e)
  | POLYLINE e => fold_left includePoint (points e) bounds
  | CIRCLE e => includeCircle bounds (circleCenter e) (circleRadius e)
  | ARC e => includeCircle bounds (center e) (radius e)
  end.

(** One line from (0,0) to (100,100) on a 100 by 100 canvas, no padding,
    the default viewport. *)
Definition diagonalDocument : DxfDocument :=
  mkDocument [LINE (mkLine (mkPoint 0 0) (mkPoint 100 100))] [].

Definition squareCanvas : HTMLCanvasElement := mkCanvas 100 100.

Definition plainOptions : DxfRenderOptions :=
  mkOptions "#4c9aff" "#10131a" 0 true 1 None None.

Definition unitTransform : RenderTransform :=
  mkTransform 1 0 0 0 0 100 100 50 50 1 0 0.

(** The constraints of the data model on the fields of an entity. *)
Definition validEntity (e : DxfEntity) : Prop :=
  match e with
  | LINE _ => True
  | CIRCLE c => 0 < circleRadius c
  | ARC a => 0 < radius a
  | POLYLINE p => (2 <= List.length (points p))%nat
  end.

(** The vertices that [parseLwPolyline] accumulates from a body. *)
Definition lwPolylineVertices (body : list DxfGroup) : list DxfPoint :=
  fst (fold_left lwPolylineStep body ([], None)).

(** The vertices that [parsePolylineEntity] collects from the VERTEX
    records that follow the header of the polyline at [startIndex]. *)
Definition nestedPolylineVertices (groups : list DxfGroup) (startIndex : nat)
    : list DxfPoint :=
  let i :=
    fst (polylineHeader (List.length groups - (startIndex + 1)) groups
           (startIndex + 1) 0%Z) in
  snd (polylineVertices (List.length groups - i) groups i []).

(** The helper that the walk calls on an entity-start record. *)
Definition extract (groups : list DxfGroup) (i : nat) (group : DxfGroup)
    : EntityParseResult :=
  if String.eqb (value group) "POLYLINE"
  then parsePolylineEntity groups i
  else parseSimpleEntity groups i.

(** The lines of a file, joined by line feeds. *)
Definition dxfText (lines : list string) : string :=
  String.concat (String LF EmptyString) lines.

Definition sampleDrawing : string :=
  dxfText [ "0"; "SECTION"; "2"; "ENTITIES";
            "0"; "LINE"; "10"; "0"; "20"; "0"; "11"; "10"; "21"; "5";
            "0"; "CIRCLE"; "10"; "1"; "20"; "1"; "40"; "-2";
            "0"; "LINE"; "10"; "1"; "20"; "2"; "11"; "3"; "21"; "4";
            "0"; "ENDSEC"; "0"; "EOF" ]%string.

(** The same drawing with a NUL character at its end. *)
Definition binaryDrawing : string :=
  (sampleDrawing ++ String NUL EmptyString)%string.

Definition sampleEntities : list DxfEntity :=
  [ LINE (mkLine (mkPoint 0 0) (mkPoint 10 5));
    LINE (mkLine (mkPoint 1 2) (mkPoint 3 4)) ].

(** A closed nested polyline with one unreadable vertex, a compact
    polyline with a dangling X and a dangling Y, a compact polyline with
    one vertex only, and an arc. *)
Definition polylineDrawing : string :=
  dxfText [ "0"; "SECTION"; "2"; "ENTITIES";
            "0"; "POLYLINE"; "70"; "1";
            "0"; "VERTEX"; "10"; "0"; "20"; "0";
            "0"; "VERTEX"; "10"; "1"; "20"; "0";
            "0"; "VERTEX"; "10"; "x"; "20"; "0";
            "0"; "VERTEX"; "10"; "1"; "20"; "1";
            "0"; "SEQEND";
            "0"; "LWPOLYLINE"; "70"; "0"; "10"; "0"; "20"; "0";
                 "10"; "5"; "10"; "6"; "20"; "7"; "20"; "8";
            "0"; "LWPOLYLINE"; "10"; "0"; "20"; "0";
            "0"; "ARC"; "10"; "0"; "20"; "0"; "40"; "2.5"; "50"; "350"; "51"; "10";
            "0"; "ENDSEC"; "0"; "EOF" ]%string.

Definition polylineEntities : list DxfEntity :=
  [ POLYLINE (mkPolyline [mkPoint 0 0; mkPoint 1 0; mkPoint 1 1] true);
    POLYLINE (mkPolyline [mkPoint 0 0; mkPoint 6 7] false);
    ARC (mkArc (mkPoint 0 0) 2.5 350 10) ].

(** Runs [parseDxf] on a closed input: the records are computed, then
    the walk, up to the comparisons of real numbers. *)
Ltac run_parseDxf raw :=
  unfold parseDxf;
  let groups := eval vm_compute in (parseGroups raw) in
  change (parseGroups raw) with groups;
  let nul := eval vm_compute in (includes raw NUL) in
  change (includes raw NUL) with nul;
  cbv -[IZR Rplus Rmult Rminus Rdiv Ropp Rinv Rle_dec Zfloor Zceil
        Math_trunc Z.land];
  repeat match goal with
         | |- context [Rle_dec ?a ?b] => destruct (Rle_dec a b); try lra
         end.

End Spec.

(** * The rest of the renderer: entities, measurement and colours *)

Module Drawing.
Import Types Js Renderer.

(** A call on the 2D context.  The path calls that [drawArc] and
    [drawGrid] make are [Path]; style assignments and [setLineDash] are
    not recorded. *)
Inductive ContextCall :=
| Path (op : CanvasOp)
| ClosePath
| Arc (sx sy arcRadius startAngle endAngle : R)
| Fill
| SetTransform (a b c d e f : R)
| ClearRect (rx ry rw rh : R)
| FillRect (rx ry rw rh : R).

Definition drawLine (entity : DxfLineEntity) (transform : RenderTransform)
    : list ContextCall :=
  let start := toScreen (start entity) transform in
  let end_ := toScreen (end_ entity) transform in
  [Path BeginPath; Path (MoveTo (x start) (y start));
   Path (LineTo (x end_) (y end_)); Path Stroke].

(** The loop runs [i] from 1 to [points.length - 1]; an index that holds
    no point is passed over. *)
Definition drawPolyline (entity : DxfPolylineEntity) (transform : RenderTransform)
    : list ContextCall :=
  if (List.length (points entity) <? 2)%nat then []
  else
    match nth_error (points entity) 0 with
    | None => []
    | Some firstPoint =>
        let first := toScreen firstPoint transform in
        [Path BeginPath; Path (MoveTo (x first) (y first))]
        ++ flat_map
             (fun i =>
                match nth_error (points entity) i with
                | None => []
                | Some vertex =>
                    let point := toScreen vertex transform in
                    [Path (LineTo (x point) (y point))]
                end)
             (seq 1 (List.length (points entity) - 1))
        ++ (if closed entity then [ClosePath] else [])
        ++ [Path Stroke]
    end.

Definition drawCircle (entity : DxfCircleEntity) (transform : RenderTransform)
    : list ContextCall :=
  let center := toScreen (circleCenter entity) transform in
  let radius := circleRadius entity * baseScale transform * zoom transform in
  [Path BeginPath; Arc (x center) (y center) radius 0 (PI * 2); Path Stroke].

Definition drawMeasurementHandle (point : DxfPoint) : list ContextCall :=
  [Path BeginPath; Arc (x point) (y point) 4 0 (PI * 2); Fill].

Definition drawMeasurementHoverHandle (point : DxfPoint) : list ContextCall :=
  [Path Save; Path BeginPath; Arc (x point) (y point) 7 0 (PI * 2);
   Fill; Path Stroke; Path Restore].

Definition drawMeasurement (transform : RenderTransform)
    (measurement : DxfMeasurement) : list ContextCall :=
  let start := option_map (fun p => toScreen p transform) (measureStart measurement) in
  let end_ := option_map (fun p => toScreen p transform) (measureEnd measurement) in
  let hover := option_map (fun p => toScreen p transform) (hover measurement) in
  [Path Save]
  ++ match start, end_ with
     | Some s, Some e =>
         [Path BeginPath; Path (MoveTo (x s) (y s));
          Path (LineTo (x e) (y e)); Path Stroke]
     | _, _ => []
     end
  ++ match start with Some s => drawMeasurementHandle s | None => [] end
  ++ match end_ with Some e => drawMeasurementHandle e | None => [] end
  ++ match hover with Some h => drawMeasurementHoverHandle h | None => [] end
  ++ [Path Restore].

(** The [switch] of the loop of [renderDxf]. *)
Definition drawEntity (transform : RenderTransform) (entity : DxfEntity)
    : list ContextCall :=
  match entity with
  | LINE e => drawLine e transform
  | POLYLINE e => drawPolyline e transform
  | CIRCLE e => drawCircle e transform
  | ARC e => map Path (drawArc e transform)
  end.

(** [renderDxf]: the calls made on the context, [None] when the loop of
    [normalizeGridStep] has not ended within [fuel] iterations.
    [devicePixelRatio] is [window.devicePixelRatio]; [hasContext] tells
    whether [getContext("2d")] gives a context. *)
Definition renderDxf (fuel : nat) (devicePixelRatio : R) (hasContext : bool)
    (canvas : HTMLCanvasElement) (document : DxfDocument)
    (options : DxfRenderOptions) : option (list ContextCall) :=
  let width := Rmax 10 (Math_round (clientWidth canvas)) in
  let height := Rmax 10 (Math_round (clientHeight canvas)) in
  let ratio := if Req_dec_T devicePixelRatio 0 then 1 else devicePixelRatio in
  if negb hasContext then Some []
  else
    let background :=
      [SetTransform ratio 0 0 ratio 0 0; ClearRect 0 0 width height;
       FillRect 0 0 width height] in
    match createTransformForCanvas document width height options with
    | None => Some background
    | Some transform =>
        let grid :=
          if showGridlines options
          then if Rlt_dec 0 (gridSizeMm options)
               then option_map (map Path)
                      (drawGrid fuel transform (gridSizeMm options))
               else Some []
          else Some [] in
        match grid with
        | None => None
        | Some gridCalls =>
            Some (background
                  ++ gridCalls
                  ++ flat_map (drawEntity transform) (entities document)
                  ++ match measurement options with
                     | Some m =>
                         match measureStart m, measureEnd m with
                         | None, None => []
                         | _, _ => drawMeasurement transform m
                         end
                     | None => []
                     end)
        end
    end.

(** The character class [[0-9a-fA-F]]. *)
Definition isHexDigit (c : ascii) : bool :=
  let n := nat_of_ascii c in
  (((48 <=? n) && (n <=? 57)) || ((97 <=? n) && (n <=? 102))
   || ((65 <=? n) && (n <=? 70)))%nat.

(** [[0-9a-fA-F]{n}] up to the end of the string. *)
Fixpoint hexRun (n : nat) (s : string) : bool :=
  match n, s with
  | O, EmptyString => true
  | S n', String c s' => isHexDigit c && hexRun n' s'
  | _, _ => false
  end.

(** The first group of [/^#([0-9a-fA-F]{3})$/.exec(s)], [None] when the
    string does not match. *)
Definition execShortHex (s : string) : option string :=
  match s with
  | String "#"%char rest => if hexRun 3 rest then Some rest else None
  | _ => None
  end.

(** [/^#[0-9a-fA-F]{6}$/.test(s)]. *)
Definition testLongHex (s : string) : bool :=
  match s with
  | String "#"%char rest => hexRun 6 rest
  | _ => false
  end.

(** [s.split("")]: the code units, each as a string. *)
Fixpoint splitChars (s : string) : list string :=
  match s with
  | EmptyString => []
  | String c s' => String c EmptyString :: splitChars s'
  end.

(** A string is falsy when it is empty. *)
Definition isEmpty (s : string) : bool :=
  match s with
  | EmptyString => true
  | String _ _ => false
  end.

Definition normalizeHexColor (value : string) : option string :=
  let trimmed := trim value in
  match execShortHex trimmed with
  | Some shortHex =>
      if isEmpty shortHex then None
      else
        let parts := splitChars shortHex in
        match nth_error parts 0, nth_error parts 1, nth_error parts 2 with
        | Some red, Some green, Some blue =>
            if isEmpty red || isEmpty green || isEmpty blue then None
            else Some (String "#"%char
                         (red ++ red ++ green ++ green ++ blue ++ blue))%string
        | _, _, _ => None
        end
  | None => if testLongHex trimmed then Some trimmed else None
  end.

End Drawing.

(** * The settings tab *)

Module Settings.
Import Js.

Record DxfViewerSettings := mkSettings {
  lineColor : string;
  backgroundColor : string;
  padding : R;
  showGridlines : bool;
  gridSizeMm : R
}.

Definition DEFAULT_SETTINGS : DxfViewerSettings :=
  mkSettings "#4c9aff" "#10131a" 24 true 1.

(** [/^#(?:[0-9a-fA-F]{3}){1,2}$/.test(s)]. *)
Definition testHexColor (s : string) : bool :=
  match s with
  | String "#"%char rest => Drawing.hexRun 3 rest || Drawing.hexRun 6 rest
  | _ => false
  end.

Definition sanitizeColor (value fallback : string) : string :=
  let trimmed := trim value in
  if testHexColor trimmed then trimmed else fallback.

Definition clamp (value min max : R) : R := Rmin max (Rmax min value).

Definition parsePositiveNumber (value : string) (fallback : R) : R :=
  match Number_parseFloat value with
  | Finite parsed =>
      if Rle_dec parsed 0 then fallback else clamp parsed 0.0001 1000000
  | _ => fallback
  end.

(** The text or toggle that the user changes, with its new value. *)
Inductive Change :=
| LineColor (value : string)
| BackgroundColor (value : string)
| ViewportPadding (value : string)
| ShowGridlines (value : bool)
| GridSize (value : string).

(** The [onChange] callbacks of [display]. *)
Definition onChange (settings : DxfViewerSettings) (change : Change)
    : DxfViewerSettings :=
  match change with
  | LineColor value =>
      mkSettings (sanitizeColor value (lineColor DEFAULT_SETTINGS))
                 (backgroundColor settings) (padding settings)
                 (showGridlines settings) (gridSizeMm settings)
  | BackgroundColor value =>
      mkSettings (lineColor settings)
                 (sanitizeColor value (backgroundColor DEFAULT_SETTINGS))
                 (padding settings) (showGridlines settings) (gridSizeMm settings)
  | ViewportPadding value =>
      mkSettings (lineColor settings) (backgroundColor settings)
                 match Number_parseInt value with
                 | Some parsed => clamp (IZR parsed) 0 200
                 | None => padding DEFAULT_SETTINGS
                 end
                 (showGridlines settings) (gridSizeMm settings)
  | ShowGridlines value =>
      mkSettings (lineColor settings) (backgroundColor settings)
                 (padding settings) value (gridSizeMm settings)
  | GridSize value =>
      mkSettings (lineColor settings) (backgroundColor settings)
                 (padding settings) (showGridlines settings)
                 (parsePositiveNumber value (gridSizeMm DEFAULT_SETTINGS))
  end.

End Settings.

(** * The view: pointer, wheel and measurement *)

Module DxfView.
Import Types Js.

(** The canvas element with the corner of its bounding client
    rectangle. *)
Record CanvasElement := mkCanvasElement {
  element : Renderer.HTMLCanvasElement;
  rectLeft : R;
  rectTop : R
}.

(** The fields of [DxfFileView] that the handlers below read or write.
    The toolbar elements and the fields that only feed the info text
    ([useInches], [parseError]) are left out. *)
Record View := mkView {
  settings : Settings.DxfViewerSettings;
  canvasEl : option CanvasElement;
  rawData : string;
  parsedDocument : option DxfDocument;
  viewport : DxfViewport.t;
  measureModeEnabled : bool;
  measureStart : option DxfPoint;
  measureEnd : option DxfPoint;
  hoverVertex : option DxfPoint;
  isPanning : bool;
  pointerDragged : bool;
  activePointerId : option Z;
  pointerDownButton : option Z;
  pointerDownX : R;
  pointerDownY : R;
  lastPointerX : R;
  lastPointerY : R
}.

Definition createDefaultViewport : DxfViewport.t := DxfViewport.mk 1 0 0.

Definition clamp (value min max : R) : R := Rmin max (Rmax min value).

Definition samePoint (a b : option DxfPoint) : bool :=
  match a, b with
  | None, None => true
  | Some a, Some b =>
      if Rlt_dec (Rabs (x a - x b)) 1e-9
      then if Rlt_dec (Rabs (y a - y b)) 1e-9 then true else false
      else false
  | _, _ => false
  end.

(** The view as its constructor leaves it. *)
Definition newView (settings : Settings.DxfViewerSettings) : View :=
  mkView settings None EmptyString None createDefaultViewport
         false None None None false false None None 0 0 0 0.

(** Assignments to groups of fields. *)
Definition withSettings (v : View) (s : Settings.DxfViewerSettings) : View :=
  mkView s (canvasEl v) (rawData v) (parsedDocument v) (viewport v)
         (measureModeEnabled v) (measureStart v) (measureEnd v) (hoverVertex v)
         (isPanning v) (pointerDragged v) (activePointerId v)
         (pointerDownButton v) (pointerDownX v) (pointerDownY v)
         (lastPointerX v) (lastPointerY v).

Definition withCanvas (v : View) (c : option CanvasElement) : View :=
  mkView (settings v) c (rawData v) (parsedDocument v) (viewport v)
         (measureModeEnabled v) (measureStart v) (measureEnd v) (hoverVertex v)
         (isPanning v) (pointerDragged v) (activePointerId v)
         (pointerDownButton v) (pointerDownX v) (pointerDownY v)
         (lastPointerX v) (lastPointerY v).

Definition withData (v : View) (raw : string) (doc : option DxfDocument) : View :=
  mkView (settings v) (canvasEl v) raw doc (viewport v)
         (measureModeEnabled v) (measureStart v) (measureEnd v) (hoverVertex v)
         (isPanning v) (pointerDragged v) (activePointerId v)
         (pointerDownButton v) (pointerDownX v) (pointerDownY v)
         (lastPointerX v) (lastPointerY v).

Definition withViewport (v : View) (vp : DxfViewport.t) : View :=
  mkView (settings v) (canvasEl v) (rawData v) (parsedDocument v) vp
         (measureModeEnabled v) (measureStart v) (measureEnd v) (hoverVertex v)
         (isPanning v) (pointerDragged v) (activePointerId v)
         (pointerDownButton v) (pointerDownX v) (pointerDownY v)
         (lastPointerX v) (lastPointerY v).

Definition withMeasureMode (v : View) (enabled : bool) : View :=
  mkView (settings v) (canvasEl v) (rawData v) (parsedDocument v) (viewport v)
         enabled (measureStart v) (measureEnd v) (hoverVertex v)
         (isPanning v) (pointerDragged v) (activePointerId v)
         (pointerDownButton v) (pointerDownX v) (pointerDownY v)
         (lastPointerX v) (lastPointerY v).

Definition withMeasurement (v : View) (start end_ hover : option DxfPoint) : View :=
  mkView (settings v) (canvasEl v) (rawData v) (parsedDocument v) (viewport v)
         (measureModeEnabled v) start end_ hover
         (isPanning v) (pointerDragged v) (activePointerId v)
         (pointerDownButton v) (pointerDownX v) (pointerDownY v)
         (lastPointerX v) (lastPointerY v).

Definition withPointer (v : View) (panning dragged : bool)
    (pointerId button : option Z) (downX downY lastX lastY : R) : View :=
  mkView (settings v) (canvasEl v) (rawData v) (parsedDocument v) (viewport v)
         (measureModeEnabled v) (measureStart v) (measureEnd v) (hoverVertex v)
         panning dragged pointerId button downX downY lastX lastY.

Definition stopPanning (v : View) : View :=
  withPointer v false false None None
              (pointerDownX v) (pointerDownY v) (lastPointerX v) (lastPointerY v).

Definition resetViewport (v : View) : View := withViewport v createDefaultViewport.

Definition resetMeasurement (v : View) : View := withMeasurement v None None None.

Definition reparseData (v : View) : View :=
  match trim (rawData v) with
  | EmptyString => withData v (rawData v) None
  | _ => withData v (rawData v) (Some (Parser.parseDxf (rawData v)))
  end.

Definition setViewData (v : View) (data : string) : View :=
  let v := if String.eqb data (rawData v) then v
           else resetMeasurement (resetViewport v) in
  reparseData (withData v data (parsedDocument v)).

Definition clear (v : View) : View :=
  resetMeasurement (resetViewport (withData v EmptyString None)).

Definition onOpen (v : View) (canvas : CanvasElement) : View :=
  reparseData (withCanvas v (Some canvas)).

Definition onClose (v : View) : View := stopPanning (withCanvas v None).

Definition toggleMeasureMode (v : View) : View :=
  let v := withMeasureMode v (negb (measureModeEnabled v)) in
  if measureModeEnabled v then v else resetMeasurement v.

Definition clientToCanvasPoint (v : View) (clientX clientY : R) : R * R :=
  match canvasEl v with
  | None => (0, 0)
  | Some canvas => (clientX - rectLeft canvas, clientY - rectTop canvas)
  end.

Definition createRenderOptions (v : View) : Renderer.DxfRenderOptions :=
  Renderer.mkOptions
    (Settings.lineColor (settings v))
    (Settings.backgroundColor (settings v))
    (Settings.padding (settings v))
    (Settings.showGridlines (settings v))
    (Settings.gridSizeMm (settings v))
    (Some (viewport v))
    (Some (Renderer.mkMeasurement
             (measureStart v) (measureEnd v)
             (if measureModeEnabled v then hoverVertex v else None))).

Definition findNearestVertexAtClient (v : View) (clientX clientY : R)
    : option DxfPoint :=
  match canvasEl v, parsedDocument v with
  | Some canvas, Some document =>
      let '(canvasX, canvasY) := clientToCanvasPoint v clientX clientY in
      Renderer.findNearestVertex (element canvas) document
        (createRenderOptions v) canvasX canvasY 14
  | _, _ => None
  end.

Definition handleMeasurementClick (v : View) (clientX clientY : R) : View :=
  match measureModeEnabled v, canvasEl v, parsedDocument v with
  | true, Some _, Some _ =>
      match findNearestVertexAtClient v clientX clientY with
      | None => v
      | Some nearest =>
          match measureStart v, measureEnd v with
          | Some _, None =>
              withMeasurement v (measureStart v) (Some nearest) (Some nearest)
          | _, _ => withMeasurement v (Some nearest) None (Some nearest)
          end
      end
  | _, _, _ => v
  end.

Definition updateHoverVertex (v : View) (clientX clientY : R) : View :=
  match measureModeEnabled v, parsedDocument v with
  | true, Some _ =>
      let nextHover := findNearestVertexAtClient v clientX clientY in
      if samePoint nextHover (hoverVertex v) then v
      else withMeasurement v (measureStart v) (measureEnd v) nextHover
  | _, _ => v
  end.

Definition zoomAt (v : View) (clientX clientY factor : R) : View :=
  match canvasEl v with
  | None => v
  | Some canvas =>
      let currentZoom := DxfViewport.zoom (viewport v) in
      let nextZoom := clamp (currentZoom * factor) 0.02 200 in
      if Rlt_dec (Rabs (nextZoom - currentZoom)) 1e-6 then v
      else
        let cursorX := clientX - rectLeft canvas in
        let cursorY := clientY - rectTop canvas in
        let centerX := Renderer.clientWidth (element canvas) / 2 in
        let centerY := Renderer.clientHeight (element canvas) / 2 in
        let oldPanX := DxfViewport.panX (viewport v) in
        let oldPanY := DxfViewport.panY (viewport v) in
        withViewport v
          (DxfViewport.mk
             nextZoom
             (cursorX - centerX
              - ((cursorX - centerX - oldPanX) / currentZoom) * nextZoom)
             (cursorY - centerY
              - ((cursorY - centerY - oldPanY) / currentZoom) * nextZoom))
  end.

Definition deltaModeToPixels (v : View) (deltaMode : Z) : R :=
  match canvasEl v with
  | None => 1
  | Some canvas =>
      if (deltaMode =? 1)%Z then 16
      else if (deltaMode =? 2)%Z then Renderer.clientHeight (element canvas)
      else 1
  end.

(** [this.activePointerId !== event.pointerId]. *)
Definition otherPointer (active : option Z) (pointerId : Z) : bool :=
  match active with
  | Some id => negb (id =? pointerId)%Z
  | None => true
  end.

Definition onPointerDown (v : View) (button pointerId : Z) (clientX clientY : R)
    : View :=
  match canvasEl v with
  | None => v
  | Some _ =>
      if negb (button =? 0)%Z && negb (button =? 1)%Z then v
      else withPointer v true false (Some pointerId) (Some button)
                       clientX clientY clientX clientY
  end.

Definition onPointerMove (v : View) (pointerId : Z) (clientX clientY : R) : View :=
  let v := updateHoverVertex v clientX clientY in
  if negb (isPanning v) || otherPointer (activePointerId v) pointerId then v
  else
    let movedX := clientX - pointerDownX v in
    let movedY := clientY - pointerDownY v in
    if negb (pointerDragged v)
       && (if Rlt_dec (sqrt (movedX * movedX + movedY * movedY)) 3
           then true else false)
    then v
    else
      let deltaX := clientX - lastPointerX v in
      let deltaY := clientY - lastPointerY v in
      let v := withPointer v (isPanning v) true (activePointerId v)
                           (pointerDownButton v) (pointerDownX v) (pointerDownY v)
                           clientX clientY in
      withViewport v
        (DxfViewport.mk (DxfViewport.zoom (viewport v))
                        (DxfViewport.panX (viewport v) + deltaX)
                        (DxfViewport.panY (viewport v) + deltaY)).

Definition onPointerUp (v : View) (pointerId : Z) (clientX clientY : R) : View :=
  if otherPointer (activePointerId v) pointerId then v
  else
    let v := if negb (pointerDragged v)
                && match pointerDownButton v with
                   | Some button => (button =? 0)%Z
                   | None => false
                   end
             then handleMeasurementClick v clientX clientY
             else v in
    stopPanning v.

Definition onPointerLeave (v : View) : View :=
  if negb (measureModeEnabled v) then v
  else
    match hoverVertex v with
    | Some _ => withMeasurement v (measureStart v) (measureEnd v) None
    | None => v
    end.

Definition onWheel (v : View) (ctrlKey metaKey : bool)
    (deltaX deltaY : R) (deltaMode : Z) (clientX clientY : R) : View :=
  match canvasEl v with
  | None => v
  | Some _ =>
      if ctrlKey || metaKey
      then let zoomFactor := exp (- deltaY * 0.002) in
           zoomAt v clientX clientY zoomFactor
      else
        let deltaScale := deltaModeToPixels v deltaMode in
        withViewport v
          (DxfViewport.mk (DxfViewport.zoom (viewport v))
                          (DxfViewport.panX (viewport v) - deltaX * deltaScale)
                          (DxfViewport.panY (viewport v) - deltaY * deltaScale))
  end.

Definition onDoubleClick (v : View) : View := resetViewport v.

(** What happens to a view: the calls of the host ([setViewData],
    [clear], [onOpen], [onClose]), a new layout of the canvas, a change
    made in the settings tab, and the DOM events it listens to. *)
Inductive Event :=
| SetViewData (data : string)
| Clear
| Open (canvas : CanvasElement)
| Close
| Layout (canvas : CanvasElement)
| SettingsChange (change : Settings.Change)
| ToggleMeasureMode
| PointerDown (button pointerId : Z) (clientX clientY : R)
| PointerMove (pointerId : Z) (clientX clientY : R)
| PointerUp (pointerId : Z) (clientX clientY : R)
| PointerLeave
| Wheel (ctrlKey metaKey : bool) (deltaX deltaY : R) (deltaMode : Z)
        (clientX clientY : R)
| DoubleClick.

Definition handle (v : View) (event : Event) : View :=
  match event with
  | SetViewData data => setViewData v data
  | Clear => clear v
  | Open canvas => onOpen v canvas
  | Close => onClose v
  | Layout canvas =>
      match canvasEl v with
      | Some _ => withCanvas v (Some canvas)
      | None => v
      end
  | SettingsChange change =>
      withSettings v (Settings.onChange (settings v) change)
  | ToggleMeasureMode => toggleMeasureMode v
  | PointerDown button pointerId clientX clientY =>
      onPointerDown v button pointerId clientX clientY
  | PointerMove pointerId clientX clientY => onPointerMove v pointerId clientX clientY
  | PointerUp pointerId clientX clientY => onPointerUp v pointerId clientX clientY
  | PointerLeave => onPointerLeave v
  | Wheel ctrlKey metaKey deltaX deltaY deltaMode clientX clientY =>
      onWheel v ctrlKey metaKey deltaX deltaY deltaMode clientX clientY
  | DoubleClick => onDoubleClick v
  end.

End DxfView.

(** * The vocabulary of the further properties *)

Module Props.
Import Types Js Parser Renderer Spec.

(** [p] lies in the box [b], borders included. *)
Definition inBounds (b : DxfBounds.t) (p : DxfPoint) : Prop :=
  DxfBounds.minX b <= x p <= DxfBounds.maxX b
  /\ DxfBounds.minY b <= y p <= DxfBounds.maxY b.

Definition orderedBounds (b : DxfBounds.t) : Prop :=
  DxfBounds.minX b <= DxfBounds.maxX b /\ DxfBounds.minY b <= DxfBounds.maxY b.

(** [p] is an end of the line, a point of the polyline, or a point of
    the circle that carries the circle or the arc. *)
Definition entityPoint (e : DxfEntity) (p : DxfPoint) : Prop :=
  match e with
  | LINE l => p = start l \/ p = end_ l
  | POLYLINE pl => In p (points pl)
  | CIRCLE c =>
      exists a : R,
        p = {| x := x (circleCenter c) + circleRadius c * cos a;
               y := y (circleCenter c) + circleRadius c * sin a |}
  | ARC arc => exists a : R, p = arcPointAt arc a
  end.

(** What a bounds accumulator has covered so far. *)
Definition covers (ob : option DxfBounds.t) (pts : DxfPoint -> Prop) : Prop :=
  match ob with
  | Some b => orderedBounds b /\ forall q, pts q -> inBounds b q
  | None => forall q, ~ pts q
  end.

(** The constant [safePadding] of [createTransform]. *)
Definition safePaddingOf (padding width height : R) : R :=
  Rmin (Rmax padding 0) (Rmin width height / 2).

(** The integers from [first] to [last]. *)
Definition indicesFromTo (first last : Z) : list Z :=
  map (fun k : nat => (first + Z.of_nat k)%Z) (seq 0 (Z.to_nat (last - first + 1))).

(** The [switch] of [parseSimpleEntity] on the type of the entity. *)
Definition simpleEntityOf (entityType : string) (body : list DxfGroup)
    : option DxfEntity :=
  if String.eqb entityType "LINE" then option_map LINE (parseLine body)
  else if String.eqb entityType "LWPOLYLINE"
  then option_map POLYLINE (parseLwPolyline body)
  else if String.eqb entityType "CIRCLE" then option_map CIRCLE (parseCircle body)
  else if String.eqb entityType "ARC" then option_map ARC (parseArc body)
  else None.

Definition appendEntity (es : list DxfEntity) (e : option DxfEntity)
    : list DxfEntity :=
  match e with
  | Some e => es ++ [e]
  | None => es
  end.

(** How many records have code 0. *)
Definition codeZeroCount (groups : list DxfGroup) : nat :=
  List.length (filter (fun g => (code g =? 0)%Z) groups).

(** The records of a compact polyline whose vertices are written as the
    texts [(tx, ty)]: a code-10 record then a code-20 record for each. *)
Definition pairRecords (texts : list (string * string)) : list DxfGroup :=
  flat_map (fun t => [mkGroup 10 (fst t); mkGroup 20 (snd t)]) texts.

(** The text [t] reads as the point [p]. *)
Definition readsAs (t : string * string) (p : DxfPoint) : Prop :=
  parseNumber (fst t) = Some (x p) /\ parseNumber (snd t) = Some (y p).

(** The string holds neither a carriage return nor a line feed. *)
Definition noLineBreak (s : string) : Prop :=
  includes s CR = false /\ includes s LF = false.

(** [s] does not start with a line feed. *)
Definition noLeadingLF (s : string) : Prop :=
  match s with
  | String c _ => Ascii.eqb c LF = false
  | EmptyString => True
  end.

(** The square of the distance from [p] to [q]. *)
Definition sqDistance (p q : DxfPoint) : R :=
  (x p - x q) * (x p - x q) + (y p - y q) * (y p - y q).

(** The point of the circle at angle [a], in radians. *)
Definition circlePointAt (entity : DxfCircleEntity) (a : R) : DxfPoint :=
  {| x := x (circleCenter entity) + circleRadius entity * cos a;
     y := y (circleCenter entity) + circleRadius entity * sin a |}.

(** The centre of the box. *)
Definition boundsCentre (b : DxfBounds.t) : DxfPoint :=
  {| x := (DxfBounds.minX b + DxfBounds.maxX b) / 2;
     y := (DxfBounds.minY b + DxfBounds.maxY b) / 2 |}.

(** The point where a path call puts the pen, if it is one that does. *)
Definition penPoint (op : CanvasOp) : option DxfPoint :=
  match op with
  | MoveTo sx sy | LineTo sx sy => Some {| x := sx; y := sy |}
  | _ => None
  end.

(** The transform that [renderDxf] and [findNearestVertex] make for the
    canvas, from the bounds of the drawing. *)
Definition canvasTransform (canvas : HTMLCanvasElement) (bounds : DxfBounds.t)
    (padding : R) (vp : DxfViewport.t) : RenderTransform :=
  createTransform bounds
    (Rmax 10 (Math_round (clientWidth canvas)))
    (Rmax 10 (Math_round (clientHeight canvas)))
    padding vp.

(** The view after the events, in order. *)
Definition run (v : DxfView.View) (events : list DxfView.Event) : DxfView.View :=
  fold_left DxfView.handle events v.

(** The document that [reparseData] stores for the text [raw]. *)
Definition reparsed (raw : string) : option DxfDocument :=
  match trim raw with
  | EmptyString => None
  | _ => Some (parseDxf raw)
  end.

(** The point, if there is one, is a vertex of the document of the
    view. *)
Definition shownVertex (v : DxfView.View) (p : option DxfPoint) : Prop :=
  match p with
  | None => True
  | Some p =>
      exists document,
        DxfView.parsedDocument v = Some document
        /\ In p (collectVertices (entities document))
  end.

Definition viewInvariant (v : DxfView.View) : Prop :=
  (DxfView.measureEnd v <> None -> DxfView.measureStart v <> None)
  /\ (DxfView.measureModeEnabled v = false ->
      DxfView.measureStart v = None /\ DxfView.measureEnd v = None
      /\ DxfView.hoverVertex v = None)
  /\ shownVertex v (DxfView.measureStart v)
  /\ shownVertex v (DxfView.measureEnd v)
  /\ shownVertex v (DxfView.hoverVertex v)
  /\ DxfView.parsedDocument v = reparsed (DxfView.rawData v)
  /\ 0.02 <= DxfViewport.zoom (DxfView.viewport v) <= 200.

(** Every character of the string passes the test. *)
Fixpoint allChars (test : ascii -> bool) (s : string) : bool :=
  match s with
  | EmptyString => true
  | String c s' => test c && allChars test s'
  end.

(** What the settings tab is meant to store: two hexadecimal colours, a
    padding from 0 to 200 and a grid size from 0.0001 to 1000000. *)
Definition wellFormedSettings (s : Settings.DxfViewerSettings) : Prop :=
  Settings.testHexColor (Settings.lineColor s) = true
  /\ Settings.testHexColor (Settings.backgroundColor s) = true
  /\ 0 <= Settings.padding s <= 200
  /\ 0.0001 <= Settings.gridSizeMm s <= 1000000.

(** The radius that the call hands to [context.arc], if it is one. *)
Definition arcRadiusOf (call : Drawing.ContextCall) : option R :=
  match call with
  | Drawing.Arc _ _ r _ _ => Some r
  | _ => None
  end.

(** The flags that the first loop of [parsePolylineEntity] holds after
    the header records: the truncated value of the last record of code
    70, [flags] when there is none. *)
Definition headerFlags (header : list DxfGroup) (flags : Z) : Z :=
  fold_left
    (fun flags g =>
       if (code g =? 70)%Z
       then Math_trunc (match parseNumber (value g) with
                        | Some f => f
                        | None => 0
                        end)
       else flags)
    header flags.

(** The records of the vertices whose bodies are [bodies]: a VERTEX
    marker before each body. *)
Definition vertexRecords (bodies : list (list DxfGroup)) : list DxfGroup :=
  flat_map (fun body => mkGroup 0 "VERTEX" :: body) bodies.

(** The points that can be read from the bodies, in order. *)
Definition vertexPoints (bodies : list (list DxfGroup)) : list DxfPoint :=
  flat_map (fun body => match readPoint body 10 20 with
                        | Some p => [p]
                        | None => []
                        end) bodies.

(** The records start with a SEQEND marker. *)
Definition startsWithSeqend (post : list DxfGroup) : bool :=
  match post with
  | g :: _ => String.eqb (value g) "SEQEND"
  | [] => false
  end.

(** What may follow the last vertex: nothing, or a record of code 0
    other than a VERTEX marker. *)
Definition endsVertices (post : list DxfGroup) : Prop :=
  match post with
  | [] => True
  | g :: _ => code g = 0%Z /\ value g <> "VERTEX"%string
  end.

(** The points where the calls put the pen, in order. *)
Definition penPoints (calls : list Drawing.ContextCall) : list DxfPoint :=
  flat_map (fun call =>
              match call with
              | Drawing.Path op =>
                  match penPoint op with
                  | Some p => [p]
                  | None => []
                  end
              | _ => []
              end) calls.

(** The indices [first] and [last] lie where a binary64 counter steps
    through the integers one by one: from [-2^53] up to, but not
    including, [2^53]. *)
Definition countedExactly (first last : Z) : Prop :=
  (- 2 ^ 53 <= first <= 2 ^ 53)%Z /\ (- 2 ^ 53 <= last < 2 ^ 53)%Z.

(** The grid indices of both axes, for the steps [stepX] and [stepY],
    lie where the counter is exact. *)
Definition gridCountedExactly (t : RenderTransform) (stepX stepY : R) : Prop :=
  let visible := computeVisibleWorldBounds t in
  countedExactly (Zfloor (DxfBounds.minX visible / stepX))
                 (Zceil (DxfBounds.maxX visible / stepX))
  /\ countedExactly (Zfloor (DxfBounds.minY visible / stepY))
                    (Zceil (DxfBounds.maxY visible / stepY)).

End Props.

(** * The view transform is invertible *)

Section ViewTransform.
Import Types Renderer Spec.

Lemma clamp_bounds (value lo hi : R) :
  lo <= hi -> lo <= clamp value lo hi <= hi.
Proof.
  intros Hle. unfold clamp, Rmin, Rmax.
  repeat destruct (Rle_dec _ _); lra.
Qed.

Lemma createTransform_zoom_pos bounds width height padding viewport :
  0 < zoom (createTransform bounds width height padding viewport).
Proof.
  cbn [createTransform zoom].
  pose proof (clamp_bounds (DxfViewport.zoom viewport) 0.02 200). lra.
Qed.

Lemma createTransform_baseScale_pos bounds width height padding viewport :
  0 < baseScale (createTransform bounds width height padding viewport).
Proof.
  cbn [createTransform baseScale].
  match goal with |- 0 < Rmax ?a ?b => pose proof (Rmax_l a b) end. lra.
Qed.

(** Whenever the zoom and the fit scale are not zero, [screenToWorld]
    undoes [toScreen] exactly. *)
Lemma screenToWorld_toScreen (p : DxfPoint) (t : RenderTransform) :
  zoom t <> 0 -> baseScale t <> 0 ->
  screenToWorld (toScreen p t) t = p.
Proof.
  intros Hz Hs. destruct p as [px py].
  unfold screenToWorld, toScreen, applyViewport, worldToBase. cbn [x y].
  f_equal; field; auto.
Qed.

(** C1, amended. For every bounds, canvas size, padding and viewport,
    and every document point [p], [screenToWorld] is the exact inverse
    of [toScreen]: the zoom and the fitted scale are never zero, and
    [screenToWorld (toScreen p)] is [p] itself in exact arithmetic. *)
Theorem inverse_of_forward_is_exact
    (bounds : DxfBounds.t) (width height padding : R)
    (viewport : DxfViewport.t) (p : DxfPoint) :
  let t := createTransform bounds width height padding viewport in
  zoom t <> 0 /\ baseScale t <> 0 /\ screenToWorld (toScreen p t) t = p.
Proof.
  intros t.
  pose proof (createTransform_zoom_pos bounds width height padding viewport) as Hz.
  pose proof (createTransform_baseScale_pos bounds width height padding viewport)
    as Hs.
  fold t in Hz, Hs.
  split; [lra|]. split; [lra|].
  apply screenToWorld_toScreen; lra.
Qed.

End ViewTransform.

(** * Arcs: the counter-clockwise sweep and the tessellation *)

Section Arcs.
Import Types Js Renderer Spec.

Lemma Rmod_360_unique (v : R) (z : Z) :
  0 <= v - 360 * IZR z < 360 -> Rmod v 360 = v - 360 * IZR z.
Proof.
  intros Hr. unfold Rmod.
  replace (Zfloor (v / 360)) with z; [reflexivity|].
  symmetry. apply Zfloor_eq. lra.
Qed.

Lemma Rmod_360_range (v : R) : 0 <= Rmod v 360 < 360.
Proof.
  unfold Rmod. pose proof (Zfloor_bound (v / 360)) as Hb. lra.
Qed.

Lemma js_rem_360_nonneg (a : R) : 0 <= a -> js_rem a 360 = Rmod a 360.
Proof.
  intros Ha. unfold js_rem, Rmod, Math_trunc.
  destruct (Rle_dec 0 (a / 360)) as [_|Hn]; [reflexivity|].
  exfalso. apply Hn. lra.
Qed.

Lemma js_rem_360_neg (a : R) : a < 0 -> -360 < js_rem a 360 <= 0.
Proof.
  intros Ha. unfold js_rem, Math_trunc.
  destruct (Rle_dec 0 (a / 360)) as [Hp|_]; [lra|].
  pose proof (Zceil_bound (a / 360)) as Hb. lra.
Qed.

Lemma normalizeDegrees_Rmod (v : R) : normalizeDegrees v = Rmod v 360.
Proof.
  unfold normalizeDegrees.
  destruct (Rle_lt_dec 0 v) as [Hv|Hv].
  - rewrite (js_rem_360_nonneg v Hv).
    pose proof (Rmod_360_range v).
    destruct (Rlt_dec (Rmod v 360) 0); [lra | reflexivity].
  - pose proof (js_rem_360_neg v Hv) as Hr.
    destruct (Rlt_dec (js_rem v 360) 0) as [Hlt|Hge].
    + unfold js_rem in *. set (k := Math_trunc (v / 360)) in *.
      symmetry. rewrite (Rmod_360_unique v (k - 1)); rewrite minus_IZR; lra.
    + apply Rnot_lt_le in Hge.
      unfold js_rem in *. set (k := Math_trunc (v / 360)) in *.
      symmetry. rewrite (Rmod_360_unique v k); lra.
Qed.

Lemma computeCounterClockwiseSweep_spec (startDeg endDeg : R) :
  computeCounterClockwiseSweep startDeg endDeg
  = degToRad (specSweepDegrees startDeg endDeg).
Proof.
  unfold computeCounterClockwiseSweep, specSweepDegrees.
  rewrite !normalizeDegrees_Rmod.
  pose proof (Rmod_360_range startDeg). pose proof (Rmod_360_range endDeg).
  rewrite js_rem_360_nonneg by lra. reflexivity.
Qed.









Lemma arcSegments_ge_12 (sweepRad : R) : (12 <= arcSegments sweepRad)%Z.
Proof. unfold arcSegments. lia. Qed.

Lemma arcWorldPoint_first entity startRad sweepRad segments :
  arcWorldPoint entity startRad sweepRad segments 0 = arcPointAt entity startRad.
Proof.
  unfold arcWorldPoint, arcPointAt.
  replace (startRad + sweepRad * 0 / IZR segments) with startRad; [reflexivity|].
  unfold Rdiv. ring.
Qed.

Lemma arcWorldPoint_last entity startRad sweepRad segments :
  (0 < segments)%Z ->
  arcWorldPoint entity startRad sweepRad segments segments
  = arcPointAt entity (startRad + sweepRad).
Proof.
  intros Hpos. unfold arcWorldPoint, arcPointAt.
  assert (Hne : IZR segments <> 0) by (apply not_0_IZR; lia).
  replace (startRad + sweepRad * IZR segments / IZR segments)
    with (startRad + sweepRad) by (field; exact Hne).
  reflexivity.
Qed.



End Arcs.

(** * Where binary64 departs from the claims *)

Section Binary64Departures.
Import Stdlib.Floats.Floats.
Import Js Renderer.
Local Open Scope float_scope.

(** C1 as stated fails in binary64.  A drawing that is 5e8 units wide
    and high, on a canvas of 800 by 600 with padding 24, zoomed out to
    0.02: the point (100, 0) comes back as (99.99999880013397, ...),
    more than [1e-6] away. *)
Lemma inverse_of_forward_tolerance_counterexample :
  let t := Binary64.createTransform
             (Binary64.mkBounds 0 0 5e8 5e8) 800 600 24
             (Binary64.mkViewport 0.02 0 0) in
  let p := Binary64.mkPoint 100 0 in
  let q := Binary64.screenToWorld (Binary64.toScreen p t) t in
  Binary64.x q = 99.99999880013397
  /\ (1e-6 <? PrimFloat.abs (Binary64.x q - Binary64.x p)) = true.
Proof.
  cbv zeta. split; vm_compute; reflexivity.
Qed.


(** What the amended claim keeps is met in binary64 too: from 350 to 10
    degrees the sweep is that of 20 degrees, and equal angles give the
    full circle. *)
Lemma sweep_binary64_examples :
  Binary64.computeCounterClockwiseSweep 350 10 = Binary64.degToRad 20
  /\ Binary64.computeCounterClockwiseSweep 37.5 37.5 = Binary64.degToRad 360
  /\ Binary64.computeCounterClockwiseSweep (-90) 270 = Binary64.degToRad 360.
Proof.
  repeat split; vm_compute; reflexivity.
Qed.


(** The quarter arc of the amended claim has 12 segments in binary64
    too. *)
Lemma arc_segments_binary64_quarter :
  Binary64.arcSegments (Binary64.computeCounterClockwiseSweep 0 90) = 12.
Proof. vm_compute. reflexivity. Qed.

(** The rounding of the loop counters ([nearestBinary64]) against the
    primitive numbers, where [drawGrid] stalls: at 9999999999999998
    adding 1 gives 10^16, and from there on adding 1 changes nothing. *)
Lemma counter_rounding_examples :
  (9999999999999998 + 1 = 10000000000000000
   /\ 10000000000000000 + 1 = 10000000000000000
   /\ 10000000000000000 - 9999999999999998 = 2
   /\ 9007199254740992 + 1 = 9007199254740992
   /\ 9007199254740994 + 1 = 9007199254740996)
  /\ (nearestBinary64 (9999999999999998 + 1) = 10000000000000000
      /\ nearestBinary64 (10000000000000000 + 1) = 10000000000000000
      /\ nearestBinary64 (10000000000000000 - 9999999999999998) = 2
      /\ nearestBinary64 (9007199254740992 + 1) = 9007199254740992
      /\ nearestBinary64 (9007199254740994 + 1) = 9007199254740996)%Z.
Proof.
  repeat split; vm_compute; reflexivity.
Qed.

End Binary64Departures.

(** * The grid planner *)

Section GridPlanner.
Import Types Renderer Spec.


(** If [n] doublings are enough, the loop stops after the least number
    [k <= n] of doublings that brings [span / step] down to [maxLines]. *)
Lemma normalizeGridStep_loop_least (n : nat) :
  forall step span maxLines : R,
    span / (step * 2 ^ n) <= maxLines ->
    exists k : nat,
      (k <= n)%nat
      /\ (forall fuel, (k < fuel)%nat ->
             normalizeGridStep_loop fuel step span maxLines = Some (step * 2 ^ k))
      /\ span / (step * 2 ^ k) <= maxLines
      /\ (forall j, (j < k)%nat -> maxLines < span / (step * 2 ^ j)).
Proof.
  induction n as [|n IH]; intros step span maxLines Hn.
  - exists 0%nat. rewrite pow_O, Rmult_1_r in *. repeat split; auto.
    + intros [|fuel] Hf; [lia|]. cbn.
      destruct (Rlt_dec maxLines (span / step)); [lra | reflexivity].
    + intros j Hj. lia.
  - destruct (Rlt_dec maxLines (span / step)) as [Hgt|Hle].
    + destruct (IH (step * 2) span maxLines) as (k & Hk & Hrun & Hstop & Hmin).
      { replace (step * 2 * 2 ^ n) with (step * 2 ^ S n) by (cbn; ring). exact Hn. }
      exists (S k). repeat split.
      * lia.
      * intros [|fuel] Hf; [lia|]. cbn [normalizeGridStep_loop].
        destruct (Rlt_dec maxLines (span / step)); [|contradiction].
        rewrite Hrun by lia. f_equal. cbn. ring.
      * replace (step * 2 ^ S k) with (step * 2 * 2 ^ k) by (cbn; ring). exact Hstop.
      * intros [|j] Hj.
        -- rewrite pow_O, Rmult_1_r. exact Hgt.
        -- replace (step * 2 ^ S j) with (step * 2 * 2 ^ j) by (cbn; ring).
           apply Hmin. lia.
    + apply Rnot_lt_le in Hle.
      exists 0%nat. rewrite pow_O, Rmult_1_r. repeat split; auto.
      * lia.
      * intros [|fuel] Hf; [lia|]. cbn.
        destruct (Rlt_dec maxLines (span / step)); [lra | reflexivity].
      * intros j Hj. lia.
Qed.

(** Doubling a positive step often enough brings [span / step] under
    any positive bound. *)
Lemma enough_doublings (step span maxLines : R) :
  0 < step -> 0 < maxLines ->
  exists n : nat, span / (step * 2 ^ n) <= maxLines.
Proof.
  intros Hstep Hmax.
  destruct (Pow_x_infinity 2 ltac:(rewrite Rabs_right; lra) (span / (step * maxLines)))
    as [N HN].
  exists N. specialize (HN N (Nat.le_refl N)).
  assert (Hpow : 0 < 2 ^ N) by (apply pow_lt; lra).
  rewrite Rabs_right in HN by lra.
  apply Rge_le in HN.
  apply Rmult_le_reg_r with (r := step * 2 ^ N); [nra|].
  replace (span / (step * 2 ^ N) * (step * 2 ^ N)) with span by (field; lra).
  apply Rmult_le_compat_r with (r := step * maxLines) in HN; [|nra].
  replace (span / (step * maxLines) * (step * maxLines)) with span in HN by (field; lra).
  lra.
Qed.








End GridPlanner.

(** * The nearest-vertex query *)

Section NearestVertex.
Import Types Js Renderer Spec.





Lemma nearestStep_unfold t sx sy best v :
  nearestStep t sx sy best v
  = if Rle_dec (screenDistanceSquared t sx sy v) (fst best)
    then (screenDistanceSquared t sx sy v, Some v)
    else best.
Proof. reflexivity. Qed.


(** *** Candidates are enumerated in document order *)

Lemma push_each (ps vertices : list DxfPoint) :
  fold_left (fun vs point => vs ++ [point]) ps vertices = vertices ++ ps.
Proof.
  revert vertices. induction ps as [|p ps IH]; intros vertices; cbn.
  - now rewrite app_nil_r.
  - rewrite IH, <- app_assoc. reflexivity.
Qed.

Lemma collectVertices_from (es : list DxfEntity) :
  forall acc,
    fold_left
      (fun vertices entity =>
         match entity with
         | LINE e => vertices ++ [start e; end_ e]
         | POLYLINE e => fold_left (fun vs point => vs ++ [point]) (points e) vertices
         | ARC e => vertices ++ [getArcPoint e (startAngleDeg e);
                                 getArcPoint e (endAngleDeg e)]
         | CIRCLE _ => vertices
         end) es acc
    = acc ++ flat_map entityVertices es.
Proof.
  induction es as [|e es IH]; intros acc; cbn [fold_left flat_map].
  - now rewrite app_nil_r.
  - rewrite IH. destruct e as [l|c|a|p]; cbn [entityVertices].
    + now rewrite <- app_assoc.
    + now rewrite app_nil_l.
    + now rewrite <- app_assoc.
    + now rewrite push_each, <- app_assoc.
Qed.

Lemma collectVertices_flat_map (es : list DxfEntity) :
  collectVertices es = flat_map entityVertices es.
Proof. unfold collectVertices. now rewrite collectVertices_from. Qed.


(** *** Without bounds there is no candidate *)

Lemma includePoint_some bounds point : includePoint bounds point <> None.
Proof. destruct bounds; discriminate. Qed.

Lemma includePoints_some (ps : list DxfPoint) :
  forall b, fold_left includePoint ps (Some b) <> None.
Proof.
  induction ps as [|p ps IH]; intros b; cbn; [discriminate|]. apply IH.
Qed.

Lemma boundsStep_some b entity : boundsStep (Some b) entity <> None.
Proof.
  destruct entity; cbn; try apply includePoints_some; discriminate.
Qed.

Lemma boundsFold_some (es : list DxfEntity) :
  forall b, fold_left boundsStep es (Some b) <> None.
Proof.
  induction es as [|e es IH]; intros b; cbn; [discriminate|].
  destruct (boundsStep (Some b) e) eqn:He; [apply IH|].
  now apply boundsStep_some in He.
Qed.




(** *** A query with a negative radius *)

Lemma squareCanvas_size :
  Rmax 10 (Math_round (clientWidth squareCanvas)) = 100
  /\ Rmax 10 (Math_round (clientHeight squareCanvas)) = 100.
Proof.
  unfold Math_round, squareCanvas. cbn [clientWidth clientHeight].
  rewrite (Zfloor_eq 100 (100 + 0.5)) by lra.
  split; eval_min_max; lra.
Qed.

Lemma diagonalDocument_transform :
  createTransformForCanvas diagonalDocument 100 100 plainOptions = Some unitTransform.
Proof.
  unfold createTransformForCanvas, diagonalDocument, plainOptions, computeBounds.
  cbn [entities fold_left includePoint start end_ x y viewport padding
       DxfBounds.minX DxfBounds.minY DxfBounds.maxX DxfBounds.maxY].
  assert (Hmin : Rmin 0 100 = 0) by (eval_min_max; lra).
  assert (Hmax : Rmax 0 100 = 100) by (eval_min_max; lra).
  rewrite Hmin, Hmax.
  unfold createTransform, clamp, DEFAULT_VIEWPORT, Number_isFinite, unitTransform.
  cbn [DxfBounds.minX DxfBounds.minY DxfBounds.maxX DxfBounds.maxY
       DxfViewport.zoom DxfViewport.panX DxfViewport.panY].
  assert (Hpad : Rmin (Rmax 0 0) (Rmin 100 100 / 2) = 0) by (eval_min_max; lra).
  assert (Hw : Rmax (100 - 0) 1e-6 = 100) by (eval_min_max; lra).
  rewrite Hpad, Hw.
  replace ((100 - 0 * 2) / 100) with 1 by lra.
  assert (Hs : Rmax 1e-6 (Rmin 1 1) = 1) by (eval_min_max; lra).
  assert (Hz : Rmin 200 (Rmax 0.02 1) = 1) by (eval_min_max; lra).
  rewrite Hs, Hz. do 2 f_equal; lra.
Qed.



(** A tie: the two ends of the diagonal are equally far from the middle
    of the canvas, and the answer is the one enumerated last. *)
Lemma nearest_vertex_tie_example :
  screenDistance unitTransform 50 50 (mkPoint 0 0)
  = screenDistance unitTransform 50 50 (mkPoint 100 100)
  /\ findNearestVertex squareCanvas diagonalDocument plainOptions 50 50 100
     = Some (mkPoint 100 100).
Proof.
  assert (Hd0 : screenDistanceSquared unitTransform 50 50 (mkPoint 0 0) = 5000).
  { unfold screenDistanceSquared, toScreen, applyViewport, worldToBase, unitTransform.
    cbn [x y baseScale offsetX offsetY minX minY canvasHeight centerX centerY
         zoom panX panY]. ring. }
  assert (Hd1 : screenDistanceSquared unitTransform 50 50 (mkPoint 100 100) = 5000).
  { unfold screenDistanceSquared, toScreen, applyViewport, worldToBase, unitTransform.
    cbn [x y baseScale offsetX offsetY minX minY canvasHeight centerX centerY
         zoom panX panY]. ring. }
  split.
  - unfold screenDistance. now rewrite Hd0, Hd1.
  - unfold findNearestVertex.
    destruct squareCanvas_size as [-> ->].
    rewrite diagonalDocument_transform.
    unfold collectVertices, diagonalDocument.
    cbn [entities fold_left app start end_].
    rewrite !nearestStep_unfold, Hd0. cbn [fst].
    assert (Hr : Rmax 100 0 ^ 2 = 10000) by (rewrite Rmax_left by lra; ring).
    rewrite Hr.
    destruct (Rle_dec 5000 10000) as [_|Hn]; [|lra].
    rewrite Hd1. cbn [fst].
    destruct (Rle_dec 5000 5000) as [_|Hn]; [reflexivity | lra].
Qed.


End NearestVertex.

(** * The parser: every loop advances and ends *)

Section ParserProgress.
Import Types Js Parser Spec.

Lemma skipBody_ge (variant : nat) (groups : list DxfGroup) :
  forall i, (i <= skipBody variant groups i)%nat.
Proof.
  induction variant as [|variant IH]; intros i; cbn; [lia|].
  destruct (nth_error groups i) as [current|]; [|lia].
  destruct (code current =? 0)%Z; [lia|].
  specialize (IH (S i)). lia.
Qed.

Lemma polylineHeader_ge (variant : nat) (groups : list DxfGroup) :
  forall i flags, (i <= fst (polylineHeader variant groups i flags))%nat.
Proof.
  induction variant as [|variant IH]; intros i flags; cbn; [lia|].
  destruct (nth_error groups i) as [current|]; cbn; [|lia].
  destruct (code current =? 0)%Z; cbn; [lia|].
  match goal with |- (_ <= fst (polylineHeader _ _ _ ?f))%nat =>
    specialize (IH (S i) f) end. lia.
Qed.

Lemma parseVertex_progress (groups : list DxfGroup) (i : nat) :
  (i < vertexNextIndex (parseVertex groups i))%nat.
Proof.
  unfold parseVertex. cbn [vertexNextIndex].
  pose proof (skipBody_ge (List.length groups - (i + 1)) groups (i + 1)). lia.
Qed.

Lemma polylineVertices_ge (variant : nat) (groups : list DxfGroup) :
  forall i points, (i <= fst (polylineVertices variant groups i points))%nat.
Proof.
  induction variant as [|variant IH]; intros i points; cbn [polylineVertices fst]; [lia|].
  destruct (nth_error groups i) as [group|]; cbn [fst]; [|lia].
  destruct (negb (code group =? 0)%Z).
  - specialize (IH (S i) points). lia.
  - destruct (String.eqb (value group) "VERTEX").
    + pose proof (parseVertex_progress groups i) as Hv.
      match goal with |- (_ <= fst (polylineVertices _ _ ?j ?p))%nat =>
        specialize (IH j p) end. lia.
    + destruct (String.eqb (value group) "SEQEND"); cbn [fst]; lia.
Qed.

Lemma parseSimpleEntity_progress (groups : list DxfGroup) (i : nat) :
  (i < nextIndex (parseSimpleEntity groups i))%nat.
Proof.
  unfold parseSimpleEntity.
  pose proof (skipBody_ge (List.length groups - (i + 1)) groups (i + 1)) as Hge.
  destruct (nth_error groups i) as [startGroup|]; cbn [nextIndex]; [|lia].
  repeat match goal with
         | |- context [if ?b then _ else _] => destruct b; cbn [nextIndex]
         end; lia.
Qed.

Lemma parsePolylineEntity_progress (groups : list DxfGroup) (i : nat) :
  (i < nextIndex (parsePolylineEntity groups i))%nat.
Proof.
  unfold parsePolylineEntity.
  pose proof (polylineHeader_ge (List.length groups - (i + 1)) groups (i + 1) 0%Z) as Hh.
  destruct (polylineHeader _ groups (i + 1) 0%Z) as [j flags]. cbn [fst] in Hh.
  pose proof (polylineVertices_ge (List.length groups - j) groups j []) as Hv.
  destruct (polylineVertices _ groups j []) as [k points]. cbn [fst] in Hv.
  destruct (List.length points <? 2)%nat; cbn [nextIndex]; lia.
Qed.

Lemma walkStep_progress (groups : list DxfGroup) (st st' : WalkState) :
  walkStep groups st = Some st' -> (cursor st < cursor st')%nat.
Proof.
  unfold walkStep.
  destruct (nth_error groups (cursor st)) as [group|]; [|discriminate].
  pose proof (parseSimpleEntity_progress groups (cursor st)).
  pose proof (parsePolylineEntity_progress groups (cursor st)).
  repeat match goal with
         | |- context [if ?b then _ else _] => destruct b
         end; intros [= <-]; cbn [cursor]; lia.
Qed.

Lemma walkStep_none (groups : list DxfGroup) (st : WalkState) :
  walkStep groups st = None <-> (List.length groups <= cursor st)%nat.
Proof.
  rewrite <- nth_error_None. unfold walkStep.
  destruct (nth_error groups (cursor st)) as [group|]; [|tauto].
  split; [|discriminate].
  repeat match goal with
         | |- context [if ?b then _ else _] => destruct b
         end; discriminate.
Qed.

(** The loop of [parseDxf] has ended in the state that [walk] returns,
    as soon as the variant covers the records that are left. *)
Lemma walk_ends (variant : nat) (groups : list DxfGroup) :
  forall st,
    (List.length groups - cursor st <= variant)%nat ->
    walkStep groups (walk variant groups st) = None.
Proof.
  induction variant as [|variant IH]; intros st Hv; cbn [walk].
  - apply walkStep_none. lia.
  - destruct (walkStep groups st) as [st'|] eqn:Hstep; [|exact Hstep].
    apply IH. apply walkStep_progress in Hstep. lia.
Qed.

Lemma walk_ended (variant : nat) (groups : list DxfGroup) (st : WalkState) :
  walkStep groups st = None -> walk variant groups st = st.
Proof. intros Hend. destruct variant; cbn; [|rewrite Hend]; reflexivity. Qed.

(** A larger variant changes nothing. *)
Lemma walk_variant (variant : nat) (groups : list DxfGroup) :
  forall st extra,
    (List.length groups - cursor st <= variant)%nat ->
    walk (variant + extra) groups st = walk variant groups st.
Proof.
  induction variant as [|variant IH]; intros st extra Hv.
  - cbn [Nat.add walk]. apply walk_ended, walkStep_none. lia.
  - cbn [Nat.add walk].
    destruct (walkStep groups st) as [st'|] eqn:Hstep; [|reflexivity].
    apply IH. apply walkStep_progress in Hstep. lia.
Qed.

Lemma skipBody_variant (variant : nat) (groups : list DxfGroup) :
  forall i extra,
    (List.length groups - i <= variant)%nat ->
    skipBody (variant + extra) groups i = skipBody variant groups i.
Proof.
  induction variant as [|variant IH]; intros i extra Hv.
  - assert (Hnone : nth_error groups i = None) by (apply nth_error_None; lia).
    destruct extra; cbn; [|rewrite Hnone]; reflexivity.
  - cbn [Nat.add skipBody].
    destruct (nth_error groups i) as [current|]; [|reflexivity].
    destruct (code current =? 0)%Z; [reflexivity|]. apply IH. lia.
Qed.

Lemma polylineHeader_variant (variant : nat) (groups : list DxfGroup) :
  forall i flags extra,
    (List.length groups - i <= variant)%nat ->
    polylineHeader (variant + extra) groups i flags
    = polylineHeader variant groups i flags.
Proof.
  induction variant as [|variant IH]; intros i flags extra Hv.
  - assert (Hnone : nth_error groups i = None) by (apply nth_error_None; lia).
    destruct extra; cbn; [|rewrite Hnone]; reflexivity.
  - cbn [Nat.add polylineHeader].
    destruct (nth_error groups i) as [current|]; [|reflexivity].
    destruct (code current =? 0)%Z; [reflexivity|]. apply IH. lia.
Qed.

Lemma polylineVertices_variant (variant : nat) (groups : list DxfGroup) :
  forall i points extra,
    (List.length groups - i <= variant)%nat ->
    polylineVertices (variant + extra) groups i points
    = polylineVertices variant groups i points.
Proof.
  induction variant as [|variant IH]; intros i points extra Hv.
  - assert (Hnone : nth_error groups i = None) by (apply nth_error_None; lia).
    destruct extra; cbn; [|rewrite Hnone]; reflexivity.
  - cbn [Nat.add polylineVertices].
    destruct (nth_error groups i) as [group|]; [|reflexivity].
    destruct (negb (code group =? 0)%Z); [apply IH; lia|].
    destruct (String.eqb (value group) "VERTEX"); [|reflexivity].
    apply IH. pose proof (parseVertex_progress groups i). lia.
Qed.

(** C10. Each extraction helper returns a [nextIndex] greater than the
    index it was called at, so each iteration of the loop of [parseDxf]
    moves the cursor forward; after at most as many iterations as there
    are records the cursor is past the last record, the loop has ended,
    and [parseDxf] returns the document accumulated so far.  The inner
    loops end within their variants as well. *)
Theorem parse_terminates :
  (forall groups i, (i < nextIndex (parseSimpleEntity groups i))%nat)
  /\ (forall groups i, (i < nextIndex (parsePolylineEntity groups i))%nat)
  /\ (forall groups i, (i < vertexNextIndex (parseVertex groups i))%nat)
  /\ (forall groups st st',
         walkStep groups st = Some st' -> (cursor st < cursor st')%nat)
  /\ (forall raw : string,
         let groups := parseGroups raw in
         let final := walk (List.length groups) groups (mkState 0 false []) in
         walkStep groups final = None
         /\ (List.length groups <= cursor final)%nat
         /\ entities (parseDxf raw) = found final
         /\ forall extra,
             walk (List.length groups + extra) groups (mkState 0 false []) = final)
  /\ (forall groups i flags points extra,
         skipBody (List.length groups - i + extra) groups i
         = skipBody (List.length groups - i) groups i
         /\ polylineHeader (List.length groups - i + extra) groups i flags
            = polylineHeader (List.length groups - i) groups i flags
         /\ polylineVertices (List.length groups - i + extra) groups i points
            = polylineVertices (List.length groups - i) groups i points).
Proof.
  split; [exact parseSimpleEntity_progress|].
  split; [exact parsePolylineEntity_progress|].
  split; [exact parseVertex_progress|].
  split; [exact walkStep_progress|].
  split.
  - intros raw groups final.
    assert (Hend : walkStep groups final = None).
    { apply walk_ends. cbn [cursor]. lia. }
    split; [exact Hend|]. split; [apply walkStep_none, Hend|].
    split; [reflexivity|].
    intros extra. apply walk_variant. cbn [cursor]. lia.
  - intros groups i flags points extra.
    split; [apply skipBody_variant; lia|].
    split; [apply polylineHeader_variant; lia | apply polylineVertices_variant; lia].
Qed.

End ParserProgress.

(** * The parser: every entity of the document is well formed *)

Section EntityInvariant.
Import Types Js Parser Spec.

Lemma parseCircle_valid (body : list DxfGroup) (c : DxfCircleEntity) :
  parseCircle body = Some c -> 0 < circleRadius c.
Proof.
  unfold parseCircle.
  destruct (readPoint body 10 20) as [center|]; [|discriminate].
  destruct (readNumber body 40) as [r|]; [|discriminate].
  destruct (Rle_dec r 0) as [Hle|Hgt]; [discriminate|].
  intros [= <-]. cbn. lra.
Qed.

Lemma parseArc_valid (body : list DxfGroup) (a : DxfArcEntity) :
  parseArc body = Some a -> 0 < radius a.
Proof.
  unfold parseArc.
  destruct (readPoint body 10 20) as [center|]; [|discriminate].
  destruct (readNumber body 40) as [r|]; [|discriminate].
  destruct (readNumber body 50) as [startAngle|]; [|discriminate].
  destruct (readNumber body 51) as [endAngle|]; [|discriminate].
  destruct (Rle_dec r 0) as [Hle|Hgt]; [discriminate|].
  intros [= <-]. cbn. lra.
Qed.

Lemma parseLwPolyline_valid (body : list DxfGroup) (p : DxfPolylineEntity) :
  parseLwPolyline body = Some p -> (2 <= List.length (points p))%nat.
Proof.
  unfold parseLwPolyline.
  destruct (Nat.ltb_spec (List.length (fst (fold_left lwPolylineStep body ([], None)))) 2)
    as [Hlt|Hge]; [discriminate|].
  intros [= <-]. exact Hge.
Qed.

Lemma parseSimpleEntity_valid (groups : list DxfGroup) (i : nat) (e : DxfEntity) :
  entity (parseSimpleEntity groups i) = Some e -> validEntity e.
Proof.
  unfold parseSimpleEntity.
  destruct (nth_error groups i) as [startGroup|]; [|discriminate].
  set (body := slice groups (i + 1) _).
  destruct (String.eqb (value startGroup) "LINE").
  { cbn [entity]. destruct (parseLine body); intros [= <-]. exact I. }
  destruct (String.eqb (value startGroup) "LWPOLYLINE").
  { cbn [entity]. destruct (parseLwPolyline body) as [p|] eqn:Hp; intros [= <-].
    apply parseLwPolyline_valid in Hp. exact Hp. }
  destruct (String.eqb (value startGroup) "CIRCLE").
  { cbn [entity]. destruct (parseCircle body) as [c|] eqn:Hc; intros [= <-].
    apply parseCircle_valid in Hc. exact Hc. }
  destruct (String.eqb (value startGroup) "ARC").
  { cbn [entity]. destruct (parseArc body) as [a|] eqn:Ha; intros [= <-].
    apply parseArc_valid in Ha. exact Ha. }
  discriminate.
Qed.

Lemma parsePolylineEntity_valid (groups : list DxfGroup) (i : nat) (e : DxfEntity) :
  entity (parsePolylineEntity groups i) = Some e -> validEntity e.
Proof.
  unfold parsePolylineEntity.
  destruct (polylineHeader _ groups (i + 1) 0%Z) as [j flags].
  destruct (polylineVertices _ groups j []) as [k pts].
  destruct (Nat.ltb_spec (List.length pts) 2) as [Hlt|Hge]; [discriminate|].
  intros [= <-]. exact Hge.
Qed.

Lemma pushEntity_valid (es : list DxfEntity) (parsed : EntityParseResult) :
  Forall validEntity es ->
  (forall e, entity parsed = Some e -> validEntity e) ->
  Forall validEntity (pushEntity es parsed).
Proof.
  intros Hes Hp. unfold pushEntity.
  destruct (entity parsed) as [e|]; [|exact Hes].
  apply Forall_app. split; [exact Hes|]. constructor; [|constructor]. now apply Hp.
Qed.

Lemma walkStep_valid (groups : list DxfGroup) (st st' : WalkState) :
  Forall validEntity (found st) ->
  walkStep groups st = Some st' ->
  Forall validEntity (found st').
Proof.
  intros Hst. unfold walkStep.
  destruct (nth_error groups (cursor st)) as [group|]; [|discriminate].
  destruct (_ && String.eqb (value group) "SECTION"); [intros [= <-]; exact Hst|].
  destruct (_ && String.eqb (value group) "ENDSEC"); [intros [= <-]; exact Hst|].
  destruct (_ || _); [intros [= <-]; exact Hst|].
  destruct (String.eqb (value group) "POLYLINE"); intros [= <-]; cbn [found];
    apply pushEntity_valid; auto.
  - apply parsePolylineEntity_valid.
  - apply parseSimpleEntity_valid.
Qed.

Lemma walk_valid (variant : nat) (groups : list DxfGroup) :
  forall st, Forall validEntity (found st) ->
             Forall validEntity (found (walk variant groups st)).
Proof.
  induction variant as [|variant IH]; intros st Hst; cbn [walk]; [exact Hst|].
  destruct (walkStep groups st) as [st'|] eqn:Hstep; [|exact Hst].
  apply IH. eapply walkStep_valid; eauto.
Qed.

(** C7. Every entity of the document that [parseDxf] returns has a
    positive radius if it is a circle or an arc and at least two points
    if it is a polyline; each extraction helper returns either such an
    entity or none. *)
Theorem parsed_entities_valid :
  (forall raw : string, Forall validEntity (entities (parseDxf raw)))
  /\ (forall groups i,
         match entity (parseSimpleEntity groups i) with
         | Some e => validEntity e
         | None => True
         end)
  /\ (forall groups i,
         match entity (parsePolylineEntity groups i) with
         | Some e => validEntity e
         | None => True
         end).
Proof.
  split; [|split].
  - intros raw. unfold parseDxf. cbn [entities].
    apply walk_valid. constructor.
  - intros groups i.
    destruct (entity (parseSimpleEntity groups i)) as [e|] eqn:He; [|exact I].
    eapply parseSimpleEntity_valid, He.
  - intros groups i.
    destruct (entity (parsePolylineEntity groups i)) as [e|] eqn:He; [|exact I].
    eapply parsePolylineEntity_valid, He.
Qed.

End EntityInvariant.

(** * The parser: sections, warnings and dropped entities *)

Section ParserBehaviour.
Import Types Js Parser Spec.

Lemma walkStep_section (groups : list DxfGroup) (st : WalkState) (name : string) :
  nth_error groups (cursor st) = Some (mkGroup 0 "SECTION") ->
  nth_error groups (cursor st + 1) = Some (mkGroup 2 name) ->
  exists st',
    walkStep groups st = Some st'
    /\ cursor st' = (cursor st + 2)%nat
    /\ (inEntitiesSection st' = true <-> name = "ENTITIES"%string)
    /\ found st' = found st.
Proof.
  intros Hi Hnext. unfold walkStep. rewrite Hi, Hnext.
  cbn [code value Z.eqb andb String.eqb Ascii.eqb Bool.eqb].
  eexists. split; [reflexivity|]. cbn [cursor inEntitiesSection found].
  split; [reflexivity|]. split; [|reflexivity].
  apply String.eqb_eq.
Qed.

Lemma walkStep_endsec (groups : list DxfGroup) (st : WalkState) :
  nth_error groups (cursor st) = Some (mkGroup 0 "ENDSEC") ->
  exists st',
    walkStep groups st = Some st'
    /\ cursor st' = (cursor st + 1)%nat
    /\ inEntitiesSection st' = false
    /\ found st' = found st.
Proof.
  intros Hi. unfold walkStep. rewrite Hi.
  cbn [code value Z.eqb andb String.eqb Ascii.eqb Bool.eqb].
  eexists. split; [reflexivity|]. cbn [cursor inEntitiesSection found]. auto.
Qed.

Lemma walkStep_extracts_in_section (groups : list DxfGroup) (st st' : WalkState) :
  walkStep groups st = Some st' ->
  found st' <> found st ->
  inEntitiesSection st = true
  /\ exists g, nth_error groups (cursor st) = Some g /\ code g = 0%Z.
Proof.
  intros Hstep Hfound. unfold walkStep in Hstep.
  destruct (nth_error groups (cursor st)) as [group|]; [|discriminate].
  destruct (_ && String.eqb (value group) "SECTION");
    [injection Hstep as <-; now elim Hfound|].
  destruct (_ && String.eqb (value group) "ENDSEC");
    [injection Hstep as <-; now elim Hfound|].
  destruct (inEntitiesSection st); cbn [negb orb] in Hstep.
  - destruct (Z.eqb_spec (code group) 0) as [Hc|Hc]; cbn [negb] in Hstep.
    + split; [reflexivity|]. exists group. auto.
    + injection Hstep as <-. now elim Hfound.
  - injection Hstep as <-. now elim Hfound.
Qed.

(** Outside the entities section an iteration extracts nothing, and the
    flag stays clear unless a section named [ENTITIES] opens. *)
Lemma walkStep_outside_section (groups : list DxfGroup) (st st' : WalkState) :
  (forall g, In g groups -> code g = 2%Z -> value g <> "ENTITIES"%string) ->
  inEntitiesSection st = false ->
  walkStep groups st = Some st' ->
  inEntitiesSection st' = false /\ found st' = found st.
Proof.
  intros Hno Hout. unfold walkStep. rewrite Hout.
  destruct (nth_error groups (cursor st)) as [group|]; [|discriminate].
  destruct (_ && String.eqb (value group) "SECTION").
  - intros [= <-]. cbn [inEntitiesSection found]. split; [|reflexivity].
    destruct (nth_error groups (cursor st + 1)) as [m|] eqn:Hm; [|reflexivity].
    apply nth_error_In in Hm.
    destruct (Z.eqb_spec (code m) 2) as [Hc|Hc]; [|reflexivity].
    cbn [andb]. apply String.eqb_neq, Hno; assumption.
  - destruct (_ && String.eqb (value group) "ENDSEC"); intros [= <-]; auto.
Qed.

Lemma walk_outside_section (variant : nat) (groups : list DxfGroup) :
  (forall g, In g groups -> code g = 2%Z -> value g <> "ENTITIES"%string) ->
  forall st, inEntitiesSection st = false ->
             found (walk variant groups st) = found st.
Proof.
  intros Hno. induction variant as [|variant IH]; intros st Hout; cbn [walk];
    [reflexivity|].
  destruct (walkStep groups st) as [st'|] eqn:Hstep; [|reflexivity].
  destruct (walkStep_outside_section groups st st' Hno Hout Hstep) as [Hout' Hfound].
  rewrite (IH st' Hout'). exact Hfound.
Qed.

(** C8. When the cursor of the walk is on a code-0 [SECTION] record
    followed by a code-2 record, the iteration moves past both and sets
    the flag exactly when the name is [ENTITIES]; on a code-0 [ENDSEC]
    record it clears the flag; an iteration adds an entity only when the
    flag is set and the record under the cursor has code 0; and a record
    sequence without a code-2 [ENTITIES] record yields no entity. *)
Theorem section_flag_gates_extraction :
  (forall (groups : list DxfGroup) (st : WalkState) (name : string),
      nth_error groups (cursor st) = Some (mkGroup 0 "SECTION") ->
      nth_error groups (cursor st + 1) = Some (mkGroup 2 name) ->
      exists st',
        walkStep groups st = Some st'
        /\ cursor st' = (cursor st + 2)%nat
        /\ (inEntitiesSection st' = true <-> name = "ENTITIES"%string)
        /\ found st' = found st)
  /\ (forall (groups : list DxfGroup) (st : WalkState),
         nth_error groups (cursor st) = Some (mkGroup 0 "ENDSEC") ->
         exists st',
           walkStep groups st = Some st'
           /\ cursor st' = (cursor st + 1)%nat
           /\ inEntitiesSection st' = false
           /\ found st' = found st)
  /\ (forall (groups : list DxfGroup) (st st' : WalkState),
         walkStep groups st = Some st' ->
         found st' <> found st ->
         inEntitiesSection st = true
         /\ exists g, nth_error groups (cursor st) = Some g /\ code g = 0%Z)
  /\ (forall raw : string,
         (forall g, In g (parseGroups raw) ->
                    code g = 2%Z -> value g <> "ENTITIES"%string) ->
         entities (parseDxf raw) = []).
Proof.
  split; [exact walkStep_section|].
  split; [exact walkStep_endsec|].
  split; [exact walkStep_extracts_in_section|].
  intros raw Hno. unfold parseDxf. cbn [entities].
  rewrite (walk_outside_section _ _ Hno); reflexivity.
Qed.

(** C6. When the input contains a NUL character the document carries
    the warning, whatever is extracted; and the entities depend on the
    tag records alone, so extraction goes on as for any other input. *)
Theorem nul_byte_warns (raw : string) :
  includes raw NUL = true ->
  warnings (parseDxf raw) = [binaryWarning]
  /\ (1 <= List.length (warnings (parseDxf raw)))%nat
  /\ entities (parseDxf raw)
     = found (walk (List.length (parseGroups raw)) (parseGroups raw)
                   (mkState 0 false []))
  /\ (forall other : string,
         parseGroups other = parseGroups raw ->
         entities (parseDxf other) = entities (parseDxf raw)).
Proof.
  intros Hnul. unfold parseDxf. rewrite Hnul. cbn [warnings entities List.length].
  split; [reflexivity|]. split; [lia|]. split; [reflexivity|].
  intros other ->. reflexivity.
Qed.

(** *** Dropped entities *)

Lemma parseCircle_nonpositive (body : list DxfGroup) (r : R) :
  readNumber body 40 = Some r -> r <= 0 -> parseCircle body = None.
Proof.
  intros Hr Hle. unfold parseCircle. rewrite Hr.
  destruct (readPoint body 10 20); [|reflexivity].
  destruct (Rle_dec r 0); [reflexivity | contradiction].
Qed.

(** When each of the simple extractions yields no entity. *)
Lemma parseLine_none (body : list DxfGroup) :
  parseLine body = None
  <-> readPoint body 10 20 = None \/ readPoint body 11 21 = None.
Proof.
  unfold parseLine.
  destruct (readPoint body 10 20), (readPoint body 11 21);
    split; auto; try discriminate; intros [H|H]; discriminate.
Qed.

Lemma parseCircle_none (body : list DxfGroup) :
  parseCircle body = None
  <-> readPoint body 10 20 = None
      \/ readNumber body 40 = None
      \/ exists r, readNumber body 40 = Some r /\ r <= 0.
Proof.
  unfold parseCircle.
  destruct (readPoint body 10 20) as [c|]; [|split; auto].
  destruct (readNumber body 40) as [r|]; [|split; auto].
  destruct (Rle_dec r 0) as [Hle|Hgt]; split; auto; try discriminate.
  - intros _. right. right. exists r. auto.
  - intros [H|[H|(r' & [= <-] & Hle)]]; try discriminate. contradiction.
Qed.

Lemma parseArc_none (body : list DxfGroup) :
  parseArc body = None
  <-> readPoint body 10 20 = None
      \/ readNumber body 40 = None
      \/ (exists r, readNumber body 40 = Some r /\ r <= 0)
      \/ readNumber body 50 = None
      \/ readNumber body 51 = None.
Proof.
  unfold parseArc.
  destruct (readPoint body 10 20) as [c|]; [|split; auto].
  destruct (readNumber body 40) as [r|]; [|split; auto].
  destruct (readNumber body 50) as [a|]; [|split; auto 6].
  destruct (readNumber body 51) as [b|]; [|split; auto 6].
  destruct (Rle_dec r 0) as [Hle|Hgt]; split; auto; try discriminate.
  - intros _. right. right. left. exists r. auto.
  - intros [H|[H|[(r' & [= <-] & Hle)|[H|H]]]]; try discriminate. contradiction.
Qed.

Lemma parseLwPolyline_none (body : list DxfGroup) :
  parseLwPolyline body = None
  <-> (List.length (lwPolylineVertices body) < 2)%nat.
Proof.
  unfold parseLwPolyline, lwPolylineVertices.
  destruct (Nat.ltb_spec (List.length (fst (fold_left lwPolylineStep body ([], None)))) 2);
    split; auto; try discriminate. lia.
Qed.

Lemma parsePolylineEntity_none (groups : list DxfGroup) (i : nat) :
  entity (parsePolylineEntity groups i) = None
  <-> (List.length (nestedPolylineVertices groups i) < 2)%nat.
Proof.
  unfold parsePolylineEntity, nestedPolylineVertices.
  destruct (polylineHeader _ groups (i + 1) 0%Z) as [j flags]. cbn [fst].
  destruct (polylineVertices _ groups j []) as [k pts]. cbn [snd].
  destruct (Nat.ltb_spec (List.length pts) 2); cbn [entity];
    split; auto; try discriminate. lia.
Qed.

(** [readNumber] reads the first record that has the code: it is absent
    when no record has the code, or when the text of the first one that
    has it is not a finite number. *)
Lemma readNumber_first (pre rest : list DxfGroup) (g : DxfGroup) (c : Z) :
  Forall (fun h => code h <> c) pre ->
  code g = c ->
  readNumber (pre ++ g :: rest) c = parseNumber (value g).
Proof.
  intros Hpre Hg. induction Hpre as [|h pre Hh _ IH]; cbn [app readNumber].
  - apply Z.eqb_eq in Hg. now rewrite Hg.
  - apply Z.eqb_neq in Hh. now rewrite Hh.
Qed.

Lemma readNumber_missing (body : list DxfGroup) (c : Z) :
  Forall (fun g => code g <> c) body -> readNumber body c = None.
Proof.
  induction 1 as [|g body Hg _ IH]; cbn [readNumber]; [reflexivity|].
  apply Z.eqb_neq in Hg. now rewrite Hg.
Qed.

Lemma parseNumber_not_finite (text : string) :
  Number_parseFloat text = NaN \/ (exists s, Number_parseFloat text = Infinity s) ->
  parseNumber text = None.
Proof.
  unfold parseNumber. intros [-> | [s ->]]; reflexivity.
Qed.

Lemma walkStep_extract (groups : list DxfGroup) (st : WalkState) (group : DxfGroup) :
  nth_error groups (cursor st) = Some group ->
  inEntitiesSection st = true ->
  code group = 0%Z ->
  value group <> "SECTION"%string ->
  value group <> "ENDSEC"%string ->
  walkStep groups st
  = Some (mkState (nextIndex (extract groups (cursor st) group)) true
                  (pushEntity (found st) (extract groups (cursor st) group))).
Proof.
  intros Hi Hin Hc Hsec Hend. unfold walkStep, extract. rewrite Hi, Hin, Hc.
  apply String.eqb_neq in Hsec, Hend. rewrite Hsec, Hend.
  cbn [Z.eqb andb negb orb].
  destruct (String.eqb (value group) "POLYLINE"); reflexivity.
Qed.

Lemma walkStep_drop (groups : list DxfGroup) (st : WalkState) (group : DxfGroup) :
  nth_error groups (cursor st) = Some group ->
  inEntitiesSection st = true ->
  code group = 0%Z ->
  value group <> "SECTION"%string ->
  value group <> "ENDSEC"%string ->
  entity (extract groups (cursor st) group) = None ->
  walkStep groups st
  = Some (mkState (nextIndex (extract groups (cursor st) group)) true (found st)).
Proof.
  intros Hi Hin Hc Hsec Hend Hnone.
  rewrite (walkStep_extract groups st group) by assumption.
  unfold pushEntity. rewrite Hnone. reflexivity.
Qed.

Lemma parseSimpleEntity_nextIndex (groups : list DxfGroup) (i : nat) (g : DxfGroup) :
  nth_error groups i = Some g ->
  nextIndex (parseSimpleEntity groups i)
  = skipBody (List.length groups - (i + 1)) groups (i + 1).
Proof.
  intros Hi. unfold parseSimpleEntity. rewrite Hi.
  repeat match goal with
         | |- context [if ?b then _ else _] => destruct b
         end; reflexivity.
Qed.

Lemma nth_error_middle {A : Type} (pre rest : list A) (a : A) :
  nth_error (pre ++ a :: rest) (List.length pre) = Some a.
Proof.
  rewrite nth_error_app2 by lia. now rewrite Nat.sub_diag.
Qed.

(** A body of records of code other than 0 is skipped as a whole. *)
Lemma skipBody_body (body : list DxfGroup) :
  forall (pre post : list DxfGroup) (variant : nat),
    Forall (fun g => code g <> 0%Z) body ->
    match post with [] => True | g :: _ => code g = 0%Z end ->
    (List.length body <= variant)%nat ->
    skipBody variant (pre ++ body ++ post) (List.length pre)
    = (List.length pre + List.length body)%nat.
Proof.
  induction body as [|b body IH]; intros pre post variant Hbody Hpost Hv.
  - cbn [app List.length]. rewrite Nat.add_0_r.
    destruct variant; cbn [skipBody]; [reflexivity|].
    destruct post as [|g post].
    + rewrite app_nil_r.
      assert (Hnone : nth_error pre (List.length pre) = None)
        by (apply nth_error_None; lia).
      now rewrite Hnone.
    + rewrite nth_error_middle, Hpost. reflexivity.
  - inversion Hbody as [|? ? Hb Hrest]; subst.
    destruct variant as [|variant]; [cbn in Hv; lia|].
    cbn [skipBody app]. rewrite nth_error_middle.
    apply Z.eqb_neq in Hb. rewrite Hb.
    replace (pre ++ b :: body ++ post) with ((pre ++ [b]) ++ body ++ post)
      by (rewrite <- app_assoc; reflexivity).
    replace (S (List.length pre)) with (List.length (pre ++ [b]))
      by (rewrite length_app; cbn; lia).
    rewrite IH; auto.
    + rewrite length_app. cbn [List.length]. lia.
    + cbn [List.length] in Hv. lia.
Qed.

Lemma slice_body {A : Type} (pre body post : list A) :
  slice (pre ++ body ++ post) (List.length pre) (List.length pre + List.length body)
  = body.
Proof.
  unfold slice. rewrite skipn_app, skipn_all, Nat.sub_diag. cbn [skipn app].
  replace (List.length pre + List.length body - List.length pre)%nat
    with (List.length body) by lia.
  rewrite firstn_app, firstn_all, Nat.sub_diag. cbn [firstn]. apply app_nil_r.
Qed.

(** The walk over a CIRCLE whose radius is not positive: the cursor
    moves to the record after the circle's body, and neither the flag
    nor the entities found so far change. *)
Lemma dropped_circle_step (pre body post : list DxfGroup) (r : R)
    (es : list DxfEntity) :
  Forall (fun g => code g <> 0%Z) body ->
  match post with [] => True | g :: _ => code g = 0%Z end ->
  readNumber body 40 = Some r ->
  r <= 0 ->
  walkStep (pre ++ mkGroup 0 "CIRCLE" :: body ++ post)
           (mkState (List.length pre) true es)
  = Some (mkState (List.length pre + 1 + List.length body) true es).
Proof.
  intros Hbody Hpost Hr Hle.
  set (groups := pre ++ mkGroup 0 "CIRCLE" :: body ++ post).
  assert (Hi : nth_error groups (List.length pre) = Some (mkGroup 0 "CIRCLE"))
    by apply nth_error_middle.
  assert (Hgroups : groups = (pre ++ [mkGroup 0 "CIRCLE"]) ++ body ++ post)
    by (unfold groups; rewrite <- app_assoc; reflexivity).
  assert (Hlen : List.length (pre ++ [mkGroup 0 "CIRCLE"]) = (List.length pre + 1)%nat)
    by (rewrite length_app; reflexivity).
  assert (Hskip : skipBody (List.length groups - (List.length pre + 1)) groups
                           (List.length pre + 1)
                  = (List.length pre + 1 + List.length body)%nat).
  { rewrite <- Hlen, Hgroups.
    apply skipBody_body; auto.
    rewrite !length_app. lia. }
  rewrite (walkStep_drop groups _ (mkGroup 0 "CIRCLE")); cbn [cursor inEntitiesSection
    found code value]; try reflexivity; try discriminate; try exact Hi.
  - unfold extract. cbn [value String.eqb Ascii.eqb Bool.eqb].
    rewrite (parseSimpleEntity_nextIndex groups _ _ Hi), Hskip. reflexivity.
  - unfold extract. cbn [value String.eqb Ascii.eqb Bool.eqb].
    unfold parseSimpleEntity. rewrite Hi, Hskip.
    cbn [value String.eqb Ascii.eqb Bool.eqb entity].
    rewrite Hgroups, <- Hlen, slice_body.
    rewrite (parseCircle_nonpositive body r Hr Hle). reflexivity.
Qed.

(** *** A drawing with a circle of negative radius *)

Lemma parseDxf_sampleDrawing :
  parseDxf sampleDrawing = mkDocument sampleEntities [].
Proof. run_parseDxf sampleDrawing. reflexivity. Qed.

Lemma parseDxf_binaryDrawing :
  parseDxf binaryDrawing = mkDocument sampleEntities [binaryWarning].
Proof. run_parseDxf binaryDrawing. reflexivity. Qed.

Lemma parseDxf_only_nul :
  parseDxf (String NUL EmptyString) = mkDocument [] [binaryWarning].
Proof. reflexivity. Qed.

Lemma Math_trunc_IZR (z : Z) : Math_trunc (IZR z) = z.
Proof.
  unfold Math_trunc. destruct (Rle_dec 0 (IZR z)).
  - apply ZfloorZ.
  - apply Zceil_eq. lra.
Qed.

Lemma parseDxf_polylineDrawing :
  parseDxf polylineDrawing = mkDocument polylineEntities [].
Proof.
  run_parseDxf polylineDrawing.
  rewrite !Math_trunc_IZR. cbn [Z.land Pos.land].
  unfold polylineEntities. repeat f_equal; lra.
Qed.

(** C6 on [binaryDrawing], whose last character is NUL. *)
Lemma nul_byte_warns_witness :
  includes binaryDrawing NUL = true
  /\ warnings (parseDxf binaryDrawing) = [binaryWarning]
  /\ (1 <= List.length (warnings (parseDxf binaryDrawing)))%nat
  /\ entities (parseDxf binaryDrawing)
     = found (walk (List.length (parseGroups binaryDrawing))
                   (parseGroups binaryDrawing) (mkState 0 false []))
  /\ (forall other : string,
         parseGroups other = parseGroups binaryDrawing ->
         entities (parseDxf other) = entities (parseDxf binaryDrawing)).
Proof.
  split; [reflexivity | apply (nul_byte_warns binaryDrawing); reflexivity].
Defined.

(** C9. A line, circle, arc or polyline (compact or nested) yields no
    entity exactly when a point or number it needs is absent, its radius
    is not positive, or it has fewer than two vertices; a number is
    absent when no record has its code or the first that has it does
    not hold a finite number.  When the helper called on an entity-start
    record yields no entity, the iteration only moves the cursor to the
    helper's [nextIndex]: the flag and the entities found so far are
    unchanged; for a simple entity that index is the next record of
    code 0, whatever the fields held.  The warnings depend on the NUL
    test alone.  So the walk passes over a CIRCLE of radius [r <= 0] to
    the record after its body, and in [sampleDrawing] the lines before
    and after such a circle are both extracted, with no warning. *)
Theorem soft_failure_drops_only_the_entity :
  (forall body,
      (parseLine body = None
       <-> readPoint body 10 20 = None \/ readPoint body 11 21 = None)
      /\ (parseCircle body = None
          <-> readPoint body 10 20 = None
              \/ readNumber body 40 = None
              \/ exists r, readNumber body 40 = Some r /\ r <= 0)
      /\ (parseArc body = None
          <-> readPoint body 10 20 = None
              \/ readNumber body 40 = None
              \/ (exists r, readNumber body 40 = Some r /\ r <= 0)
              \/ readNumber body 50 = None
              \/ readNumber body 51 = None)
      /\ (parseLwPolyline body = None
          <-> (List.length (lwPolylineVertices body) < 2)%nat))
  /\ (forall groups i,
         entity (parsePolylineEntity groups i) = None
         <-> (List.length (nestedPolylineVertices groups i) < 2)%nat)
  /\ (forall pre rest g c,
         Forall (fun h => code h <> c) pre ->
         code g = c ->
         (Number_parseFloat (value g) = NaN
          \/ exists s, Number_parseFloat (value g) = Infinity s) ->
         readNumber (pre ++ g :: rest) c = None)
  /\ (forall body c, Forall (fun g => code g <> c) body -> readNumber body c = None)
  /\ (forall groups st group,
         nth_error groups (cursor st) = Some group ->
         inEntitiesSection st = true ->
         code group = 0%Z ->
         value group <> "SECTION"%string ->
         value group <> "ENDSEC"%string ->
         entity (extract groups (cursor st) group) = None ->
         walkStep groups st
         = Some (mkState (nextIndex (extract groups (cursor st) group)) true
                         (found st)))
  /\ (forall groups i g,
         nth_error groups i = Some g ->
         nextIndex (parseSimpleEntity groups i)
         = skipBody (List.length groups - (i + 1)) groups (i + 1))
  /\ (forall raw : string,
         warnings (parseDxf raw) = if includes raw NUL then [binaryWarning] else [])
  /\ (forall pre body post r es,
         Forall (fun g => code g <> 0%Z) body ->
         match post with [] => True | g :: _ => code g = 0%Z end ->
         readNumber body 40 = Some r ->
         r <= 0 ->
         walkStep (pre ++ mkGroup 0 "CIRCLE" :: body ++ post)
                  (mkState (List.length pre) true es)
         = Some (mkState (List.length pre + 1 + List.length body) true es))
  /\ parseDxf sampleDrawing = mkDocument sampleEntities [].
Proof.
  split.
  { intros body. split; [apply parseLine_none|].
    split; [apply parseCircle_none|].
    split; [apply parseArc_none | apply parseLwPolyline_none]. }
  split; [exact parsePolylineEntity_none|].
  split.
  { intros pre rest g c Hpre Hg Hbad.
    rewrite (readNumber_first pre rest g c Hpre Hg).
    apply parseNumber_not_finite, Hbad. }
  split; [exact readNumber_missing|].
  split; [exact walkStep_drop|].
  split; [exact parseSimpleEntity_nextIndex|].
  split; [reflexivity|].
  split; [exact dropped_circle_step | exact parseDxf_sampleDrawing].
Qed.

End ParserBehaviour.

(** * Bounds *)

Section Bounds.
Import Types Js Renderer Spec Props.

Lemma includePoint_covers (ob : option DxfBounds.t) (p : DxfPoint) :
  match ob with Some b => orderedBounds b | None => True end ->
  exists b',
    includePoint ob p = Some b'
    /\ orderedBounds b'
    /\ inBounds b' p
    /\ (forall b q, ob = Some b -> inBounds b q -> inBounds b' q).
Proof.
  intros Hord. destruct ob as [b|]; cbn [includePoint]; eexists;
    (split; [reflexivity|]); unfold orderedBounds, inBounds in *;
    cbn [DxfBounds.minX DxfBounds.minY DxfBounds.maxX DxfBounds.maxY].
  - pose proof (Rmin_l (DxfBounds.minX b) (x p)).
    pose proof (Rmin_r (DxfBounds.minX b) (x p)).
    pose proof (Rmin_l (DxfBounds.minY b) (y p)).
    pose proof (Rmin_r (DxfBounds.minY b) (y p)).
    pose proof (Rmax_l (DxfBounds.maxX b) (x p)).
    pose proof (Rmax_r (DxfBounds.maxX b) (x p)).
    pose proof (Rmax_l (DxfBounds.maxY b) (y p)).
    pose proof (Rmax_r (DxfBounds.maxY b) (y p)).
    split; [lra|]. split; [lra|].
    intros b0 q Hb0 Hq. injection Hb0 as <-. lra.
  - split; [lra|]. split; [lra|]. intros b0 q Hb0. discriminate.
Qed.

Lemma includePoint_step (ob : option DxfBounds.t) (pts : DxfPoint -> Prop)
    (p : DxfPoint) :
  covers ob pts ->
  exists b', includePoint ob p = Some b'
             /\ covers (Some b') (fun q => pts q \/ q = p).
Proof.
  intros Hc.
  destruct (includePoint_covers ob p) as (b' & Hb' & Hord & Hp & Hgrow).
  { destruct ob; [apply Hc | exact I]. }
  exists b'. split; [exact Hb'|]. split; [exact Hord|].
  intros q [Hq | ->]; [|exact Hp].
  destruct ob as [b|]; [|now apply Hc in Hq].
  apply (Hgrow b q eq_refl). now apply Hc.
Qed.

Lemma includePoints_step (ps : list DxfPoint) :
  forall (ob : option DxfBounds.t) (pts : DxfPoint -> Prop),
    covers ob pts ->
    covers (fold_left includePoint ps ob) (fun q => pts q \/ In q ps).
Proof.
  induction ps as [|p ps IH]; intros ob pts Hc; cbn [fold_left].
  - destruct ob as [b|]; cbn in *.
    + split; [apply Hc|]. intros q [Hq|[]]. now apply Hc.
    + intros q [Hq|[]]. now apply Hc in Hq.
  - destruct (includePoint_step ob pts p Hc) as (b' & -> & Hc').
    specialize (IH (Some b') _ Hc').
    destruct (fold_left includePoint ps (Some b')) as [b''|] eqn:Hf.
    + split; [apply IH|]. intros q [Hq|[<-|Hq]]; apply IH; auto.
    + intros q [Hq|[<-|Hq]]; eapply IH; eauto.
Qed.

Lemma includeCircle_step (ob : option DxfBounds.t) (pts : DxfPoint -> Prop)
    (c : DxfPoint) (r : R) :
  0 <= r ->
  covers ob pts ->
  exists b',
    includeCircle ob c r = Some b'
    /\ covers (Some b')
         (fun q => pts q
                   \/ exists a, q = {| x := x c + r * cos a; y := y c + r * sin a |}).
Proof.
  intros Hr Hc. unfold includeCircle.
  destruct (includePoint_step ob pts {| x := x c - r; y := y c - r |} Hc)
    as (b1 & -> & Hc1).
  destruct (includePoint_step (Some b1) _ {| x := x c + r; y := y c + r |} Hc1)
    as (b2 & -> & Hc2).
  exists b2. split; [reflexivity|]. split; [apply Hc2|].
  intros q [Hq | [a ->]].
  - apply Hc2. auto.
  - destruct Hc2 as [_ Hin].
    pose proof (Hin {| x := x c - r; y := y c - r |} ltac:(auto)) as [Hlx Hly].
    pose proof (Hin {| x := x c + r; y := y c + r |} ltac:(auto)) as [Hhx Hhy].
    pose proof (COS_bound a) as [Hc0 Hc1']. pose proof (SIN_bound a) as [Hs0 Hs1].
    unfold inBounds in *. cbn [x y] in *. nra.
Qed.

Lemma boundsStep_covers (ob : option DxfBounds.t) (pts : DxfPoint -> Prop)
    (e : DxfEntity) :
  validEntity e ->
  covers ob pts ->
  covers (boundsStep ob e) (fun q => pts q \/ entityPoint e q).
Proof.
  intros Hv Hc. destruct e as [l|c|a|pl]; cbn [boundsStep entityPoint].
  - destruct (includePoint_step ob pts (start l) Hc) as (b1 & -> & Hc1).
    destruct (includePoint_step (Some b1) _ (end_ l) Hc1) as (b2 & -> & Hc2).
    split; [apply Hc2|]. intros q [Hq|[->| ->]]; apply Hc2; auto.
  - cbn in Hv.
    destruct (includeCircle_step ob pts (circleCenter c) (circleRadius c)
                ltac:(lra) Hc) as (b' & -> & Hc').
    exact Hc'.
  - cbn in Hv.
    destruct (includeCircle_step ob pts (center a) (radius a) ltac:(lra) Hc)
      as (b' & -> & Hc').
    exact Hc'.
  - apply includePoints_step, Hc.
Qed.

Lemma boundsFold_covers (es : list DxfEntity) :
  forall (ob : option DxfBounds.t) (pts : DxfPoint -> Prop),
    Forall validEntity es ->
    covers ob pts ->
    covers (fold_left boundsStep es ob)
           (fun q => pts q \/ exists e, In e es /\ entityPoint e q).
Proof.
  induction es as [|e es IH]; intros ob pts Hv Hc; cbn [fold_left].
  - destruct ob as [b|]; cbn in *.
    + split; [apply Hc|]. intros q [Hq|(e & [] & _)]. now apply Hc.
    + intros q [Hq|(e & [] & _)]. now apply Hc in Hq.
  - inversion Hv as [|? ? He Hes]; subst.
    specialize (IH _ _ Hes (boundsStep_covers ob pts e He Hc)).
    destruct (fold_left boundsStep es (boundsStep ob e)) as [b|]; cbn in *.
    + split; [apply IH|].
      intros q [Hq|(e' & [<-|Hin] & Hq)]; apply IH; eauto.
    + intros q [Hq|(e' & [<-|Hin] & Hq)]; eapply IH; eauto.
Qed.

Lemma computeBounds_fold (es : list DxfEntity) :
  computeBounds es = fold_left boundsStep es None.
Proof. reflexivity. Qed.

(** X1. For entities with the fields of the data model, the box that
    [computeBounds] returns is ordered and holds every end of a line,
    every point of a polyline, and the whole circle of every circle and
    arc. *)
Theorem computeBounds_contains_entities (es : list DxfEntity) :
  Forall validEntity es ->
  match computeBounds es with
  | Some b =>
      orderedBounds b
      /\ (forall e p, In e es -> entityPoint e p -> inBounds b p)
      /\ (forall v, In v (collectVertices es) -> inBounds b v)
  | None => True
  end.
Proof.
  intros Hv. rewrite computeBounds_fold.
  pose proof (boundsFold_covers es None (fun _ => False) Hv (fun q H => H)) as Hc.
  destruct (fold_left boundsStep es None) as [b|]; [|exact I].
  destruct Hc as [Hord Hin]. split; [exact Hord|]. split.
  - intros e p He Hp. apply Hin. right. eauto.
  - intros v Hvx. rewrite collectVertices_flat_map in Hvx.
    apply in_flat_map in Hvx as (e & He & Hve).
    apply Hin. right. exists e. split; [exact He|].
    destruct e as [l|c|a|pl]; cbn [entityVertices entityPoint] in *.
    + destruct Hve as [<-|[<-|[]]]; auto.
    + destruct Hve.
    + unfold getArcPoint in Hve. unfold arcPointAt.
      destruct Hve as [<-|[<-|[]]]; eexists; reflexivity.
    + exact Hve.
Qed.

(** X1 on the document of one diagonal line. *)
Lemma computeBounds_contains_entities_witness :
  Forall validEntity (entities diagonalDocument)
  /\ match computeBounds (entities diagonalDocument) with
     | Some b =>
         orderedBounds b
         /\ (forall e p, In e (entities diagonalDocument) ->
                         entityPoint e p -> inBounds b p)
         /\ (forall v, In v (collectVertices (entities diagonalDocument)) ->
                       inBounds b v)
     | None => True
     end.
Proof.
  assert (Hv : Forall validEntity (entities diagonalDocument))
    by (repeat constructor).
  split; [exact Hv | exact (computeBounds_contains_entities _ Hv)].
Defined.

Lemma boundsStep_valid_some (ob : option DxfBounds.t) (e : DxfEntity) :
  validEntity e -> boundsStep ob e <> None.
Proof.
  intros Hv. destruct e as [l|c|a|pl]; cbn [boundsStep].
  - apply includePoint_some.
  - unfold includeCircle. apply includePoint_some.
  - unfold includeCircle. apply includePoint_some.
  - cbn in Hv. destruct (points pl) as [|p ps]; [cbn in Hv; lia|].
    cbn [fold_left].
    destruct (includePoint ob p) as [b|] eqn:Hp; [apply includePoints_some|].
    now apply includePoint_some in Hp.
Qed.

(** X2. For entities with the fields of the data model, [computeBounds]
    returns none exactly when there is no entity. *)
Theorem computeBounds_none_iff_empty (es : list DxfEntity) :
  Forall validEntity es ->
  (computeBounds es = None <-> es = []).
Proof.
  intros Hv. rewrite computeBounds_fold. split.
  - destruct es as [|e es]; [reflexivity|]. cbn [fold_left].
    inversion Hv as [|? ? He Hes]; subst.
    destruct (boundsStep None e) as [b|] eqn:Hb.
    + intros H. now apply boundsFold_some in H.
    + now apply boundsStep_valid_some in Hb.
  - intros ->. reflexivity.
Qed.

(** X2 on the document of one diagonal line. *)
Lemma computeBounds_none_iff_empty_witness :
  Forall validEntity (entities diagonalDocument)
  /\ (computeBounds (entities diagonalDocument) = None
      <-> entities diagonalDocument = []).
Proof.
  assert (Hv : Forall validEntity (entities diagonalDocument))
    by (repeat constructor).
  split; [exact Hv | exact (computeBounds_none_iff_empty _ Hv)].
Defined.

End Bounds.

(** * The fit to the canvas and the visible part of the drawing *)

Section Fit.
Import Types Js Renderer Spec Props.

Lemma toScreen_screenToWorld (s : DxfPoint) (t : RenderTransform) :
  zoom t <> 0 -> baseScale t <> 0 ->
  toScreen (screenToWorld s t) t = s.
Proof.
  intros Hz Hs. destruct s as [sx sy].
  unfold screenToWorld, toScreen, applyViewport, worldToBase. cbn [x y].
  f_equal; field; auto.
Qed.

(** X3. [toScreen] undoes [screenToWorld] under every transform that
    [createTransform] builds: with C1, the two are inverse bijections
    between the document plane and the screen plane. *)
Theorem forward_of_inverse_is_identity
    (bounds : DxfBounds.t) (width height padding : R)
    (viewport : DxfViewport.t) (s : DxfPoint) :
  let t := createTransform bounds width height padding viewport in
  toScreen (screenToWorld s t) t = s.
Proof.
  intros t. apply toScreen_screenToWorld.
  - pose proof (clamp_bounds (DxfViewport.zoom viewport) 0.02 200).
    unfold t. cbn [createTransform zoom]. lra.
  - unfold t. cbn [createTransform baseScale].
    match goal with |- Rmax ?a ?b <> 0 => pose proof (Rmax_l a b) end. lra.
Qed.

Lemma createTransform_default_viewport bounds width height padding :
  let t := createTransform bounds width height padding DEFAULT_VIEWPORT in
  zoom t = 1 /\ panX t = 0 /\ panY t = 0.
Proof.
  cbn [createTransform zoom panX panY DEFAULT_VIEWPORT DxfViewport.zoom
       DxfViewport.panX DxfViewport.panY Number_isFinite].
  split; [|split; reflexivity].
  unfold clamp. rewrite (Rmax_right 0.02 1) by lra. apply Rmin_right. lra.
Qed.

(** X4. With the default viewport, when the fitted scale is not the
    floor [1e-6], every point of the bounds is drawn inside the canvas,
    at least [safePadding] away from each border. *)
Theorem fit_keeps_bounds_inside_padding
    (bounds : DxfBounds.t) (width height padding : R) (p : DxfPoint) :
  let pad := safePaddingOf padding width height in
  let worldWidth := Rmax (DxfBounds.maxX bounds - DxfBounds.minX bounds) 1e-6 in
  let worldHeight := Rmax (DxfBounds.maxY bounds - DxfBounds.minY bounds) 1e-6 in
  1e-6 * worldWidth <= width - pad * 2 ->
  1e-6 * worldHeight <= height - pad * 2 ->
  inBounds bounds p ->
  let s := toScreen p (createTransform bounds width height padding DEFAULT_VIEWPORT) in
  pad <= x s <= width - pad /\ pad <= y s <= height - pad.
Proof.
  intros pad worldWidth worldHeight Hw Hh [Hx Hy] s.
  unfold safePaddingOf in pad.
  pose proof (createTransform_default_viewport bounds width height padding)
    as (Hz & Hpx & Hpy).
  assert (Hww : 0 < worldWidth)
    by (unfold worldWidth; match goal with |- 0 < Rmax ?a ?b =>
          pose proof (Rmax_r a b) end; lra).
  assert (Hwh : 0 < worldHeight)
    by (unfold worldHeight; match goal with |- 0 < Rmax ?a ?b =>
          pose proof (Rmax_r a b) end; lra).
  assert (Hxw : DxfBounds.maxX bounds - DxfBounds.minX bounds <= worldWidth)
    by apply Rmax_l.
  assert (Hyw : DxfBounds.maxY bounds - DxfBounds.minY bounds <= worldHeight)
    by apply Rmax_l.
  set (scaleX := (width - pad * 2) / worldWidth).
  set (scaleY := (height - pad * 2) / worldHeight).
  assert (HsX : 1e-6 <= scaleX).
  { unfold scaleX. apply Rmult_le_reg_r with (r := worldWidth); [exact Hww|].
    replace ((width - pad * 2) / worldWidth * worldWidth) with (width - pad * 2)
      by (field; lra). exact Hw. }
  assert (HsY : 1e-6 <= scaleY).
  { unfold scaleY. apply Rmult_le_reg_r with (r := worldHeight); [exact Hwh|].
    replace ((height - pad * 2) / worldHeight * worldHeight) with (height - pad * 2)
      by (field; lra). exact Hh. }
  set (bs := Rmax 1e-6 (Rmin scaleX scaleY)).
  assert (Hbs : 1e-6 <= bs /\ bs <= scaleX /\ bs <= scaleY).
  { unfold bs. rewrite Rmax_right by (apply Rmin_glb; assumption).
    split; [apply Rmin_glb; assumption|].
    split; [apply Rmin_l | apply Rmin_r]. }
  destruct Hbs as (Hbs0 & HbsX & HbsY).
  assert (HdX : worldWidth * bs <= width - pad * 2).
  { replace (width - pad * 2) with (worldWidth * scaleX)
      by (unfold scaleX; field; lra).
    apply Rmult_le_compat_l; lra. }
  assert (HdY : worldHeight * bs <= height - pad * 2).
  { replace (height - pad * 2) with (worldHeight * scaleY)
      by (unfold scaleY; field; lra).
    apply Rmult_le_compat_l; lra. }
  assert (Hs : s = {| x := (x p - DxfBounds.minX bounds) * bs + (width - worldWidth * bs) / 2;
                      y := height - ((y p - DxfBounds.minY bounds) * bs
                                     + (height - worldHeight * bs) / 2) |}).
  { unfold s, toScreen, applyViewport, worldToBase. rewrite Hz, Hpx, Hpy.
    cbn [createTransform x y minX minY baseScale offsetX offsetY canvasHeight
         centerX centerY].
    fold pad worldWidth worldHeight scaleX scaleY bs. f_equal; field. }
  rewrite Hs. cbn [x y].
  assert (0 <= (x p - DxfBounds.minX bounds) * bs <= worldWidth * bs) by nra.
  assert (0 <= (y p - DxfBounds.minY bounds) * bs <= worldHeight * bs) by nra.
  lra.
Qed.

(** X4 on the unit square drawn on a canvas of 100 by 100 with a
    padding of 10. *)
Lemma fit_keeps_bounds_inside_padding_witness :
  let bounds := DxfBounds.mk 0 0 1 1 in
  let p := mkPoint 1 0 in
  let pad := safePaddingOf 10 100 100 in
  1e-6 * Rmax (DxfBounds.maxX bounds - DxfBounds.minX bounds) 1e-6 <= 100 - pad * 2
  /\ 1e-6 * Rmax (DxfBounds.maxY bounds - DxfBounds.minY bounds) 1e-6 <= 100 - pad * 2
  /\ inBounds bounds p
  /\ (pad <= x (toScreen p (createTransform bounds 100 100 10 DEFAULT_VIEWPORT))
            <= 100 - pad
      /\ pad <= y (toScreen p (createTransform bounds 100 100 10 DEFAULT_VIEWPORT))
              <= 100 - pad).
Proof.
  cbv zeta.
  assert (Hpad : safePaddingOf 10 100 100 = 10)
    by (unfold safePaddingOf; eval_min_max; lra).
  assert (Hw : Rmax (1 - 0) 1e-6 = 1) by (eval_min_max; lra).
  cbn [DxfBounds.minX DxfBounds.minY DxfBounds.maxX DxfBounds.maxY].
  assert (H1 : 1e-6 * Rmax (1 - 0) 1e-6 <= 100 - safePaddingOf 10 100 100 * 2)
    by (rewrite Hpad, Hw; lra).
  assert (H2 : inBounds (DxfBounds.mk 0 0 1 1) (mkPoint 1 0))
    by (unfold inBounds; cbn; lra).
  split; [exact H1|]. split; [exact H1|]. split; [exact H2|].
  exact (fit_keeps_bounds_inside_padding (DxfBounds.mk 0 0 1 1) 100 100 10
           (mkPoint 1 0) H1 H1 H2).
Defined.

(** The document coordinates of a screen point, one coordinate at a
    time. *)
Lemma screenToWorld_x_mono (t : RenderTransform) (s1 s2 : DxfPoint) :
  0 < zoom t -> 0 < baseScale t ->
  x s1 <= x s2 -> x (screenToWorld s1 t) <= x (screenToWorld s2 t).
Proof.
  intros Hz Hs Hle. unfold screenToWorld. cbn [x].
  apply Rplus_le_compat_r. apply Rmult_le_compat_r; [left; now apply Rinv_0_lt_compat|].
  apply Rplus_le_compat_r. apply Rplus_le_compat_r.
  apply Rmult_le_compat_r; [left; now apply Rinv_0_lt_compat|]. lra.
Qed.

Lemma screenToWorld_y_anti (t : RenderTransform) (s1 s2 : DxfPoint) :
  0 < zoom t -> 0 < baseScale t ->
  y s1 <= y s2 -> y (screenToWorld s2 t) <= y (screenToWorld s1 t).
Proof.
  intros Hz Hs Hle. unfold screenToWorld. cbn [y].
  apply Rplus_le_compat_r. apply Rmult_le_compat_r; [left; now apply Rinv_0_lt_compat|].
  apply Rplus_le_compat_r.
  assert ((y s1 - panY t - centerY t) / zoom t <= (y s2 - panY t - centerY t) / zoom t).
  { apply Rmult_le_compat_r; [left; now apply Rinv_0_lt_compat|]. lra. }
  lra.
Qed.

Lemma screenToWorld_x_only (t : RenderTransform) (s1 s2 : DxfPoint) :
  x s1 = x s2 -> x (screenToWorld s1 t) = x (screenToWorld s2 t).
Proof. intros H. unfold screenToWorld. cbn [x]. now rewrite H. Qed.

Lemma screenToWorld_y_only (t : RenderTransform) (s1 s2 : DxfPoint) :
  y s1 = y s2 -> y (screenToWorld s1 t) = y (screenToWorld s2 t).
Proof. intros H. unfold screenToWorld. cbn [y]. now rewrite H. Qed.

(** The box of the four corners holds each corner. *)
Lemma computeVisibleWorldBounds_corners (t : RenderTransform) :
  let visible := computeVisibleWorldBounds t in
  inBounds visible (screenToWorld {| x := 0; y := 0 |} t)
  /\ inBounds visible
       (screenToWorld {| x := canvasWidth t; y := canvasHeight t |} t).
Proof.
  unfold computeVisibleWorldBounds. cbn [fold_left].
  set (c0 := screenToWorld {| x := 0; y := 0 |} t).
  set (c1 := screenToWorld {| x := canvasWidth t; y := 0 |} t).
  set (c2 := screenToWorld {| x := 0; y := canvasHeight t |} t).
  set (c3 := screenToWorld {| x := canvasWidth t; y := canvasHeight t |} t).
  unfold inBounds.
  cbn [DxfBounds.minX DxfBounds.minY DxfBounds.maxX DxfBounds.maxY].
  repeat match goal with
         | |- context [Rmin ?a ?b] =>
             lazymatch goal with
             | H : Rmin a b <= a |- _ => fail
             | _ => pose proof (Rmin_l a b); pose proof (Rmin_r a b)
             end
         | |- context [Rmax ?a ?b] =>
             lazymatch goal with
             | H : a <= Rmax a b |- _ => fail
             | _ => pose proof (Rmax_l a b); pose proof (Rmax_r a b)
             end
         end.
  lra.
Qed.

(** X5. The visible box that the grid is planned on is ordered and
    holds the document point under every point of the canvas. *)
Theorem visible_bounds_hold_the_canvas (t : RenderTransform) (s : DxfPoint) :
  0 < zoom t ->
  0 < baseScale t ->
  0 <= x s <= canvasWidth t ->
  0 <= y s <= canvasHeight t ->
  orderedBounds (computeVisibleWorldBounds t)
  /\ inBounds (computeVisibleWorldBounds t) (screenToWorld s t).
Proof.
  intros Hz Hs [Hx0 Hx1] [Hy0 Hy1].
  destruct (computeVisibleWorldBounds_corners t) as [[Hax Hay] [Hbx Hby]].
  set (visible := computeVisibleWorldBounds t) in *.
  set (a := {| x := 0; y := 0 |}) in *.
  set (b := {| x := canvasWidth t; y := canvasHeight t |}) in *.
  pose proof (screenToWorld_x_mono t a s Hz Hs Hx0) as H1.
  pose proof (screenToWorld_x_mono t s b Hz Hs Hx1) as H2.
  pose proof (screenToWorld_y_anti t a s Hz Hs Hy0) as H3.
  pose proof (screenToWorld_y_anti t s b Hz Hs Hy1) as H4.
  unfold orderedBounds, inBounds. lra.
Qed.

(** X5 on the canvas of 100 by 100 at scale 1. *)
Lemma visible_bounds_hold_the_canvas_witness :
  0 < zoom unitTransform
  /\ 0 < baseScale unitTransform
  /\ 0 <= x (mkPoint 30 40) <= canvasWidth unitTransform
  /\ 0 <= y (mkPoint 30 40) <= canvasHeight unitTransform
  /\ orderedBounds (computeVisibleWorldBounds unitTransform)
  /\ inBounds (computeVisibleWorldBounds unitTransform)
       (screenToWorld (mkPoint 30 40) unitTransform).
Proof.
  assert (H1 : 0 < zoom unitTransform) by (cbn; lra).
  assert (H2 : 0 < baseScale unitTransform) by (cbn; lra).
  assert (H3 : 0 <= x (mkPoint 30 40) <= canvasWidth unitTransform) by (cbn; lra).
  assert (H4 : 0 <= y (mkPoint 30 40) <= canvasHeight unitTransform) by (cbn; lra).
  split; [exact H1|]. split; [exact H2|]. split; [exact H3|]. split; [exact H4|].
  exact (visible_bounds_hold_the_canvas unitTransform (mkPoint 30 40) H1 H2 H3 H4).
Defined.

End Fit.

(** * The grid is drawn in full *)

Section GridLines.
Import Types Js Renderer Spec Props.

Lemma normalizeGridStep_loop_some (fuel : nat) :
  forall step span maxLines r : R,
    0 < step ->
    normalizeGridStep_loop fuel step span maxLines = Some r ->
    step <= r /\ span / r <= maxLines.
Proof.
  induction fuel as [|fuel IH]; intros step span maxLines r Hpos; cbn; [discriminate|].
  destruct (Rlt_dec maxLines (span / step)) as [Hgt|Hle].
  - intros Hr. apply IH in Hr; lra.
  - intros [= <-]. apply Rnot_lt_le in Hle. lra.
Qed.

Lemma normalizeGridStep_some (fuel : nat) (baseStep span maxLines r : R) :
  normalizeGridStep fuel baseStep span maxLines = Some r ->
  1e-6 <= r /\ baseStep <= r /\ span / r <= maxLines.
Proof.
  unfold normalizeGridStep. intros Hr.
  pose proof (Rmax_l baseStep 1e-6). pose proof (Rmax_r baseStep 1e-6).
  apply normalizeGridStep_loop_some in Hr; lra.
Qed.

Lemma indicesFromTo_empty (first last : Z) :
  (last < first)%Z -> indicesFromTo first last = [].
Proof.
  intros Hlt. unfold indicesFromTo.
  replace (Z.to_nat (last - first + 1)) with 0%nat by lia. reflexivity.
Qed.

Lemma indicesFromTo_cons (first last : Z) :
  (first <= last)%Z ->
  indicesFromTo first last = first :: indicesFromTo (first + 1) last.
Proof.
  intros Hle. unfold indicesFromTo.
  replace (Z.to_nat (last - first + 1)) with (S (Z.to_nat (last - (first + 1) + 1)))
    by lia.
  rewrite <- cons_seq, <- seq_shift. cbn [map Z.of_nat].
  rewrite map_map, Z.add_0_r. f_equal. apply map_ext. intros k. lia.
Qed.

Lemma nearestBinary64_exact (n : Z) :
  (- 2 ^ 53 <= n <= 2 ^ 53)%Z -> nearestBinary64 n = n.
Proof.
  intros Hn. unfold nearestBinary64. cbv zeta.
  destruct (Z.leb_spec (Z.abs n) (2 ^ 53)) as [_|Hgt]; [reflexivity | lia].
Qed.

(** Where the counter is exact and fewer than 5000 indices are asked
    for, the loop ends and runs over all of them. *)
Lemma gridLoop_full (body : Z -> list CanvasOp) (startIndex endIndex : Z) :
  (- 2 ^ 53 <= startIndex)%Z ->
  (endIndex < 2 ^ 53)%Z ->
  (endIndex - startIndex < 5000)%Z ->
  forall (fuel : nat) (ix : Z),
    (startIndex <= ix <= endIndex + 1)%Z ->
    (endIndex - ix + 1 < Z.of_nat fuel)%Z ->
    gridLoop fuel startIndex endIndex ix body
    = Some (flat_map body (indicesFromTo ix endIndex)).
Proof.
  intros Hlo Hhi Hfew. induction fuel as [|fuel IH]; intros ix Hix Hb; [lia|].
  cbn [gridLoop].
  destruct (Z.leb_spec ix endIndex) as [Hle|Hgt]; cbn [andb].
  - rewrite (nearestBinary64_exact (ix - startIndex)) by lia.
    rewrite (nearestBinary64_exact (ix + 1)) by lia.
    destruct (Z.ltb_spec (ix - startIndex) 5000) as [Hlt|Hge]; [|lia].
    rewrite IH by lia.
    rewrite (indicesFromTo_cons ix) by exact Hle. reflexivity.
  - rewrite indicesFromTo_empty by lia. reflexivity.
Qed.

Lemma grid_index_span (lo hi span step : R) :
  0 < step ->
  hi - lo <= span ->
  span / step <= 500 ->
  (Zceil (hi / step) - Zfloor (lo / step) <= 501)%Z.
Proof.
  intros Hstep Hspan Hlines.
  pose proof (Zceil_bound (hi / step)) as Hc.
  pose proof (Zfloor_bound (lo / step)) as Hf.
  assert (Hdiff : (hi - lo) / step <= span / step).
  { apply Rmult_le_compat_r; [left; now apply Rinv_0_lt_compat | exact Hspan]. }
  assert (Hsplit : (hi - lo) / step = hi / step - lo / step) by (field; lra).
  assert (Hlt : IZR (Zceil (hi / step) - Zfloor (lo / step)) < IZR 502).
  { rewrite minus_IZR. lra. }
  apply lt_IZR in Hlt. lia.
Qed.

Lemma gridSteps_span (fuel : nat) (t : RenderTransform)
    (baseGridSize stepX stepY : R) :
  gridSteps fuel t baseGridSize = Some (stepX, stepY) ->
  let visible := computeVisibleWorldBounds t in
  0 < stepX /\ 0 < stepY
  /\ (Zceil (DxfBounds.maxX visible / stepX)
      - Zfloor (DxfBounds.minX visible / stepX) <= 501)%Z
  /\ (Zceil (DxfBounds.maxY visible / stepY)
      - Zfloor (DxfBounds.minY visible / stepY) <= 501)%Z.
Proof.
  intros Hsteps visible.
  unfold gridSteps in Hsteps. fold visible in Hsteps.
  destruct (normalizeGridStep fuel baseGridSize
              (Rmax (DxfBounds.maxX visible - DxfBounds.minX visible) 1e-6) 500)
    as [sx|] eqn:Hx; [|discriminate].
  destruct (normalizeGridStep fuel baseGridSize
              (Rmax (DxfBounds.maxY visible - DxfBounds.minY visible) 1e-6) 500)
    as [sy|] eqn:Hy; [|discriminate].
  injection Hsteps as <- <-.
  apply normalizeGridStep_some in Hx as (Hx0 & _ & Hxl).
  apply normalizeGridStep_some in Hy as (Hy0 & _ & Hyl).
  split; [lra|]. split; [lra|]. split.
  - eapply grid_index_span; [lra | apply Rmax_l | exact Hxl].
  - eapply grid_index_span; [lra | apply Rmax_l | exact Hyl].
Qed.

(** Where the counter is exact, a drawing loop over at most 502 indices
    ends and draws each of them. *)
Lemma gridLoop_counted (body : Z -> list CanvasOp) (first last : Z) (fuel : nat) :
  countedExactly first last ->
  (last - first <= 501)%Z ->
  (502 < fuel)%nat ->
  gridLoop fuel (nearestBinary64 first) (nearestBinary64 last)
           (nearestBinary64 first) body
  = Some (flat_map body (indicesFromTo first last)).
Proof.
  intros [Hfirst Hlast] Hspan Hfuel.
  rewrite (nearestBinary64_exact first) by exact Hfirst.
  rewrite (nearestBinary64_exact last) by lia.
  destruct (Z.le_gt_cases first (last + 1)) as [Hle|Hgt].
  - apply gridLoop_full; lia.
  - destruct fuel as [|fuel]; [lia|]. cbn [gridLoop].
    destruct (Z.leb_spec first last) as [Hle|_]; [lia|].
    rewrite indicesFromTo_empty by lia. reflexivity.
Qed.




Lemma gridSteps_returns (t : RenderTransform) (baseGridSize : R) :
  exists fuel0 : nat,
    forall fuel, (fuel0 <= fuel)%nat ->
      exists stepX stepY, gridSteps fuel t baseGridSize = Some (stepX, stepY).
Proof.
  set (visible := computeVisibleWorldBounds t).
  set (spanX := Rmax (DxfBounds.maxX visible - DxfBounds.minX visible) 1e-6).
  set (spanY := Rmax (DxfBounds.maxY visible - DxfBounds.minY visible) 1e-6).
  set (step0 := Rmax baseGridSize 1e-6).
  assert (Hpos : 0 < step0) by (unfold step0; pose proof (Rmax_r baseGridSize 1e-6); lra).
  destruct (enough_doublings step0 spanX 500 Hpos ltac:(lra)) as [nx Hnx].
  destruct (enough_doublings step0 spanY 500 Hpos ltac:(lra)) as [ny Hny].
  destruct (normalizeGridStep_loop_least nx step0 spanX 500 Hnx) as (kx & _ & Hkx & _).
  destruct (normalizeGridStep_loop_least ny step0 spanY 500 Hny) as (ky & _ & Hky & _).
  exists (S (kx + ky)). intros fuel Hfuel.
  unfold gridSteps, normalizeGridStep.
  fold visible spanX spanY step0.
  rewrite Hkx, Hky by lia. eexists. eexists. reflexivity.
Qed.

Lemma drawGrid_counted (fuel : nat) (t : RenderTransform)
    (baseGridSize stepX stepY : R) :
  gridSteps fuel t baseGridSize = Some (stepX, stepY) ->
  gridCountedExactly t stepX stepY ->
  (502 < fuel)%nat ->
  exists ops, drawGrid fuel t baseGridSize = Some ops.
Proof.
  intros Hsteps [HcX HcY] Hfuel.
  destruct (gridSteps_span fuel t baseGridSize stepX stepY Hsteps)
    as (_ & _ & HX & HY).
  unfold drawGrid. rewrite Hsteps. cbv zeta.
  rewrite !gridLoop_counted by assumption.
  eexists. reflexivity.
Qed.

(** X7. The two doubling loops of [drawGrid] always end: for every
    transform and base step there is a number of iterations from which
    on both steps are there.  The two drawing loops end, and the grid is
    drawn, where a binary64 counter steps through the grid indices one
    by one (between [-2^53] and [2^53]). *)
Theorem drawGrid_ends (t : RenderTransform) (baseGridSize : R) :
  exists fuel0 : nat,
    forall fuel, (fuel0 <= fuel)%nat ->
      exists stepX stepY,
        gridSteps fuel t baseGridSize = Some (stepX, stepY)
        /\ (gridCountedExactly t stepX stepY ->
            exists ops, drawGrid fuel t baseGridSize = Some ops).
Proof.
  destruct (gridSteps_returns t baseGridSize) as [fuel0 Hsteps].
  exists (Nat.max fuel0 503). intros fuel Hfuel.
  destruct (Hsteps fuel ltac:(lia)) as (stepX & stepY & Hs).
  exists stepX, stepY. split; [exact Hs|].
  intros Hcounted. eapply drawGrid_counted; [exact Hs | exact Hcounted | lia].
Qed.

(** X26. Beyond [2^53] a drawing loop of [drawGrid] can stall: when
    adding 1 leaves the counter as it is while the index is not past the
    last one and fewer than 5000 steps were counted, the loop never
    ends. *)
Theorem grid_loop_stalls_beyond_2_53
    (body : Z -> list CanvasOp) (startIndex endIndex ix : Z) :
  nearestBinary64 (ix + 1) = ix ->
  (ix <= endIndex)%Z ->
  (nearestBinary64 (ix - startIndex) < 5000)%Z ->
  forall fuel : nat, gridLoop fuel startIndex endIndex ix body = None.
Proof.
  intros Hstall Hle Hguard fuel.
  induction fuel as [|fuel IH]; [reflexivity|].
  cbn [gridLoop]. rewrite Hstall, IH.
  destruct (Z.leb_spec ix endIndex) as [_|Hgt]; [|lia].
  destruct (Z.ltb_spec (nearestBinary64 (ix - startIndex)) 5000) as [_|Hge]; [|lia].
  reflexivity.
Qed.

(** X26 on a loop that starts at index 9999999999999998: the counter
    moves to 10^16 and stays there, two steps counted. *)
Lemma grid_loop_stalls_beyond_2_53_witness :
  nearestBinary64 (9999999999999998 + 1) = 10000000000000000%Z
  /\ nearestBinary64 (10000000000000000 + 1) = 10000000000000000%Z
  /\ nearestBinary64 (10000000000000000 - 9999999999999998) = 2%Z
  /\ forall fuel : nat,
       gridLoop fuel 9999999999999998 10000000000000100 10000000000000000
                (fun _ => []) = None.
Proof.
  split; [reflexivity|]. split; [reflexivity|]. split; [reflexivity|].
  apply (grid_loop_stalls_beyond_2_53 (fun _ => [])
           9999999999999998 10000000000000100 10000000000000000).
  - reflexivity.
  - lia.
  - vm_compute. reflexivity.
Defined.

End GridLines.

(** * The parser: what an entity is built from *)

Section ParserExtraction.
Import Types Js Parser Spec Props.

Lemma parseSimpleEntity_switch (groups : list DxfGroup) (i : nat) (g : DxfGroup) :
  nth_error groups i = Some g ->
  let next := skipBody (List.length groups - (i + 1)) groups (i + 1) in
  parseSimpleEntity groups i
  = mkResult (simpleEntityOf (value g) (slice groups (i + 1) next)) next.
Proof.
  intros Hi next. unfold parseSimpleEntity, simpleEntityOf. rewrite Hi. fold next.
  repeat match goal with
         | |- context [if ?b then _ else _] => destruct b
         end; reflexivity.
Qed.

(** X8. Inside the entities section, a simple entity is built from
    exactly the records between its marker and the next record of code
    0: the iteration appends what the fields of that body give (or
    nothing) and leaves the cursor on the record after the body,
    whatever precedes the marker and whatever follows the body. *)
Theorem simple_entity_reads_its_body_only
    (pre body post : list DxfGroup) (entityType : string) (es : list DxfEntity) :
  entityType <> "SECTION"%string ->
  entityType <> "ENDSEC"%string ->
  entityType <> "POLYLINE"%string ->
  Forall (fun g => code g <> 0%Z) body ->
  match post with [] => True | g :: _ => code g = 0%Z end ->
  walkStep (pre ++ mkGroup 0 entityType :: body ++ post)
           (mkState (List.length pre) true es)
  = Some (mkState (List.length pre + 1 + List.length body) true
                  (appendEntity es (simpleEntityOf entityType body))).
Proof.
  intros Hsec Hend Hpoly Hbody Hpost.
  set (marker := mkGroup 0 entityType).
  set (groups := pre ++ marker :: body ++ post).
  assert (Hi : nth_error groups (List.length pre) = Some marker)
    by apply nth_error_middle.
  assert (Hgroups : groups = (pre ++ [marker]) ++ body ++ post)
    by (unfold groups; rewrite <- app_assoc; reflexivity).
  assert (Hlen : List.length (pre ++ [marker]) = (List.length pre + 1)%nat)
    by (rewrite length_app; reflexivity).
  assert (Hskip : skipBody (List.length groups - (List.length pre + 1)) groups
                           (List.length pre + 1)
                  = (List.length pre + 1 + List.length body)%nat).
  { rewrite <- Hlen, Hgroups. apply skipBody_body; auto.
    rewrite !length_app. lia. }
  rewrite (walkStep_extract groups _ marker); cbn [cursor inEntitiesSection
    found code value]; try reflexivity; try assumption.
  unfold extract. change (value marker) with entityType.
  apply String.eqb_neq in Hpoly. rewrite Hpoly.
  rewrite (parseSimpleEntity_switch groups _ marker Hi). cbv zeta.
  rewrite Hskip. unfold pushEntity, appendEntity. cbn [entity nextIndex].
  change (value marker) with entityType.
  replace (slice groups (List.length pre + 1) (List.length pre + 1 + List.length body))
    with body; [reflexivity|].
  rewrite Hgroups, <- Hlen. symmetry. apply slice_body.
Qed.

Lemma parseNumber_small_integers :
  parseNumber "0" = Some 0 /\ parseNumber "10" = Some 10 /\ parseNumber "5" = Some 5.
Proof.
  unfold parseNumber, Number_parseFloat.
  repeat match goal with
         | |- context [scanDecimal ?s] =>
             let v := eval vm_compute in (scanDecimal s) in
             change (scanDecimal s) with v
         end.
  cbn [scale10]. auto.
Qed.

(** X8 on a LINE from (0,0) to (10,5) between a section header and an
    ENDSEC record. *)
Lemma simple_entity_reads_its_body_only_witness :
  let pre := [mkGroup 0 "SECTION"; mkGroup 2 "ENTITIES"] in
  let body := [mkGroup 10 "0"; mkGroup 20 "0"; mkGroup 11 "10"; mkGroup 21 "5"] in
  let post := [mkGroup 0 "ENDSEC"] in
  walkStep (pre ++ mkGroup 0 "LINE" :: body ++ post) (mkState 2 true [])
  = Some (mkState 7 true (appendEntity [] (simpleEntityOf "LINE" body))).
Proof.
  cbv zeta.
  apply (simple_entity_reads_its_body_only
           [mkGroup 0 "SECTION"; mkGroup 2 "ENTITIES"]
           [mkGroup 10 "0"; mkGroup 20 "0"; mkGroup 11 "10"; mkGroup 21 "5"]
           [mkGroup 0 "ENDSEC"] "LINE" []);
    try discriminate; try reflexivity.
  repeat constructor; discriminate.
Defined.

(** *** At most one entity for each record of code 0 *)

Lemma codeZeroCount_firstn_le (groups : list DxfGroup) :
  forall n, (codeZeroCount (firstn n groups) <= codeZeroCount groups)%nat.
Proof.
  unfold codeZeroCount.
  induction groups as [|g groups IH]; intros [|n]; cbn [firstn filter List.length];
    try lia.
  specialize (IH n). destruct (code g =? 0)%Z; cbn [List.length]; lia.
Qed.

Lemma codeZeroCount_firstn_step (groups : list DxfGroup) :
  forall n n' g,
    nth_error groups n = Some g ->
    code g = 0%Z ->
    (n < n')%nat ->
    (codeZeroCount (firstn n groups) + 1 <= codeZeroCount (firstn n' groups))%nat.
Proof.
  unfold codeZeroCount.
  induction groups as [|a groups IH]; intros n n' g Hn Hg Hlt.
  - destruct n; discriminate.
  - destruct n' as [|n']; [lia|]. destruct n as [|n]; cbn [firstn filter List.length].
    + injection Hn as ->. apply Z.eqb_eq in Hg. rewrite Hg. cbn [List.length]. lia.
    + cbn [nth_error] in Hn. specialize (IH n n' g Hn Hg ltac:(lia)).
      destruct (code a =? 0)%Z; cbn [List.length]; lia.
Qed.

Lemma codeZeroCount_firstn_mono (groups : list DxfGroup) :
  forall n n', (n <= n')%nat ->
    (codeZeroCount (firstn n groups) <= codeZeroCount (firstn n' groups))%nat.
Proof.
  unfold codeZeroCount.
  induction groups as [|a groups IH]; intros n n' Hle.
  - now rewrite !firstn_nil.
  - destruct n as [|n]; [cbn; lia|]. destruct n' as [|n']; [lia|].
    cbn [firstn filter]. specialize (IH n n' ltac:(lia)).
    destruct (code a =? 0)%Z; cbn [List.length]; lia.
Qed.

Lemma pushEntity_length (es : list DxfEntity) (parsed : EntityParseResult) :
  (List.length (pushEntity es parsed) <= List.length es + 1)%nat.
Proof.
  unfold pushEntity. destruct (entity parsed); [rewrite length_app; cbn|]; lia.
Qed.

Lemma walkStep_counts (groups : list DxfGroup) (st st' : WalkState) :
  walkStep groups st = Some st' ->
  (List.length (found st) <= codeZeroCount (firstn (cursor st) groups))%nat ->
  (List.length (found st') <= codeZeroCount (firstn (cursor st') groups))%nat.
Proof.
  intros Hstep Hinv.
  pose proof (walkStep_progress groups st st' Hstep) as Hlt.
  pose proof (codeZeroCount_firstn_mono groups (cursor st) (cursor st') ltac:(lia)).
  unfold walkStep in Hstep.
  destruct (nth_error groups (cursor st)) as [group|] eqn:Hi; [|discriminate].
  destruct (_ && String.eqb (value group) "SECTION");
    [injection Hstep as <-; cbn [found cursor] in *; lia|].
  destruct (_ && String.eqb (value group) "ENDSEC");
    [injection Hstep as <-; cbn [found cursor] in *; lia|].
  destruct (inEntitiesSection st); cbn [negb orb] in Hstep;
    [|injection Hstep as <-; cbn [found cursor] in *; lia].
  destruct (Z.eqb_spec (code group) 0) as [Hc|Hc]; cbn [negb] in Hstep;
    [|injection Hstep as <-; cbn [found cursor] in *; lia].
  pose proof (codeZeroCount_firstn_step groups (cursor st) (cursor st') group Hi Hc Hlt).
  destruct (String.eqb (value group) "POLYLINE"); injection Hstep as <-;
    cbn [found cursor] in *;
    match goal with |- (List.length (pushEntity ?es ?p) <= _)%nat =>
      pose proof (pushEntity_length es p) end; lia.
Qed.

Lemma walk_counts (variant : nat) (groups : list DxfGroup) :
  forall st,
    (List.length (found st) <= codeZeroCount (firstn (cursor st) groups))%nat ->
    (List.length (found (walk variant groups st)) <= codeZeroCount groups)%nat.
Proof.
  induction variant as [|variant IH]; intros st Hinv; cbn [walk].
  - pose proof (codeZeroCount_firstn_le groups (cursor st)). lia.
  - destruct (walkStep groups st) as [st'|] eqn:Hstep.
    + apply IH. eapply walkStep_counts; eauto.
    + pose proof (codeZeroCount_firstn_le groups (cursor st)). lia.
Qed.

(** X9. The document never has more entities than the input has records
    of code 0: each entity uses up at least the marker it starts at. *)
Theorem at_most_one_entity_per_marker (raw : string) :
  (List.length (entities (parseDxf raw)) <= codeZeroCount (parseGroups raw))%nat.
Proof.
  unfold parseDxf. cbn [entities]. apply walk_counts. cbn. lia.
Qed.

End ParserExtraction.

(** * The parser: compact polylines and line endings *)

Section ParserText.
Import Types Js Parser Spec Props.

Lemma lwPolyline_header (header : list DxfGroup) :
  Forall (fun g => code g <> 10%Z) header ->
  fold_left lwPolylineStep header ([], None) = ([], None).
Proof.
  induction 1 as [|g header Hg _ IH]; cbn [fold_left]; [reflexivity|].
  unfold lwPolylineStep at 2. apply Z.eqb_neq in Hg. rewrite Hg. exact IH.
Qed.

Lemma lwPolyline_pairs (texts : list (string * string)) :
  forall (pts acc : list DxfPoint),
    Forall2 readsAs texts pts ->
    fold_left lwPolylineStep (pairRecords texts) (acc, None) = (acc ++ pts, None).
Proof.
  induction texts as [|[tx ty] texts IH]; intros pts acc Hread;
    inversion Hread as [|? p ? pts' [Hx Hy] Hrest]; subst.
  - cbn. now rewrite app_nil_r.
  - cbn [pairRecords flat_map app fold_left fst snd] in *.
    unfold lwPolylineStep at 3. cbn [code value Z.eqb Pos.eqb]. rewrite Hx.
    unfold lwPolylineStep at 2. cbn [code value Z.eqb Pos.eqb]. rewrite Hy.
    fold (pairRecords texts). rewrite (IH pts' _ Hrest), <- app_assoc.
    destruct p. reflexivity.
Qed.

Lemma readNumber_app_skip (header rest : list DxfGroup) (c : Z) :
  Forall (fun g => code g <> c) rest ->
  readNumber (header ++ rest) c = readNumber header c.
Proof.
  intros Hrest. induction header as [|g header IH]; cbn [app readNumber].
  - apply readNumber_missing, Hrest.
  - destruct (code g =? c)%Z; [reflexivity | exact IH].
Qed.

Lemma pairRecords_codes (texts : list (string * string)) :
  Forall (fun g => code g <> 70%Z) (pairRecords texts).
Proof.
  induction texts as [|t texts IH]; cbn; repeat constructor; auto; discriminate.
Qed.

Lemma land_1_odd (z : Z) : (Z.land z 1 =? 1)%Z = Z.odd z.
Proof.
  change (Z.land z 1) with (Z.land z (Z.ones 1)).
  rewrite Z.land_ones by lia. change (2 ^ 1)%Z with 2%Z.
  rewrite Zmod_odd. destruct (Z.odd z); reflexivity.
Qed.

(** X10. A compact polyline whose body is a header without code-10
    records followed by one code-10 and one code-20 record for each
    vertex, all readable, gives back the vertices in their order; it is
    dropped when there are fewer than two, and it is closed exactly when
    the integer part of the flags field of the header (0 when absent) is
    odd. *)
Theorem compact_polyline_round_trip
    (header : list DxfGroup) (texts : list (string * string)) (pts : list DxfPoint) :
  Forall (fun g => code g <> 10%Z) header ->
  Forall2 readsAs texts pts ->
  let flags := match readNumber header 70 with Some f => f | None => 0 end in
  lwPolylineVertices (header ++ pairRecords texts) = pts
  /\ parseLwPolyline (header ++ pairRecords texts)
     = if (List.length pts <? 2)%nat then None
       else Some (mkPolyline pts (Z.odd (Math_trunc flags))).
Proof.
  intros Hheader Hread flags.
  assert (Hv : fst (fold_left lwPolylineStep (header ++ pairRecords texts) ([], None))
               = pts).
  { rewrite fold_left_app, (lwPolyline_header header Hheader).
    rewrite (lwPolyline_pairs texts pts [] Hread). reflexivity. }
  split; [exact Hv|].
  unfold parseLwPolyline. rewrite Hv.
  rewrite (readNumber_app_skip header _ 70 (pairRecords_codes texts)). fold flags.
  destruct (List.length pts <? 2)%nat; [reflexivity|]. do 2 f_equal.
  apply land_1_odd.
Qed.

(** X10 on the vertices (0,0) and (10,5) after a flags field that does
    not read as a number. *)
Lemma compact_polyline_round_trip_witness :
  let header := [mkGroup 70 "closed"] in
  let texts := [("0", "0"); ("10", "5")]%string in
  let pts := [mkPoint 0 0; mkPoint 10 5] in
  Forall (fun g => code g <> 10%Z) header
  /\ Forall2 readsAs texts pts
  /\ lwPolylineVertices (header ++ pairRecords texts) = pts.
Proof.
  cbv zeta.
  assert (H1 : Forall (fun g => code g <> 10%Z) [mkGroup 70 "closed"])
    by (repeat constructor; discriminate).
  assert (H2 : Forall2 readsAs [("0", "0"); ("10", "5")]%string
                 [mkPoint 0 0; mkPoint 10 5]).
  { destruct parseNumber_small_integers as (H0 & H10 & H5).
    repeat constructor; assumption. }
  split; [exact H1|]. split; [exact H2|].
  exact (proj1 (compact_polyline_round_trip _ _ _ H1 H2)).
Defined.

(** *** Line endings *)

Lemma includes_cons_false (c d : ascii) (s : string) :
  includes (String c s) d = false -> Ascii.eqb c d = false /\ includes s d = false.
Proof. cbn [includes]. apply orb_false_elim. Qed.

Lemma replaceCRLF_cons_other (c : ascii) (s : string) :
  Ascii.eqb c CR = false -> replaceCRLF (String c s) = String c (replaceCRLF s).
Proof.
  intros Hc. cbn [replaceCRLF]. rewrite Hc. cbn [andb].
  destruct s; reflexivity.
Qed.

Lemma replaceCRLF_lone_CR (s : string) :
  noLeadingLF s -> replaceCRLF (String CR s) = String CR (replaceCRLF s).
Proof.
  intros Hs. destruct s as [|c s]; [reflexivity|].
  cbn [noLeadingLF] in Hs. cbn [replaceCRLF]. rewrite Hs, andb_false_r. reflexivity.
Qed.

Lemma replaceCRLF_app (l s : string) :
  includes l CR = false ->
  replaceCRLF (l ++ s) = (l ++ replaceCRLF s)%string.
Proof.
  induction l as [|c l IH]; intros Hl; [reflexivity|].
  apply includes_cons_false in Hl as [Hc Hl].
  cbn [String.append]. rewrite replaceCRLF_cons_other by exact Hc.
  now rewrite IH.
Qed.

Lemma replaceCR_app (l s : string) :
  includes l CR = false ->
  replaceCR (l ++ s) = (l ++ replaceCR s)%string.
Proof.
  induction l as [|c l IH]; intros Hl; [reflexivity|].
  apply includes_cons_false in Hl as [Hc Hl].
  cbn [String.append replaceCR]. rewrite Hc. now rewrite IH.
Qed.

Lemma split_app (l s : string) :
  includes l LF = false ->
  split (l ++ String LF s) LF = l :: split s LF.
Proof.
  induction l as [|c l IH]; intros Hl.
  - cbn [String.append split]. now rewrite Ascii.eqb_refl.
  - apply includes_cons_false in Hl as [Hc Hl].
    cbn [String.append split]. rewrite Hc, (IH Hl). reflexivity.
Qed.

Lemma split_single (l : string) :
  includes l LF = false -> split l LF = [l].
Proof.
  induction l as [|c l IH]; intros Hl; [reflexivity|].
  apply includes_cons_false in Hl as [Hc Hl].
  cbn [split]. rewrite Hc, (IH Hl). reflexivity.
Qed.

Lemma append_empty (l : string) : (l ++ "")%string = l.
Proof. induction l as [|c l IH]; cbn; [|rewrite IH]; reflexivity. Qed.

Lemma noLeadingLF_app (l s : string) :
  includes l LF = false -> noLeadingLF s -> noLeadingLF (l ++ s).
Proof.
  intros Hl Hs. destruct l as [|c l]; [exact Hs|].
  apply includes_cons_false in Hl as [Hc _]. exact Hc.
Qed.

Lemma concat_CR_noLeadingLF (lines : list string) :
  Forall noLineBreak lines ->
  noLeadingLF (String.concat (String CR EmptyString) lines).
Proof.
  intros Hlines. destruct Hlines as [|l lines [_ Hl] Hrest]; [exact I|].
  destruct lines as [|l2 lines]; cbn [String.concat].
  - rewrite <- (append_empty l). apply noLeadingLF_app; [exact Hl | exact I].
  - apply noLeadingLF_app; [exact Hl | reflexivity].
Qed.

(** The lines of a text, whatever joins them. *)
Lemma split_normalised_lines (lines : list string) :
  lines <> [] ->
  Forall noLineBreak lines ->
  split (replaceCR (replaceCRLF
           (String.concat (String CR (String LF EmptyString)) lines))) LF = lines
  /\ split (replaceCR (replaceCRLF
              (String.concat (String CR EmptyString) lines))) LF = lines
  /\ split (replaceCR (replaceCRLF
              (String.concat (String LF EmptyString) lines))) LF = lines.
Proof.
  intros Hne Hlines. induction Hlines as [|l lines [Hcr Hlf] Hrest IH]; [contradiction|].
  destruct lines as [|l2 lines].
  - cbn [String.concat].
    assert (Hl : split (replaceCR (replaceCRLF l)) LF = [l]).
    { rewrite <- (append_empty l) at 1.
      rewrite replaceCRLF_app, replaceCR_app by exact Hcr.
      cbn [replaceCRLF replaceCR]. rewrite append_empty. apply split_single, Hlf. }
    auto.
  - destruct (IH ltac:(discriminate)) as (IH1 & IH2 & IH3).
    pose proof (concat_CR_noLeadingLF (l2 :: lines) Hrest) as Hlead.
    cbn [String.concat] in *. cbn [String.append].
    repeat split.
    + rewrite replaceCRLF_app by exact Hcr.
      change (replaceCRLF (String CR (String LF ?t)))
        with (String LF (replaceCRLF t)).
      rewrite replaceCR_app by exact Hcr.
      change (replaceCR (String LF ?t)) with (String LF (replaceCR t)).
      rewrite split_app by exact Hlf. f_equal. exact IH1.
    + rewrite replaceCRLF_app by exact Hcr.
      rewrite replaceCRLF_lone_CR by exact Hlead.
      rewrite replaceCR_app by exact Hcr.
      change (replaceCR (String CR ?t)) with (String LF (replaceCR t)).
      rewrite split_app by exact Hlf. f_equal. exact IH2.
    + rewrite replaceCRLF_app by exact Hcr.
      rewrite replaceCRLF_cons_other by reflexivity.
      rewrite replaceCR_app by exact Hcr.
      change (replaceCR (String LF ?t)) with (String LF (replaceCR t)).
      rewrite split_app by exact Hlf. f_equal. exact IH3.
Qed.

(** X11. The records do not depend on the line-ending convention: lines
    that hold no line break, joined by CR LF, by CR or by LF, give the
    same records, those of the lines taken two by two. *)
Theorem records_independent_of_line_endings (lines : list string) :
  Forall noLineBreak lines ->
  parseGroups (String.concat (String CR (String LF EmptyString)) lines)
  = parseGroups_loop lines
  /\ parseGroups (String.concat (String CR EmptyString) lines)
     = parseGroups_loop lines
  /\ parseGroups (String.concat (String LF EmptyString) lines)
     = parseGroups_loop lines.
Proof.
  intros Hlines. destruct lines as [|l lines]; [repeat split; reflexivity|].
  destruct (split_normalised_lines (l :: lines) ltac:(discriminate) Hlines)
    as (H1 & H2 & H3).
  unfold parseGroups. cbv zeta. rewrite H1, H2, H3. auto.
Qed.

(** X11 on the four lines of a section header. *)
Lemma records_independent_of_line_endings_witness :
  let lines := ["0"; "SECTION"; "2"; "ENTITIES"]%string in
  Forall noLineBreak lines
  /\ parseGroups (String.concat (String CR (String LF EmptyString)) lines)
     = parseGroups_loop lines.
Proof.
  cbv zeta.
  assert (H : Forall noLineBreak ["0"; "SECTION"; "2"; "ENTITIES"]%string)
    by (repeat constructor).
  split; [exact H|].
  exact (proj1 (records_independent_of_line_endings _ H)).
Defined.

End ParserText.

(** * The picture is a scaled copy of the drawing *)

Section Similarity.
Import Types Js Renderer Drawing Spec Props.

Lemma toScreen_distance (t : RenderTransform) (p q : DxfPoint) :
  sqDistance (toScreen p t) (toScreen q t)
  = (baseScale t * zoom t) * (baseScale t * zoom t) * sqDistance p q.
Proof.
  unfold sqDistance, toScreen, applyViewport, worldToBase. cbn [x y]. ring.
Qed.

(** X12. [toScreen] multiplies every distance by [baseScale * zoom]:
    the picture is a scaled copy of the drawing, whatever the fields
    of the transform. *)
Theorem toScreen_scales_distances (t : RenderTransform) (p q : DxfPoint) :
  sqDistance (toScreen p t) (toScreen q t)
  = (baseScale t * zoom t) * (baseScale t * zoom t) * sqDistance p q.
Proof.
  assert (Hx : x (toScreen p t) - x (toScreen q t)
               = baseScale t * zoom t * (x p - x q))
    by (unfold toScreen, applyViewport, worldToBase; cbn [x y]; ring).
  assert (Hy : y (toScreen p t) - y (toScreen q t)
               = - (baseScale t * zoom t * (y p - y q)))
    by (unfold toScreen, applyViewport, worldToBase; cbn [x y]; ring).
  unfold sqDistance. rewrite Hx, Hy. ring.
Qed.

Lemma circle_point_distance (c : DxfPoint) (r a : R) :
  sqDistance {| x := x c + r * cos a; y := y c + r * sin a |} c = r * r.
Proof.
  unfold sqDistance. cbn [x y].
  replace ((x c + r * cos a - x c) * (x c + r * cos a - x c)
           + (y c + r * sin a - y c) * (y c + r * sin a - y c))
    with (r * r * (Rsqr (sin a) + Rsqr (cos a))) by (unfold Rsqr; ring).
  rewrite sin2_cos2. ring.
Qed.

(** X13. The circle that [drawCircle] hands to the context is the image
    of the entity's circle: every point of the entity lands at the
    drawn radius from the drawn centre.  With a transform made by
    [createTransform] the drawn radius of a circle of positive radius is
    positive. *)
Theorem circle_drawn_as_its_image (e : DxfCircleEntity) (bounds : DxfBounds.t)
    (width height pad : R) (vp : DxfViewport.t) :
  let t := createTransform bounds width height pad vp in
  exists (c : DxfPoint) (r : R),
    drawCircle e t
    = [Path BeginPath; Arc (x c) (y c) r 0 (PI * 2); Path Stroke]
    /\ (forall a, sqDistance (toScreen (circlePointAt e a) t) c = r * r)
    /\ (0 < circleRadius e -> 0 < r).
Proof.
  intros t.
  exists (toScreen (circleCenter e) t), (circleRadius e * baseScale t * zoom t).
  split; [reflexivity|]. split.
  - intros a. rewrite toScreen_distance.
    unfold circlePointAt. rewrite circle_point_distance. ring.
  - intros Hr.
    pose proof (createTransform_baseScale_pos bounds width height pad vp) as Hb.
    pose proof (createTransform_zoom_pos bounds width height pad vp) as Hz.
    fold t in Hb, Hz.
    apply Rmult_lt_0_compat; [apply Rmult_lt_0_compat|]; assumption.
Qed.

(** X14. Every vertex of the polygon that [drawArc] strokes lies on the
    image of the arc's circle: at [radius * baseScale * zoom] from the
    image of the centre. *)
Theorem arc_vertices_on_the_image_circle (e : DxfArcEntity) (t : RenderTransform)
    (op : CanvasOp) (p : DxfPoint) :
  In op (drawArc e t) ->
  penPoint op = Some p ->
  sqDistance p (toScreen (center e) t)
  = (radius e * baseScale t * zoom t) * (radius e * baseScale t * zoom t).
Proof.
  intros Hin Hpen. unfold drawArc in Hin. cbv zeta in Hin.
  apply in_app_or in Hin as [Hin | Hin].
  { destruct Hin as [<- | []]. discriminate. }
  apply in_app_or in Hin as [Hin | Hin].
  2:{ destruct Hin as [<- | []]. discriminate. }
  apply in_map_iff in Hin as (i & Hop & _).
  set (w := arcWorldPoint e _ _ _ _) in Hop.
  assert (Hp : p = toScreen w t).
  { destruct (Nat.eqb i 0); subst op; cbn [penPoint] in Hpen;
      injection Hpen as <-; reflexivity. }
  rewrite Hp, toScreen_distance.
  unfold w, arcWorldPoint. cbv zeta. rewrite circle_point_distance. ring.
Qed.

(** X14 on the quarter arc around the origin. *)
Lemma arc_vertices_on_the_image_circle_witness :
  let e := mkArc {| x := 0; y := 0 |} 1 0 90 in
  let t := createTransform (DxfBounds.mk 0 0 1 1) 100 100 0 DEFAULT_VIEWPORT in
  sqDistance (toScreen (arcWorldPoint e (degToRad 0)
                          (computeCounterClockwiseSweep 0 90)
                          (arcSegments (computeCounterClockwiseSweep 0 90)) 0) t)
             (toScreen (center e) t)
  = (radius e * baseScale t * zoom t) * (radius e * baseScale t * zoom t).
Proof.
  cbv zeta.
  eapply arc_vertices_on_the_image_circle with
    (op := MoveTo _ _).
  - unfold drawArc. cbv zeta. cbn [startAngleDeg endAngleDeg].
    apply in_or_app. right. apply in_or_app. left.
    apply in_map_iff. exists 0%nat. split; [reflexivity|].
    apply in_seq. lia.
  - reflexivity.
Defined.

(** X15. The centre of the bounds is drawn at the centre of the canvas
    displaced by the pan, whatever the zoom and the padding, when the
    bounds are at least [1e-6] wide and high. *)
Theorem bounds_centre_at_canvas_centre (bounds : DxfBounds.t)
    (width height pad : R) (vp : DxfViewport.t) :
  1e-6 <= DxfBounds.maxX bounds - DxfBounds.minX bounds ->
  1e-6 <= DxfBounds.maxY bounds - DxfBounds.minY bounds ->
  toScreen (boundsCentre bounds) (createTransform bounds width height pad vp)
  = {| x := width / 2 + DxfViewport.panX vp;
       y := height / 2 + DxfViewport.panY vp |}.
Proof.
  intros Hw Hh.
  unfold toScreen, applyViewport, worldToBase, boundsCentre, createTransform.
  cbv zeta. cbn [x y baseScale offsetX offsetY minX minY canvasWidth canvasHeight
                 centerX centerY zoom panX panY Number_isFinite].
  rewrite (Rmax_left (DxfBounds.maxX bounds - DxfBounds.minX bounds) 1e-6) by lra.
  rewrite (Rmax_left (DxfBounds.maxY bounds - DxfBounds.minY bounds) 1e-6) by lra.
  f_equal; field.
Qed.

(** X15 on a drawing 40 wide and 20 high, zoomed and panned. *)
Lemma bounds_centre_at_canvas_centre_witness :
  toScreen (boundsCentre (DxfBounds.mk 0 0 40 20))
           (createTransform (DxfBounds.mk 0 0 40 20) 800 600 24
                            (DxfViewport.mk 2 5 (-3)))
  = {| x := 800 / 2 + 5; y := 600 / 2 + (-3) |}.
Proof.
  apply (bounds_centre_at_canvas_centre (DxfBounds.mk 0 0 40 20) 800 600 24
           (DxfViewport.mk 2 5 (-3))); cbn; lra.
Defined.

End Similarity.

(** * The view: zooming, panning and measuring *)

Section ViewEvents.
Import Types Js Parser Renderer Spec Props DxfView.

Lemma Math_round_IZR (n : Z) : Math_round (IZR n) = IZR n.
Proof.
  unfold Math_round. f_equal. apply Zfloor_eq. lra.
Qed.

Lemma canvas_side (side : R) (n : Z) :
  side = IZR n -> (10 <= n)%Z -> Rmax 10 (Math_round side) = side.
Proof.
  intros -> Hn. rewrite Math_round_IZR. apply Rmax_right.
  apply (IZR_le 10 n Hn).
Qed.

Lemma view_clamp_bounds (value : R) :
  0.02 <= DxfView.clamp value 0.02 200 <= 200.
Proof.
  unfold DxfView.clamp. split.
  - apply Rmin_glb; [lra | apply Rmax_l].
  - apply Rmin_l.
Qed.

Lemma clamp_inside (value lo hi : R) :
  lo <= value <= hi -> Renderer.clamp value lo hi = value.
Proof.
  intros H. unfold Renderer.clamp.
  rewrite (Rmax_right lo value) by lra. apply Rmin_right. lra.
Qed.

(** X16. Zooming with the wheel keeps the drawing fixed under the
    cursor: when the canvas is at least 10 pixels wide and high and the
    zoom is within its limits, the point of the drawing under the cursor
    is the same before and after [zoomAt], and the new zoom is within
    the limits again. *)
Theorem zoomAt_keeps_the_point_under_the_cursor
    (v : View) (canvas : CanvasElement) (w h : Z)
    (clientX clientY factor : R) (bounds : DxfBounds.t) (pad : R) :
  canvasEl v = Some canvas ->
  clientWidth (element canvas) = IZR w -> (10 <= w)%Z ->
  clientHeight (element canvas) = IZR h -> (10 <= h)%Z ->
  0.02 <= DxfViewport.zoom (viewport v) <= 200 ->
  let v' := zoomAt v clientX clientY factor in
  let cursor := {| x := fst (clientToCanvasPoint v clientX clientY);
                   y := snd (clientToCanvasPoint v clientX clientY) |} in
  0.02 <= DxfViewport.zoom (viewport v') <= 200
  /\ screenToWorld cursor (canvasTransform (element canvas) bounds pad (viewport v'))
     = screenToWorld cursor (canvasTransform (element canvas) bounds pad (viewport v)).
Proof.
  intros Hcanvas Hw Hw10 Hh Hh10 Hzoom. cbv zeta.
  unfold zoomAt, clientToCanvasPoint. rewrite Hcanvas. cbv zeta. cbn [fst snd].
  set (nextZoom := DxfView.clamp _ 0.02 200).
  pose proof (view_clamp_bounds (DxfViewport.zoom (viewport v) * factor)) as Hnext.
  fold nextZoom in Hnext.
  destruct (Rlt_dec (Rabs (nextZoom - DxfViewport.zoom (viewport v))) 1e-6).
  { split; [exact Hzoom | reflexivity]. }
  cbn [viewport withViewport DxfViewport.zoom]. split; [exact Hnext|].
  unfold canvasTransform.
  rewrite (canvas_side _ w Hw Hw10), (canvas_side _ h Hh Hh10).
  pose proof (createTransform_baseScale_pos bounds
                (clientWidth (element canvas)) (clientHeight (element canvas)) pad)
    as Hbase.
  unfold screenToWorld, createTransform in *. cbv zeta in *.
  cbn [x y baseScale offsetX offsetY minX minY canvasWidth canvasHeight
       centerX centerY zoom panX panY Number_isFinite
       DxfViewport.zoom DxfViewport.panX DxfViewport.panY] in *.
  rewrite (clamp_inside nextZoom) by exact Hnext.
  rewrite (clamp_inside (DxfViewport.zoom (viewport v))) by exact Hzoom.
  specialize (Hbase (viewport v)).
  set (baseScale := Rmax 1e-6 _) in *.
  f_equal; field; lra.
Qed.

(** X16 on an 800 by 600 canvas: doubling the zoom at client point
    (500, 120). *)
Lemma zoomAt_keeps_the_point_under_the_cursor_witness :
  let canvas := mkCanvasElement (mkCanvas 800 600) 10 20 in
  let v := onOpen (newView Settings.DEFAULT_SETTINGS) canvas in
  let bounds := DxfBounds.mk 0 0 40 20 in
  let v' := zoomAt v 500 120 2 in
  let cursor := {| x := fst (clientToCanvasPoint v 500 120);
                   y := snd (clientToCanvasPoint v 500 120) |} in
  0.02 <= DxfViewport.zoom (viewport v') <= 200
  /\ screenToWorld cursor (canvasTransform (element canvas) bounds 24 (viewport v'))
     = screenToWorld cursor (canvasTransform (element canvas) bounds 24 (viewport v)).
Proof.
  cbv zeta.
  apply (zoomAt_keeps_the_point_under_the_cursor
           (onOpen (newView Settings.DEFAULT_SETTINGS)
                   (mkCanvasElement (mkCanvas 800 600) 10 20))
           (mkCanvasElement (mkCanvas 800 600) 10 20) 800 600 500 120 2
           (DxfBounds.mk 0 0 40 20) 24).
  - reflexivity.
  - reflexivity.
  - lia.
  - reflexivity.
  - lia.
  - cbn. lra.
Defined.

Lemma updateHoverVertex_keeps (v : View) (clientX clientY : R) :
  let v' := updateHoverVertex v clientX clientY in
  viewport v' = viewport v
  /\ isPanning v' = isPanning v
  /\ pointerDragged v' = pointerDragged v
  /\ activePointerId v' = activePointerId v
  /\ pointerDownButton v' = pointerDownButton v
  /\ lastPointerX v' = lastPointerX v
  /\ lastPointerY v' = lastPointerY v
  /\ canvasEl v' = canvasEl v
  /\ parsedDocument v' = parsedDocument v
  /\ rawData v' = rawData v
  /\ measureModeEnabled v' = measureModeEnabled v
  /\ measureStart v' = measureStart v
  /\ measureEnd v' = measureEnd v.
Proof.
  cbv zeta. unfold updateHoverVertex.
  destruct (measureModeEnabled v) eqn:Hmode; [|repeat split; auto].
  destruct (parsedDocument v) eqn:Hdoc; [|repeat split; auto].
  destruct (samePoint _ _); repeat split; auto.
Qed.

(** X17. Dragging moves the picture with the pointer: on a pointer move
    of the pointer that is being dragged, the image of every point of
    the drawing moves by the displacement of the pointer since the last
    event, and that position is remembered for the next one. *)
Theorem drag_moves_the_picture_with_the_pointer
    (v : View) (pointerId : Z) (clientX clientY : R)
    (canvas : HTMLCanvasElement) (bounds : DxfBounds.t) (pad : R) (p : DxfPoint) :
  isPanning v = true ->
  activePointerId v = Some pointerId ->
  pointerDragged v = true ->
  let v' := onPointerMove v pointerId clientX clientY in
  let before := toScreen p (canvasTransform canvas bounds pad (viewport v)) in
  toScreen p (canvasTransform canvas bounds pad (viewport v'))
  = {| x := x before + (clientX - lastPointerX v);
       y := y before + (clientY - lastPointerY v) |}
  /\ lastPointerX v' = clientX /\ lastPointerY v' = clientY.
Proof.
  intros Hpan Hid Hdrag. cbv zeta. unfold onPointerMove. cbv zeta.
  destruct (updateHoverVertex_keeps v clientX clientY)
    as (Hvp & Hpan' & Hdrag' & Hid' & _ & HlastX & HlastY & _).
  cbv zeta in *.
  set (u := updateHoverVertex v clientX clientY) in *.
  rewrite Hpan', Hpan, Hid', Hid, Hdrag', Hdrag.
  unfold otherPointer. rewrite Z.eqb_refl. cbn [negb orb andb].
  cbn [viewport withViewport withPointer lastPointerX lastPointerY].
  rewrite Hvp, HlastX, HlastY.
  split; [|split; reflexivity].
  unfold canvasTransform, toScreen, applyViewport, worldToBase, createTransform.
  cbv zeta.
  cbn [x y baseScale offsetX offsetY minX minY canvasWidth canvasHeight
       centerX centerY zoom panX panY Number_isFinite
       DxfViewport.zoom DxfViewport.panX DxfViewport.panY].
  f_equal; ring.
Qed.

(** X17 on a drag from (100, 100) to (130, 90). *)
Lemma drag_moves_the_picture_with_the_pointer_witness :
  let canvas := mkCanvasElement (mkCanvas 800 600) 0 0 in
  let pressed := onPointerDown (onOpen (newView Settings.DEFAULT_SETTINGS) canvas)
                               0 1 100 100 in
  let v := onPointerMove pressed 1 110 100 in
  let v' := onPointerMove v 1 130 90 in
  let bounds := DxfBounds.mk 0 0 40 20 in
  let before := toScreen {| x := 5; y := 5 |}
                         (canvasTransform (element canvas) bounds 24 (viewport v)) in
  toScreen {| x := 5; y := 5 |}
           (canvasTransform (element canvas) bounds 24 (viewport v'))
  = {| x := x before + (130 - lastPointerX v);
       y := y before + (90 - lastPointerY v) |}
  /\ lastPointerX v' = 130 /\ lastPointerY v' = 90.
Proof.
  cbv zeta.
  assert (Hmove :
    onPointerMove
      (onPointerDown
         (onOpen (newView Settings.DEFAULT_SETTINGS)
                 (mkCanvasElement (mkCanvas 800 600) 0 0)) 0 1 100 100)
      1 110 100
    = withViewport
        (withPointer
           (onOpen (newView Settings.DEFAULT_SETTINGS)
                   (mkCanvasElement (mkCanvas 800 600) 0 0))
           true true (Some 1%Z) (Some 0%Z) 100 100 110 100)
        (DxfViewport.mk 1 (0 + (110 - 100)) (0 + (100 - 100)))).
  { unfold onPointerMove, onPointerDown, onOpen, updateHoverVertex.
    cbn -[Rlt_dec sqrt Rplus Rminus Rmult].
    destruct (Rlt_dec _ 3) as [Hlt|_]; [exfalso | reflexivity].
    replace ((110 - 100) * (110 - 100) + (100 - 100) * (100 - 100))
      with (Rsqr 10) in Hlt by (unfold Rsqr; ring).
    rewrite sqrt_Rsqr in Hlt by lra. lra. }
  rewrite Hmove.
  apply drag_moves_the_picture_with_the_pointer; reflexivity.
Defined.

(** *** What every reachable view satisfies *)

Lemma nearest_fold_in (t : RenderTransform) (sx sy : R) (vs : list DxfPoint) :
  forall (best : R * option DxfPoint) (p : DxfPoint),
    snd (fold_left (nearestStep t sx sy) vs best) = Some p ->
    snd best = Some p \/ In p vs.
Proof.
  induction vs as [|a vs IH]; intros best p H; cbn [fold_left] in H.
  - left. exact H.
  - apply IH in H as [H | H]; [|right; right; exact H].
    unfold nearestStep in H. cbv zeta in H.
    destruct (Rle_dec _ _); [|left; exact H].
    cbn [snd] in H. injection H as <-. right. left. reflexivity.
Qed.

Lemma findNearestVertex_in (canvas : HTMLCanvasElement) (document : DxfDocument)
    (options : DxfRenderOptions) (sx sy r : R) (p : DxfPoint) :
  findNearestVertex canvas document options sx sy r = Some p ->
  In p (collectVertices (entities document)).
Proof.
  unfold findNearestVertex. cbv zeta.
  destruct (createTransformForCanvas _ _ _ _); [|discriminate].
  intros H. apply nearest_fold_in in H as [H | H]; [discriminate | exact H].
Qed.

Lemma findNearestVertexAtClient_shown (v : View) (clientX clientY : R) :
  shownVertex v (findNearestVertexAtClient v clientX clientY).
Proof.
  unfold findNearestVertexAtClient.
  destruct (canvasEl v) as [canvas|] eqn:Hcanvas; [|exact I].
  destruct (parsedDocument v) as [document|] eqn:Hdoc; [|exact I].
  destruct (clientToCanvasPoint v clientX clientY) as [canvasX canvasY].
  destruct (findNearestVertex _ _ _ _ _ _) as [p|] eqn:Hp; [|exact I].
  exists document. split; [exact Hdoc|]. eapply findNearestVertex_in, Hp.
Qed.

Lemma shownVertex_same_document (v v' : View) (p : option DxfPoint) :
  parsedDocument v' = parsedDocument v -> shownVertex v p -> shownVertex v' p.
Proof.
  intros Hdoc. destruct p as [p|]; [|trivial].
  cbn [shownVertex]. rewrite Hdoc. trivial.
Qed.

(** The invariant speaks of the measurement, the document and the
    zoom: a handler that leaves them alone keeps it. *)
Lemma viewInvariant_same (v v' : View) :
  measureModeEnabled v' = measureModeEnabled v ->
  measureStart v' = measureStart v ->
  measureEnd v' = measureEnd v ->
  hoverVertex v' = hoverVertex v ->
  parsedDocument v' = parsedDocument v ->
  rawData v' = rawData v ->
  DxfViewport.zoom (viewport v') = DxfViewport.zoom (viewport v) ->
  viewInvariant v -> viewInvariant v'.
Proof.
  intros Hmode Hstart Hend Hhover Hdoc Hraw Hzoom
         (Hse & Hoff & Hs & He & Hh & Hparsed & Hz).
  unfold viewInvariant.
  rewrite Hmode, Hstart, Hend, Hhover, Hdoc, Hraw, Hzoom.
  repeat split; try assumption; try apply Hoff; try tauto;
    eapply shownVertex_same_document; eassumption.
Qed.

Lemma resetMeasurement_invariant (v : View) :
  parsedDocument v = reparsed (rawData v) ->
  0.02 <= DxfViewport.zoom (viewport v) <= 200 ->
  viewInvariant (resetMeasurement v).
Proof.
  intros Hparsed Hz. unfold viewInvariant, resetMeasurement.
  cbn [withMeasurement measureStart measureEnd hoverVertex measureModeEnabled
       parsedDocument rawData viewport shownVertex].
  repeat split; try assumption; try exact I; try tauto; lra.
Qed.

Lemma default_zoom_within : 0.02 <= DxfViewport.zoom createDefaultViewport <= 200.
Proof. cbn. lra. Qed.

Lemma reparseData_parsed (v : View) :
  reparseData v = withData v (rawData v) (reparsed (rawData v)).
Proof.
  unfold reparseData, reparsed. destruct (trim (rawData v)); reflexivity.
Qed.

Lemma setViewData_invariant (v : View) (data : string) :
  viewInvariant v -> viewInvariant (setViewData v data).
Proof.
  intros Hinv. unfold setViewData. cbv zeta. rewrite reparseData_parsed.
  destruct (String.eqb data (rawData v)) eqn:Hsame.
  - apply String.eqb_eq in Hsame. subst data.
    pose proof Hinv as (_ & _ & _ & _ & _ & Hparsed & _).
    apply (viewInvariant_same v); try reflexivity; [|exact Hinv].
    cbn [withData parsedDocument rawData]. symmetry. exact Hparsed.
  - unfold viewInvariant.
    cbn [withData withViewport withMeasurement resetMeasurement resetViewport
         measureStart measureEnd hoverVertex measureModeEnabled
         parsedDocument rawData viewport shownVertex].
    pose proof default_zoom_within.
    repeat split; try exact I; try tauto; lra.
Qed.

Lemma handleMeasurementClick_invariant (v : View) (clientX clientY : R) :
  viewInvariant v -> viewInvariant (handleMeasurementClick v clientX clientY).
Proof.
  intros Hinv. unfold handleMeasurementClick.
  destruct (measureModeEnabled v) eqn:Hmode; [|exact Hinv].
  destruct (canvasEl v) as [canvas|] eqn:Hcanvas; [|exact Hinv].
  destruct (parsedDocument v) as [document|] eqn:Hdoc; [|exact Hinv].
  pose proof (findNearestVertexAtClient_shown v clientX clientY) as Hshown.
  destruct (findNearestVertexAtClient v clientX clientY) as [nearest|];
    [|exact Hinv].
  destruct Hinv as (Hse & Hoff & Hs & He & Hh & Hparsed & Hz).
  assert (Hdoc' : forall s e h,
             parsedDocument (withMeasurement v s e h) = parsedDocument v)
    by reflexivity.
  destruct (measureStart v) as [start|] eqn:Hstart;
    [destruct (measureEnd v) as [end_|] eqn:Hend|];
    unfold viewInvariant;
    cbn [withMeasurement measureStart measureEnd hoverVertex measureModeEnabled
         rawData viewport];
    rewrite ?Hmode, ?Hstart;
    (split; [intros _; discriminate|]);
    (split; [intros; discriminate|]);
    repeat (split; [first [exact I
                          | eapply shownVertex_same_document;
                            [apply Hdoc' | first [exact Hshown | exact Hs]]]|]);
    (split; [cbn [withMeasurement parsedDocument]; exact Hparsed | exact Hz]).
Qed.

Lemma updateHoverVertex_invariant (v : View) (clientX clientY : R) :
  viewInvariant v -> viewInvariant (updateHoverVertex v clientX clientY).
Proof.
  intros Hinv. unfold updateHoverVertex.
  destruct (measureModeEnabled v) eqn:Hmode; [|exact Hinv].
  destruct (parsedDocument v) as [document|] eqn:Hdoc; [|exact Hinv].
  pose proof (findNearestVertexAtClient_shown v clientX clientY) as Hshown.
  destruct (samePoint _ _); [exact Hinv|].
  destruct Hinv as (Hse & Hoff & Hs & He & Hh & Hparsed & Hz).
  unfold viewInvariant.
  cbn [withMeasurement measureStart measureEnd hoverVertex measureModeEnabled
       rawData viewport parsedDocument].
  rewrite Hmode.
  split; [exact Hse|]. split; [intros; discriminate|].
  assert (Hdoc' : forall s e h,
             parsedDocument (withMeasurement v s e h) = parsedDocument v)
    by reflexivity.
  repeat (split; [eapply shownVertex_same_document;
                  [apply Hdoc' | first [exact Hs | exact He | exact Hshown]]|]).
  split; [exact Hparsed | exact Hz].
Qed.

Lemma zoomAt_invariant (v : View) (clientX clientY factor : R) :
  viewInvariant v -> viewInvariant (zoomAt v clientX clientY factor).
Proof.
  intros Hinv. unfold zoomAt.
  destruct (canvasEl v) as [canvas|]; [|exact Hinv]. cbv zeta.
  destruct (Rlt_dec _ _); [exact Hinv|].
  destruct Hinv as (Hse & Hoff & Hs & He & Hh & Hparsed & Hz).
  unfold viewInvariant.
  cbn [withViewport measureStart measureEnd hoverVertex measureModeEnabled
       rawData viewport parsedDocument DxfViewport.zoom].
  repeat (split; [first [exact Hse | exact Hoff | exact Hparsed
                        | eapply shownVertex_same_document;
                          [|first [exact Hs | exact He | exact Hh]];
                          reflexivity]|]).
  apply view_clamp_bounds.
Qed.

(** Each handler keeps the invariant. *)
Lemma handle_invariant (v : View) (event : Event) :
  viewInvariant v -> viewInvariant (handle v event).
Proof.
  intros Hinv. destruct event; cbn [handle].
  - apply setViewData_invariant, Hinv.
  - unfold clear. apply resetMeasurement_invariant; [reflexivity|].
    apply default_zoom_within.
  - unfold onOpen. rewrite reparseData_parsed.
    pose proof Hinv as (_ & _ & _ & _ & _ & Hparsed & _).
    apply (viewInvariant_same v); try reflexivity; [|exact Hinv].
    cbn [withData withCanvas parsedDocument rawData]. symmetry. exact Hparsed.
  - apply (viewInvariant_same v); try reflexivity. exact Hinv.
  - destruct (canvasEl v); [|exact Hinv].
    apply (viewInvariant_same v); try reflexivity. exact Hinv.
  - apply (viewInvariant_same v); try reflexivity. exact Hinv.
  - unfold toggleMeasureMode. cbv zeta.
    cbn [withMeasureMode measureModeEnabled].
    destruct Hinv as (Hse & Hoff & Hs & He & Hh & Hparsed & Hz).
    destruct (measureModeEnabled v) eqn:Hmode; cbn [negb].
    + apply resetMeasurement_invariant; assumption.
    + destruct (Hoff eq_refl) as (Hstart & Hend & Hhover).
      unfold viewInvariant.
      cbn [withMeasureMode measureStart measureEnd hoverVertex measureModeEnabled
           rawData viewport parsedDocument].
      rewrite Hstart, Hend, Hhover. cbn [shownVertex].
      repeat split; try exact I; try tauto; try discriminate; try assumption; lra.
  - unfold onPointerDown. destruct (canvasEl v); [|exact Hinv].
    destruct (_ && _); [exact Hinv|].
    apply (viewInvariant_same v); try reflexivity. exact Hinv.
  - unfold onPointerMove. cbv zeta.
    pose proof (updateHoverVertex_invariant v clientX clientY Hinv) as Hu.
    set (u := updateHoverVertex v clientX clientY) in *.
    destruct (_ || _); [exact Hu|].
    destruct (_ && _); [exact Hu|].
    apply (viewInvariant_same u); try reflexivity. exact Hu.
  - unfold onPointerUp. destruct (otherPointer _ _); [exact Hinv|].
    cbv zeta.
    destruct (_ && _).
    + apply (viewInvariant_same (handleMeasurementClick v clientX clientY));
        try reflexivity.
      apply handleMeasurementClick_invariant, Hinv.
    + apply (viewInvariant_same v); try reflexivity. exact Hinv.
  - unfold onPointerLeave.
    destruct (measureModeEnabled v) eqn:Hmode; cbn [negb]; [|exact Hinv].
    destruct (hoverVertex v) eqn:Hhover; [|exact Hinv].
    destruct Hinv as (Hse & Hoff & Hs & He & Hh & Hparsed & Hz).
    unfold viewInvariant.
    cbn [withMeasurement measureStart measureEnd hoverVertex measureModeEnabled
         rawData viewport parsedDocument].
    rewrite Hmode.
    split; [exact Hse|]. split; [intros; discriminate|].
    split; [eapply shownVertex_same_document; [|exact Hs]; reflexivity|].
    split; [eapply shownVertex_same_document; [|exact He]; reflexivity|].
    split; [exact I|]. split; assumption.
  - unfold onWheel. destruct (canvasEl v) eqn:Hcanvas; [|exact Hinv].
    destruct (_ || _).
    + cbv zeta. apply zoomAt_invariant, Hinv.
    + cbv zeta. apply (viewInvariant_same v); try reflexivity. exact Hinv.
  - unfold onDoubleClick, resetViewport.
    destruct Hinv as (Hse & Hoff & Hs & He & Hh & Hparsed & Hz).
    unfold viewInvariant.
    cbn [withViewport measureStart measureEnd hoverVertex measureModeEnabled
         rawData viewport parsedDocument].
    pose proof default_zoom_within.
    repeat (split; [first [exact Hse | exact Hoff | exact Hparsed
                          | eapply shownVertex_same_document;
                            [|first [exact Hs | exact He | exact Hh]];
                            reflexivity]|]).
    assumption.
Qed.

(** X18. Whatever happens to a view, from its creation on: a
    measurement has no end without a start; with the measure mode off
    nothing is selected or hovered; every selected or hovered point is a
    vertex of the document shown, which is the one parsed from the
    current text; and the zoom stays between 0.02 and 200. *)
Theorem view_invariant (settings : Settings.DxfViewerSettings)
    (events : list Event) :
  viewInvariant (run (newView settings) events).
Proof.
  unfold run.
  assert (Hnew : viewInvariant (newView settings)).
  { unfold viewInvariant, newView. cbn. repeat split; auto; try discriminate; lra. }
  revert Hnew. generalize (newView settings).
  induction events as [|event events IH]; intros v Hinv; cbn [fold_left].
  - exact Hinv.
  - apply IH, handle_invariant, Hinv.
Qed.

End ViewEvents.

(** * Settings and colours *)

Section SettingsAndColours.
Import Types Js Renderer Drawing Spec Props Settings.

Lemma settings_clamp_bounds (value lo hi : R) :
  lo <= hi -> lo <= Settings.clamp value lo hi <= hi.
Proof.
  intros H. unfold Settings.clamp. split.
  - apply Rmin_glb; [exact H | apply Rmax_l].
  - apply Rmin_l.
Qed.

Lemma isHexDigit_not_space (c : ascii) :
  isHexDigit c = true -> isWhiteSpace c = false.
Proof.
  destruct c as [[] [] [] [] [] [] [] []]; vm_compute; congruence.
Qed.

Lemma hexRun_not_space (s : string) :
  forall n, hexRun n s = true ->
            allChars (fun c => negb (isWhiteSpace c)) s = true.
Proof.
  induction s as [|c s IH]; intros n H; [reflexivity|].
  destruct n as [|n]; [discriminate|]. cbn [hexRun] in H.
  apply andb_prop in H as [Hc Hs]. cbn [allChars].
  rewrite (isHexDigit_not_space c Hc). cbn [negb andb]. exact (IH n Hs).
Qed.

Lemma trimEnd_no_space (s : string) :
  allChars (fun c => negb (isWhiteSpace c)) s = true -> trimEnd s = s.
Proof.
  induction s as [|c s IH]; intros H; [reflexivity|].
  cbn [allChars] in H. apply andb_prop in H as [Hc Hs].
  cbn [trimEnd]. rewrite (IH Hs).
  destruct s; [|reflexivity].
  apply negb_true_iff in Hc. rewrite Hc. reflexivity.
Qed.

Lemma trim_no_space (s : string) :
  allChars (fun c => negb (isWhiteSpace c)) s = true -> trim s = s.
Proof.
  intros H. unfold trim.
  assert (Hstart : trimStart s = s).
  { destruct s as [|c s]; [reflexivity|].
    cbn [allChars] in H. apply andb_prop in H as [Hc _].
    apply negb_true_iff in Hc. cbn [trimStart]. rewrite Hc. reflexivity. }
  rewrite Hstart. apply trimEnd_no_space, H.
Qed.

(** A string that passes the test of [sanitizeColor] is [#] followed by
    three or by six hexadecimal digits. *)
Lemma testHexColor_shape (c : string) :
  testHexColor c = true ->
  exists rest, c = String "#"%char rest
               /\ (hexRun 3 rest = true \/ hexRun 6 rest = true).
Proof.
  intros H. destruct c as [|h rest]; [discriminate|].
  destruct h as [[] [] [] [] [] [] [] []]; try discriminate.
  exists rest. split; [reflexivity|].
  cbn [testHexColor] in H. apply orb_prop in H. exact H.
Qed.

Lemma hex_colour_trim (n : nat) (rest : string) :
  hexRun n rest = true -> trim (String "#"%char rest) = String "#"%char rest.
Proof.
  intros H. apply trim_no_space. cbn [allChars].
  rewrite (hexRun_not_space rest n H). reflexivity.
Qed.

Lemma long_hex_normal (rest : string) :
  hexRun 6 rest = true ->
  normalizeHexColor (String "#"%char rest) = Some (String "#"%char rest).
Proof.
  intros H. unfold normalizeHexColor. cbv zeta.
  rewrite (hex_colour_trim 6 rest H).
  destruct rest as [|c1 [|c2 [|c3 [|c4 [|c5 [|c6 [|c7 rest]]]]]]];
    cbn [hexRun] in H; rewrite ?andb_false_r in H; try discriminate.
  cbn [execShortHex testLongHex hexRun].
  repeat (apply andb_prop in H as [?Hc H]).
  repeat match goal with Hd : isHexDigit _ = true |- _ => rewrite Hd; clear Hd end.
  reflexivity.
Qed.

Lemma hex_colour_normal (c : string) :
  testHexColor c = true ->
  exists r, normalizeHexColor c = Some r
            /\ testLongHex r = true
            /\ normalizeHexColor r = Some r.
Proof.
  intros H. apply testHexColor_shape in H as (rest & -> & [H3 | H6]).
  - pose proof (hex_colour_trim 3 rest H3) as Htrim.
    destruct rest as [|c1 [|c2 [|c3 [|c4 rest]]]];
      cbn [hexRun] in H3; rewrite ?andb_false_r in H3; try discriminate.
    assert (H6 : hexRun 6 (String c1 (String c1 (String c2 (String c2
                              (String c3 (String c3 EmptyString)))))) = true).
    { repeat (apply andb_prop in H3 as [?Hc H3]). cbn [hexRun].
      repeat match goal with Hd : isHexDigit _ = true |- _ => rewrite Hd; clear Hd end.
      reflexivity. }
    eexists. split; [|split; [|apply long_hex_normal, H6]].
    + unfold normalizeHexColor. cbv zeta. rewrite Htrim.
      cbn [execShortHex hexRun]. rewrite H3.
      cbn [isEmpty splitChars nth_error orb String.append]. reflexivity.
    + exact H6.
  - exists (String "#"%char rest). split; [apply long_hex_normal, H6|].
    split; [exact H6 | apply long_hex_normal, H6].
Qed.

Lemma sanitizeColor_accepted (value fallback : string) :
  testHexColor fallback = true ->
  testHexColor (sanitizeColor value fallback) = true.
Proof.
  intros Hf. unfold sanitizeColor. cbv zeta.
  destruct (testHexColor (trim value)) eqn:Ht; assumption.
Qed.

Lemma onChange_wellFormed (s : DxfViewerSettings) (change : Change) :
  wellFormedSettings s -> wellFormedSettings (onChange s change).
Proof.
  intros (Hline & Hback & Hpad & Hgrid).
  destruct change; unfold wellFormedSettings;
    cbn [onChange lineColor backgroundColor padding gridSizeMm showGridlines].
  - repeat split; try assumption; try lra.
    apply sanitizeColor_accepted. reflexivity.
  - repeat split; try assumption; try lra.
    apply sanitizeColor_accepted. reflexivity.
  - split; [exact Hline|]. split; [exact Hback|]. split; [|exact Hgrid].
    destruct (Number_parseInt value) as [parsed|].
    + apply settings_clamp_bounds. lra.
    + cbn. lra.
  - repeat split; try assumption; lra.
  - split; [exact Hline|]. split; [exact Hback|]. split; [exact Hpad|].
    unfold parsePositiveNumber.
    destruct (Number_parseFloat value) as [| |parsed]; try (cbn; lra).
    destruct (Rle_dec parsed 0); [cbn; lra|].
    apply settings_clamp_bounds. lra.
Qed.

(** X19. The settings tab keeps the settings well formed: after any
    sequence of changes made in it, both colours are [#] and three or
    six hexadecimal digits, the padding lies between 0 and 200 and the
    grid size between 0.0001 and 1000000, whatever texts were typed. *)
Theorem settings_tab_keeps_settings_well_formed
    (s : DxfViewerSettings) (changes : list Change) :
  wellFormedSettings s ->
  wellFormedSettings (fold_left onChange changes s).
Proof.
  revert s. induction changes as [|change changes IH]; intros s Hs;
    cbn [fold_left]; [exact Hs|].
  apply IH, onChange_wellFormed, Hs.
Qed.

(** X19 from the default settings, with texts that are refused. *)
Lemma settings_tab_keeps_settings_well_formed_witness :
  wellFormedSettings
    (fold_left onChange
       [LineColor " #fff "; ViewportPadding "500"; GridSize "-3";
        BackgroundColor "red"]%string
       DEFAULT_SETTINGS).
Proof.
  apply (settings_tab_keeps_settings_well_formed DEFAULT_SETTINGS).
  unfold wellFormedSettings. cbn. repeat split; try reflexivity; lra.
Defined.

(** X20. Every colour that the settings tab stores is one that the
    renderer understands: [normalizeHexColor] turns it into [#] and six
    hexadecimal digits, a form that it leaves as it is. *)
Theorem stored_colours_are_understood (value fallback : string) :
  testHexColor fallback = true ->
  exists r, normalizeHexColor (sanitizeColor value fallback) = Some r
            /\ testLongHex r = true
            /\ normalizeHexColor r = Some r.
Proof.
  intros Hf. apply hex_colour_normal, sanitizeColor_accepted, Hf.
Qed.

(** X20 on a short colour typed with spaces around it. *)
Lemma stored_colours_are_understood_witness :
  exists r, normalizeHexColor (sanitizeColor " #AbC " "#4c9aff") = Some r
            /\ testLongHex r = true
            /\ normalizeHexColor r = Some r.
Proof.
  apply (stored_colours_are_understood " #AbC " "#4c9aff"). reflexivity.
Defined.

End SettingsAndColours.

(** * Rendering what was parsed *)

Section Rendering.
Import Types Js Parser Renderer Drawing Spec Props.

Ltac no_arc Hin Hr :=
  cbn [In] in Hin;
  repeat match type of Hin with
         | _ \/ _ => destruct Hin as [Hin | Hin]
         end;
  try contradiction; subst; cbn [arcRadiusOf] in Hr; try discriminate.

Lemma path_calls_no_arc (ops : list CanvasOp) (call : ContextCall) (r : R) :
  In call (map Path ops) -> arcRadiusOf call = Some r -> False.
Proof.
  intros Hin Hr. apply in_map_iff in Hin as (op & <- & _). discriminate.
Qed.

Lemma drawEntity_radii (t : RenderTransform) (e : DxfEntity)
    (call : ContextCall) (r : R) :
  validEntity e -> 0 < baseScale t -> 0 < zoom t ->
  In call (drawEntity t e) -> arcRadiusOf call = Some r -> 0 < r.
Proof.
  intros Hvalid Hbase Hzoom Hin Hr.
  destruct e as [l | c | a | p]; cbn [drawEntity] in Hin.
  - unfold drawLine in Hin. cbv zeta in Hin. no_arc Hin Hr.
  - unfold drawCircle in Hin. cbv zeta in Hin. no_arc Hin Hr.
    injection Hr as <-. cbn [validEntity] in Hvalid.
    apply Rmult_lt_0_compat; [apply Rmult_lt_0_compat|]; assumption.
  - exfalso. eapply path_calls_no_arc; eassumption.
  - unfold drawPolyline in Hin.
    destruct (_ <? 2)%nat; [contradiction|].
    destruct (nth_error (points p) 0); [|contradiction].
    cbv zeta in Hin.
    apply in_app_or in Hin as [Hin | Hin]; [no_arc Hin Hr|].
    apply in_app_or in Hin as [Hin | Hin].
    { apply in_flat_map in Hin as (i & _ & Hin).
      destruct (nth_error (points p) i); [|contradiction].
      cbv zeta in Hin. no_arc Hin Hr. }
    apply in_app_or in Hin as [Hin | Hin]; [|no_arc Hin Hr].
    destruct (closed p); no_arc Hin Hr.
Qed.

Lemma drawMeasurement_radii (t : RenderTransform) (m : DxfMeasurement)
    (call : ContextCall) (r : R) :
  In call (drawMeasurement t m) -> arcRadiusOf call = Some r -> 0 < r.
Proof.
  intros Hin Hr. unfold drawMeasurement in Hin. cbv zeta in Hin.
  destruct (measureStart m), (measureEnd m), (hover m);
    cbn [option_map app drawMeasurementHandle drawMeasurementHoverHandle] in Hin;
    no_arc Hin Hr; injection Hr as <-; lra.
Qed.

Lemma createTransformForCanvas_positive (document : DxfDocument)
    (width height : R) (options : DxfRenderOptions) (t : RenderTransform) :
  createTransformForCanvas document width height options = Some t ->
  0 < baseScale t /\ 0 < zoom t.
Proof.
  unfold createTransformForCanvas.
  destruct (computeBounds (entities document)); [|discriminate].
  intros [= <-]. split.
  - apply createTransform_baseScale_pos.
  - apply createTransform_zoom_pos.
Qed.

(** The calls of the grid, when they are made: [None] when [drawGrid]
    has not ended. *)
Lemma grid_calls (fuel : nat) (t : RenderTransform) (options : DxfRenderOptions) :
  let grid :=
    if showGridlines options
    then if Rlt_dec 0 (gridSizeMm options)
         then option_map (map Path) (drawGrid fuel t (gridSizeMm options))
         else Some []
    else Some [] in
  (grid = None
   <-> showGridlines options = true /\ 0 < gridSizeMm options
       /\ drawGrid fuel t (gridSizeMm options) = None)
  /\ forall gridCalls call r,
       grid = Some gridCalls -> In call gridCalls -> arcRadiusOf call = Some r -> False.
Proof.
  cbv zeta.
  destruct (showGridlines options);
    [destruct (Rlt_dec 0 (gridSizeMm options)) as [Hlt | Hge]|].
  - destruct (drawGrid fuel t (gridSizeMm options)) as [ops|]; cbn [option_map].
    + split.
      * split; [discriminate | intros (_ & _ & H); discriminate].
      * intros gridCalls call r [= <-]. apply path_calls_no_arc.
    + split; [tauto | discriminate].
  - split.
    + split; [discriminate | intros (_ & H & _); contradiction].
    + intros gridCalls call r [= <-] [].
  - split.
    + split; [discriminate | intros (H & _); discriminate].
    + intros gridCalls call r [= <-] [].
Qed.

(** X21. Rendering what was parsed hands no radius to [context.arc]
    that is not positive: whatever the text, the canvas, the options and
    the pixel ratio, every arc among the calls that [renderDxf] returns
    has a positive radius.  And [renderDxf] returns unless the grid is
    shown and [drawGrid] does not end. *)
Theorem parsed_text_renders_with_positive_radii
    (raw : string) (devicePixelRatio : R) (hasContext : bool)
    (canvas : HTMLCanvasElement) (options : DxfRenderOptions) :
  (forall (fuel : nat) (calls : list ContextCall),
      renderDxf fuel devicePixelRatio hasContext canvas (parseDxf raw) options
      = Some calls ->
      forall call r, In call calls -> arcRadiusOf call = Some r -> 0 < r)
  /\ (forall fuel : nat,
         renderDxf fuel devicePixelRatio hasContext canvas (parseDxf raw) options
         = None
         <-> hasContext = true
             /\ showGridlines options = true
             /\ 0 < gridSizeMm options
             /\ exists t,
                  createTransformForCanvas (parseDxf raw)
                    (Rmax 10 (Math_round (clientWidth canvas)))
                    (Rmax 10 (Math_round (clientHeight canvas))) options
                  = Some t
                  /\ drawGrid fuel t (gridSizeMm options) = None).
Proof.
  assert (Hvalid : Forall validEntity (entities (parseDxf raw))).
  { unfold parseDxf. cbn [entities]. apply walk_valid. constructor. }
  unfold renderDxf. cbv zeta.
  set (width := Rmax 10 (Math_round (clientWidth canvas))).
  set (height := Rmax 10 (Math_round (clientHeight canvas))).
  set (ratio := if Req_dec_T devicePixelRatio 0 then 1 else devicePixelRatio).
  destruct hasContext; cbn [negb].
  2:{ split.
      - intros fuel calls [= <-] call r [].
      - intros fuel. split; [discriminate | intros (H & _); discriminate]. }
  destruct (createTransformForCanvas (parseDxf raw) width height options)
    as [t|] eqn:Ht.
  2:{ split.
      - intros fuel calls [= <-] call r Hin Hr. no_arc Hin Hr.
      - intros fuel. split; [discriminate|].
        intros (_ & _ & _ & t & Habs & _). discriminate. }
  destruct (createTransformForCanvas_positive _ _ _ _ _ Ht) as [Hbase Hzoom].
  split.
  - intros fuel calls Hcalls call r Hin Hr.
    destruct (grid_calls fuel t options) as [_ Hnone]. cbv zeta in Hnone.
    destruct (if showGridlines options then _ else _) as [gridCalls|];
      [|discriminate].
    injection Hcalls as <-.
    cbn [In app] in Hin.
    destruct Hin as [<- | [<- | [<- | Hin]]]; try discriminate.
    apply in_app_or in Hin as [Hin | Hin];
      [exfalso; eapply Hnone; [reflexivity | eassumption | eassumption]|].
    apply in_app_or in Hin as [Hin | Hin].
    + apply in_flat_map in Hin as (e & He & Hin).
      eapply drawEntity_radii; try eassumption.
      rewrite Forall_forall in Hvalid. apply Hvalid, He.
    + destruct (measurement options) as [m|]; [|contradiction].
      destruct (measureStart m), (measureEnd m); try contradiction;
        eapply drawMeasurement_radii; eassumption.
  - intros fuel.
    destruct (grid_calls fuel t options) as [Hgrid _]. cbv zeta in Hgrid.
    destruct (if showGridlines options then _ else _) as [gridCalls|].
    + split; [discriminate|].
      intros (_ & Hshow & Hsize & t' & [= <-] & Hdraw).
      assert (Habs : Some gridCalls = None) by (apply Hgrid; auto).
      discriminate.
    + split; [|reflexivity]. intros _.
      destruct (proj1 Hgrid eq_refl) as (Hshow & Hsize & Hdraw).
      split; [reflexivity|]. split; [exact Hshow|]. split; [exact Hsize|].
      exists t. split; [reflexivity | exact Hdraw].
Qed.

End Rendering.

(** * The parser: polylines with vertex records *)

Section ParserPolyline.
Import Types Js Parser Spec Props.

Lemma polylineHeader_body (header : list DxfGroup) :
  forall (pre post : list DxfGroup) (variant : nat) (flags : Z),
    Forall (fun g => code g <> 0%Z) header ->
    match post with [] => True | g :: _ => code g = 0%Z end ->
    (List.length header <= variant)%nat ->
    polylineHeader variant (pre ++ header ++ post) (List.length pre) flags
    = ((List.length pre + List.length header)%nat, headerFlags header flags).
Proof.
  induction header as [|b header IH]; intros pre post variant flags Hheader Hpost Hv.
  - cbn [app List.length headerFlags fold_left]. rewrite Nat.add_0_r.
    destruct variant; cbn [polylineHeader]; [reflexivity|].
    destruct post as [|g post].
    + rewrite app_nil_r.
      assert (Hnone : nth_error pre (List.length pre) = None)
        by (apply nth_error_None; lia).
      now rewrite Hnone.
    + rewrite nth_error_middle, Hpost. reflexivity.
  - inversion Hheader as [|? ? Hb Hrest]; subst.
    destruct variant as [|variant]; [cbn in Hv; lia|].
    cbn [polylineHeader app]. rewrite nth_error_middle.
    apply Z.eqb_neq in Hb. rewrite Hb.
    replace (pre ++ b :: header ++ post) with ((pre ++ [b]) ++ header ++ post)
      by (rewrite <- app_assoc; reflexivity).
    replace (S (List.length pre)) with (List.length (pre ++ [b]))
      by (rewrite length_app; cbn; lia).
    rewrite IH; auto.
    + rewrite length_app. cbn [List.length headerFlags fold_left].
      f_equal. lia.
    + cbn [List.length] in Hv. lia.
Qed.

Lemma parseVertex_body (pre body post : list DxfGroup) (marker : DxfGroup) :
  Forall (fun g => code g <> 0%Z) body ->
  match post with [] => True | g :: _ => code g = 0%Z end ->
  parseVertex (pre ++ marker :: body ++ post) (List.length pre)
  = mkVertexResult (readPoint body 10 20)
                   (List.length pre + 1 + List.length body).
Proof.
  intros Hbody Hpost. unfold parseVertex.
  replace (pre ++ marker :: body ++ post) with ((pre ++ [marker]) ++ body ++ post)
    by (rewrite <- app_assoc; reflexivity).
  replace (List.length pre + 1)%nat with (List.length (pre ++ [marker]))
    by (rewrite length_app; cbn; lia).
  rewrite skipBody_body; auto.
  - rewrite slice_body. reflexivity.
  - rewrite !length_app. cbn [List.length]. lia.
Qed.

Lemma vertexRecords_head (bodies : list (list DxfGroup)) (post : list DxfGroup) :
  endsVertices post ->
  match vertexRecords bodies ++ post with
  | [] => True
  | g :: _ => code g = 0%Z
  end.
Proof.
  intros Hpost. destruct bodies as [|body bodies]; cbn.
  - destruct post as [|g post]; [exact I | apply Hpost].
  - reflexivity.
Qed.

Lemma polylineVertices_records (bodies : list (list DxfGroup)) :
  forall (pre post : list DxfGroup) (variant : nat) (points : list DxfPoint),
    Forall (Forall (fun g => code g <> 0%Z)) bodies ->
    endsVertices post ->
    (List.length (vertexRecords bodies ++ post) <= variant)%nat ->
    polylineVertices variant (pre ++ vertexRecords bodies ++ post)
                     (List.length pre) points
    = ((List.length pre + List.length (vertexRecords bodies)
        + (if startsWithSeqend post then 1 else 0))%nat,
       points ++ vertexPoints bodies).
Proof.
  induction bodies as [|body bodies IH];
    intros pre post variant points Hbodies Hpost Hv.
  - cbn [vertexRecords vertexPoints flat_map app List.length] in *.
    rewrite app_nil_r, Nat.add_0_r.
    destruct post as [|g post].
    + rewrite app_nil_r. cbn [startsWithSeqend]. rewrite Nat.add_0_r.
      assert (Hnone : nth_error pre (List.length pre) = None)
        by (apply nth_error_None; lia).
      destruct variant; cbn [polylineVertices]; [|rewrite Hnone]; reflexivity.
    + destruct variant as [|variant]; [cbn in Hv; lia|].
      cbn [polylineVertices]. rewrite nth_error_middle.
      destruct Hpost as [Hcode Hvalue]. rewrite Hcode. cbn [Z.eqb negb].
      apply String.eqb_neq in Hvalue. rewrite Hvalue.
      cbn [startsWithSeqend].
      destruct (String.eqb (value g) "SEQEND"); f_equal; lia.
  - inversion Hbodies as [|? ? Hbody Hrest]; subst.
    cbn [vertexRecords flat_map] in *. fold (vertexRecords bodies) in *.
    rewrite <- !app_assoc in *. cbn [app] in *.
    destruct variant as [|variant]; [cbn in Hv; lia|].
    cbn [polylineVertices]. rewrite nth_error_middle.
    cbn [code value Z.eqb negb String.eqb Ascii.eqb Bool.eqb andb].
    rewrite parseVertex_body;
      [|exact Hbody | apply vertexRecords_head, Hpost].
    cbn [point vertexNextIndex].
    replace (pre ++ mkGroup 0 "VERTEX" :: body ++ vertexRecords bodies ++ post)
      with ((pre ++ mkGroup 0 "VERTEX" :: body) ++ vertexRecords bodies ++ post)
      by (rewrite <- app_assoc; reflexivity).
    replace (List.length pre + 1 + List.length body)%nat
      with (List.length (pre ++ mkGroup 0 "VERTEX" :: body))
      by (rewrite length_app; cbn [List.length]; lia).
    rewrite IH; [|exact Hrest | exact Hpost|].
    + cbn [vertexPoints flat_map]. fold (vertexPoints bodies).
      rewrite !length_app. cbn [List.length]. rewrite length_app.
      f_equal; [lia|].
      destruct (readPoint body 10 20); cbn [app]; [rewrite <- app_assoc|];
        reflexivity.
    + cbn [List.length] in Hv. rewrite !length_app in Hv. rewrite !length_app. lia.
Qed.

(** X22. A POLYLINE is read as the records say: its header runs to
    the first record of code 0, one point is read from the body of each
    VERTEX record that follows (a vertex without a readable point is
    left out), and the reading stops after a SEQEND record or before any
    other marker.  The polyline is closed when the last record of code
    70 in the header is odd, and it is dropped when fewer than two
    points were read. *)
Theorem polyline_reads_its_vertex_records
    (pre header post : list DxfGroup) (bodies : list (list DxfGroup)) :
  Forall (fun g => code g <> 0%Z) header ->
  Forall (Forall (fun g => code g <> 0%Z)) bodies ->
  endsVertices post ->
  let groups := pre ++ [mkGroup 0 "POLYLINE"] ++ header
                    ++ vertexRecords bodies ++ post in
  let pts := vertexPoints bodies in
  parsePolylineEntity groups (List.length pre)
  = mkResult
      (if (List.length pts <? 2)%nat then None
       else Some (POLYLINE (mkPolyline pts (Z.odd (headerFlags header 0)))))
      (List.length pre + 1 + List.length header
       + List.length (vertexRecords bodies)
       + (if startsWithSeqend post then 1 else 0)).
Proof.
  intros Hheader Hbodies Hpost groups pts.
  unfold parsePolylineEntity.
  assert (Hgroups1 : groups
            = (pre ++ [mkGroup 0 "POLYLINE"]) ++ header
              ++ (vertexRecords bodies ++ post)).
  { unfold groups. rewrite <- app_assoc. reflexivity. }
  assert (Hgroups2 : groups
            = ((pre ++ [mkGroup 0 "POLYLINE"]) ++ header)
              ++ vertexRecords bodies ++ post).
  { rewrite Hgroups1, <- !app_assoc. reflexivity. }
  assert (Hlen : List.length groups
            = (List.length pre + 1 + List.length header
               + List.length (vertexRecords bodies ++ post))%nat).
  { rewrite Hgroups2, !length_app. cbn [List.length]. lia. }
  replace (List.length pre + 1)%nat
    with (List.length (pre ++ [mkGroup 0 "POLYLINE"]))
    by (rewrite length_app; cbn; lia).
  rewrite Hgroups1 at 2.
  rewrite polylineHeader_body;
    [|exact Hheader | apply vertexRecords_head, Hpost
     |rewrite Hlen, !length_app; cbn [List.length]; lia].
  replace (List.length (pre ++ [mkGroup 0 "POLYLINE"]) + List.length header)%nat
    with (List.length ((pre ++ [mkGroup 0 "POLYLINE"]) ++ header))
    by (rewrite !length_app; reflexivity).
  rewrite Hgroups2 at 2.
  rewrite polylineVertices_records;
    [|exact Hbodies | exact Hpost
     |rewrite Hlen, !length_app; cbn [List.length]; lia].
  cbn [app]. fold pts. rewrite land_1_odd.
  rewrite !length_app. cbn [List.length].
  destruct (List.length pts <? 2)%nat; f_equal; lia.
Qed.

(** X22 on a closed polyline of two vertices, ended by SEQEND. *)
Lemma polyline_reads_its_vertex_records_witness :
  let pre := [mkGroup 0 "SECTION"; mkGroup 2 "ENTITIES"] in
  let header := [mkGroup 8 "0"; mkGroup 70 "1"] in
  let bodies := [[mkGroup 10 "0"; mkGroup 20 "0"];
                 [mkGroup 10 "10"; mkGroup 20 "5"]] in
  let post := [mkGroup 0 "SEQEND"; mkGroup 0 "ENDSEC"] in
  parsePolylineEntity
    (pre ++ [mkGroup 0 "POLYLINE"] ++ header ++ vertexRecords bodies ++ post)
    (List.length pre)
  = mkResult
      (if (List.length (vertexPoints bodies) <? 2)%nat then None
       else Some (POLYLINE (mkPolyline (vertexPoints bodies)
                                       (Z.odd (headerFlags header 0)))))
      (List.length pre + 1 + List.length header
       + List.length (vertexRecords bodies)
       + (if startsWithSeqend post then 1 else 0)).
Proof.
  cbv zeta.
  apply (polyline_reads_its_vertex_records
           [mkGroup 0 "SECTION"; mkGroup 2 "ENTITIES"]
           [mkGroup 8 "0"; mkGroup 70 "1"]
           [mkGroup 0 "SEQEND"; mkGroup 0 "ENDSEC"]
           [[mkGroup 10 "0"; mkGroup 20 "0"];
            [mkGroup 10 "10"; mkGroup 20 "5"]]).
  - repeat constructor; cbn; discriminate.
  - repeat constructor; cbn; discriminate.
  - split; [reflexivity | discriminate].
Defined.

End ParserPolyline.

(** * The parser: the order of the fields of an entity *)

Section FieldOrder.
Import Types Js Parser Spec Props.

Lemma readNumber_permutation (body body' : list DxfGroup) (c : Z) :
  NoDup (map code body) ->
  Permutation body body' ->
  readNumber body' c = readNumber body c.
Proof.
  intros Hnodup Hperm. induction Hperm as [|g l l' Hperm IH|g h l|l l' l'' H1 IH1 H2 IH2].
  - reflexivity.
  - cbn [readNumber]. cbn [map] in Hnodup. inversion Hnodup; subst.
    rewrite IH by assumption. reflexivity.
  - cbn [readNumber]. cbn [map] in Hnodup.
    inversion Hnodup as [|? ? Hnotin _]; subst.
    destruct (Z.eqb_spec (code g) c) as [Hg|Hg];
      destruct (Z.eqb_spec (code h) c) as [Hh|Hh]; try reflexivity.
    exfalso. apply Hnotin. left. congruence.
  - rewrite IH2, IH1; try assumption; [reflexivity|].
    eapply Permutation_NoDup; [|exact Hnodup].
    apply Permutation_map, H1.
Qed.

(** X23. The fields of a LINE, a CIRCLE or an ARC may come in any order:
    when no code occurs twice in the body, reordering its records
    changes nothing of what is read from it. *)
Theorem field_order_is_irrelevant (body body' : list DxfGroup) :
  NoDup (map code body) ->
  Permutation body body' ->
  parseLine body' = parseLine body
  /\ parseCircle body' = parseCircle body
  /\ parseArc body' = parseArc body.
Proof.
  intros Hnodup Hperm.
  unfold parseLine, parseCircle, parseArc, readPoint.
  rewrite !(readNumber_permutation body body') by assumption.
  repeat split.
Qed.

(** X23 on an arc whose radius is written first. *)
Lemma field_order_is_irrelevant_witness :
  let body := [mkGroup 10 "1"; mkGroup 20 "2"; mkGroup 40 "3";
               mkGroup 50 "0"; mkGroup 51 "90"] in
  let body' := [mkGroup 40 "3"; mkGroup 10 "1"; mkGroup 20 "2";
                mkGroup 50 "0"; mkGroup 51 "90"] in
  parseLine body' = parseLine body
  /\ parseCircle body' = parseCircle body
  /\ parseArc body' = parseArc body.
Proof.
  cbv zeta. apply field_order_is_irrelevant.
  - cbn [map code]. repeat constructor; cbn [In]; intuition discriminate.
  - apply Permutation_sym.
    apply (Permutation_middle [mkGroup 10 "1"; mkGroup 20 "2"]
             [mkGroup 50 "0"; mkGroup 51 "90"] (mkGroup 40 "3")).
Defined.

End FieldOrder.

(** * What is drawn and what can be picked *)

Section DrawnAndPicked.
Import Types Js Renderer Drawing Spec Props.

Lemma cos_period_Z (a : R) (k : Z) : cos (a + 2 * IZR k * PI) = cos a.
Proof.
  destruct (Z.le_gt_cases 0 k) as [Hk|Hk].
  - rewrite <- (Z2Nat.id k Hk), <- INR_IZR_INZ. apply cos_period.
  - rewrite <- (cos_period (a + 2 * IZR k * PI) (Z.to_nat (- k))).
    rewrite INR_IZR_INZ, Z2Nat.id by lia. rewrite opp_IZR. f_equal. ring.
Qed.

Lemma sin_period_Z (a : R) (k : Z) : sin (a + 2 * IZR k * PI) = sin a.
Proof.
  destruct (Z.le_gt_cases 0 k) as [Hk|Hk].
  - rewrite <- (Z2Nat.id k Hk), <- INR_IZR_INZ. apply sin_period.
  - rewrite <- (sin_period (a + 2 * IZR k * PI) (Z.to_nat (- k))).
    rewrite INR_IZR_INZ, Z2Nat.id by lia. rewrite opp_IZR. f_equal. ring.
Qed.

(** The start angle plus the sweep is the end angle up to full turns. *)
Lemma sweep_reaches_the_end (startDeg endDeg : R) :
  exists k : Z,
    degToRad startDeg + computeCounterClockwiseSweep startDeg endDeg
    = degToRad endDeg + 2 * IZR k * PI.
Proof.
  rewrite computeCounterClockwiseSweep_spec. unfold specSweepDegrees.
  set (k1 := Zfloor (startDeg / 360)).
  set (k2 := Zfloor (endDeg / 360)).
  assert (H1 : Rmod startDeg 360 = startDeg - 360 * IZR k1) by reflexivity.
  assert (H2 : Rmod endDeg 360 = endDeg - 360 * IZR k2) by reflexivity.
  set (inner := Rmod endDeg 360 - Rmod startDeg 360 + 360).
  set (k3 := Zfloor (inner / 360)).
  assert (H3 : Rmod inner 360 = inner - 360 * IZR k3) by reflexivity.
  destruct (Req_dec_T (Rmod inner 360) 0) as [Hzero|Hnz].
  - exists (k1 - k2 + 1 + 1 - k3)%Z.
    repeat (rewrite minus_IZR || rewrite plus_IZR). unfold degToRad.
    assert (Hs : startDeg = endDeg - 360 * IZR k2 + 360 * IZR k1 + 360
                            - 360 * IZR k3).
    { rewrite Hzero in H3. unfold inner in H3. rewrite H1, H2 in H3. lra. }
    rewrite Hs at 1. field.
  - exists (k1 - k2 + 1 - k3)%Z.
    repeat (rewrite minus_IZR || rewrite plus_IZR). unfold degToRad.
    rewrite H3. unfold inner. rewrite H1, H2. field.
Qed.

(** X24. The two vertices of an arc that can be picked are the two ends
    of the curve that is drawn for it: the first and the last point of
    the polygon of [drawArc]. *)
Theorem arc_vertices_are_the_ends_of_the_drawn_arc (e : DxfArcEntity) :
  let startRad := degToRad (startAngleDeg e) in
  let sweepRad := computeCounterClockwiseSweep (startAngleDeg e) (endAngleDeg e) in
  let segments := arcSegments sweepRad in
  collectVertices [ARC e]
  = [arcWorldPoint e startRad sweepRad segments 0;
     arcWorldPoint e startRad sweepRad segments segments].
Proof.
  intros startRad sweepRad segments.
  rewrite arcWorldPoint_first.
  rewrite arcWorldPoint_last by (pose proof (arcSegments_ge_12 sweepRad); lia).
  destruct (sweep_reaches_the_end (startAngleDeg e) (endAngleDeg e)) as [k Hk].
  fold startRad sweepRad in Hk. rewrite Hk.
  unfold collectVertices. cbn [fold_left app].
  unfold getArcPoint, arcPointAt. cbv zeta.
  rewrite cos_period_Z, sin_period_Z. reflexivity.
Qed.

Lemma lineTo_loop (t : RenderTransform) (rest : list DxfPoint) :
  forall pre : list DxfPoint,
    penPoints
      (flat_map
         (fun i =>
            match nth_error (pre ++ rest) i with
            | None => []
            | Some vertex =>
                let point := toScreen vertex t in
                [Path (LineTo (x point) (y point))]
            end)
         (seq (List.length pre) (List.length rest)))
    = map (fun p => toScreen p t) rest.
Proof.
  induction rest as [|p rest IH]; intros pre; [reflexivity|].
  cbn [List.length seq flat_map]. rewrite nth_error_middle.
  unfold penPoints in *. rewrite flat_map_app. cbn [flat_map penPoint app map].
  f_equal.
  specialize (IH (pre ++ [p])).
  rewrite <- app_assoc, length_app in IH. cbn [app List.length] in IH.
  rewrite Nat.add_1_r in IH. exact IH.
Qed.

(** X25. The pen follows the vertices that can be picked: drawing a
    line, or a polyline of at least two points, puts the pen on the
    images of the entity's vertices, each once and in their order; no
    index of the polyline is passed over. *)
Theorem pen_follows_the_vertices (t : RenderTransform) (e : DxfEntity) :
  validEntity e ->
  match e with
  | LINE _ | POLYLINE _ =>
      penPoints (drawEntity t e)
      = map (fun p => toScreen p t) (collectVertices [e])
  | CIRCLE _ | ARC _ => True
  end.
Proof.
  intros Hvalid. destruct e as [l | c | a | p]; try exact I.
  - reflexivity.
  - cbn [validEntity] in Hvalid. rewrite collectVertices_flat_map.
    cbn [flat_map entityVertices drawEntity]. rewrite app_nil_r.
    unfold drawPolyline.
    destruct (Nat.ltb_spec (List.length (points p)) 2) as [Hlt|_]; [lia|].
    destruct (points p) as [|p0 rest] eqn:Hpoints; [cbn in Hvalid; lia|].
    cbn [nth_error]. cbv zeta.
    unfold penPoints. rewrite !flat_map_app.
    cbn [flat_map penPoint app map List.length].
    f_equal.
    replace (S (List.length rest) - 1)%nat with (List.length rest) by lia.
    pose proof (lineTo_loop t rest [p0]) as Hloop.
    unfold penPoints in Hloop. cbn [app List.length] in Hloop.
    rewrite Hloop.
    destruct (closed p); cbn [flat_map app]; rewrite app_nil_r; reflexivity.
Qed.

(** X25 on a triangle. *)
Lemma pen_follows_the_vertices_witness :
  let t := createTransform (DxfBounds.mk 0 0 4 3) 100 100 0 DEFAULT_VIEWPORT in
  let e := POLYLINE (mkPolyline [{| x := 0; y := 0 |}; {| x := 4; y := 0 |};
                                 {| x := 4; y := 3 |}] true) in
  penPoints (drawEntity t e)
  = map (fun p => toScreen p t) (collectVertices [e]).
Proof.
  cbv zeta.
  apply (pen_follows_the_vertices
           (createTransform (DxfBounds.mk 0 0 4 3) 100 100 0 DEFAULT_VIEWPORT)
           (POLYLINE (mkPolyline [{| x := 0; y := 0 |}; {| x := 4; y := 0 |};
                                  {| x := 4; y := 3 |}] true))).
  cbn. lia.
Defined.

End DrawnAndPicked.
